(** * agent-workspace: workspace lifecycle and output validation

    A shallow embedding of the TypeScript sources of [agent-workspace]
    ([src/manager.ts], [src/handle.ts], [src/validation.ts], the readers
    and the writers), followed by the properties stated in the
    specification of the lifecycle manager and of the validation engine.

    Conventions of the embedding.
    - JavaScript values are the plain data values [JsValue]; numbers are
      the integer-valued ones (times and ages are whole milliseconds).
    - A call either returns or throws: [Outcome].  A thrown value is an
      [Error] instance with its message, a plain data value, or a value
      whose text cannot be read (reading it throws): [Thrown].  So
      [err instanceof Error ? err.message : String(err)] is a call that may
      throw, like any other.
    - [async] functions are run to completion: [await] on a fulfilled
      promise is a return, on a rejected promise a throw.  Callbacks that
      never settle are outside the model.
    - Effects are explicit: a computation is a function from a state to an
      outcome and a new state ([Eff]); the state survives a throw, so
      whatever a [try] block did before it threw is still there in the
      [catch] block.  Every file-system call and every callback call is
      recorded, in order.
    - A path is the list of the names joined so far, from the root of the
      file system; [path.join(dir, name)] appends [name] as one component.
    - The builtins the sources call (JSON, YAML, dates, [trimEnd], the
      text of a number) are the fields of [JsRuntime] and, for the writers,
      of [JsWriterRuntime]; nothing is assumed about them except where a
      statement says so.
    - The output directory, for [validateOutput], is any pair of answers to
      [fs.access] and [fs.readFile]; the managed root, for the manager, is
      a tree of directories and files, with no permissions and no links.

    Part I is the program, Part II the vocabulary of the statements and
    the sample data, Part III the properties. *)

From Stdlib Require Import ZArith Lia Ascii.
From stdpp Require Import base strings gmap list pretty.

Set Warnings "-register-all".

Open Scope Z_scope.

(* ================================================================== *)
(** * Part I: the program *)
(* ================================================================== *)

(** ** JavaScript values *)

Inductive JsValue :=
  | JUndefined
  | JNull
  | JBool (b : bool)
  | JNum (n : Z)
  | JStr (s : string)
  | JArr (items : list JsValue)
  | JObj (props : list (string * JsValue)).

(** [Array.isArray(v)] *)
Definition Array_isArray (v : JsValue) : bool :=
  match v with JArr _ => true | _ => false end.

(** [v === false] *)
Definition strictly_false (v : JsValue) : bool :=
  match v with JBool false => true | _ => false end.

(** [ToBoolean(v)]: what [if (v)] tests. *)
Definition truthy (v : JsValue) : bool :=
  match v with
  | JUndefined | JNull => false
  | JBool b => b
  | JNum n => negb (n =? 0)
  | JStr s => negb (String.eqb s EmptyString)
  | JArr _ | JObj _ => true
  end.

(** What a [throw] carries: an [Error] instance whose [message] reads as
    the text [message]; a plain data value; or a value whose text cannot
    be read, an [Error] whose [message] getter throws (or whose message
    cannot be converted to a string) or an object whose [toString] throws:
    reading its text throws [raised]. *)
Inductive Thrown :=
  | ErrorObj (message : string)
  | ThrownValue (v : JsValue)
  | Unreadable (raised : Thrown).

Inductive Outcome (A : Type) :=
  | Returns (a : A)
  | Throws (err : Thrown).
Arguments Returns {A} a.
Arguments Throws {A} err.

(** A promise, once settled. *)
Inductive Settled :=
  | Fulfilled (v : JsValue)
  | Rejected (err : Thrown).

(** What calling a possibly asynchronous callback gives. *)
Inductive CallResult :=
  | RetValue (v : JsValue)
  | RetPromise (p : Settled)
  | Raise (err : Thrown).

(** [await r] *)
Definition await (r : CallResult) : Outcome JsValue :=
  match r with
  | RetValue v => Returns v
  | RetPromise (Fulfilled v) => Returns v
  | RetPromise (Rejected err) => Throws err
  | Raise err => Throws err
  end.

(** ** Effectful computations *)

Definition Eff (S A : Type) : Type := S -> Outcome A * S.

Definition ret {S A} (a : A) : Eff S A := fun s => (Returns a, s).

Definition throw {S A} (err : Thrown) : Eff S A := fun s => (Throws err, s).

Definition bind {S A B} (m : Eff S A) (k : A -> Eff S B) : Eff S B :=
  fun s =>
    match m s with
    | (Returns a, s') => k a s'
    | (Throws err, s') => (Throws err, s')
    end.

(** [try { m } catch (err) { handler err }] *)
Definition try_catch {S A} (m : Eff S A) (handler : Thrown -> Eff S A) : Eff S A :=
  fun s =>
    match m s with
    | (Returns a, s') => (Returns a, s')
    | (Throws err, s') => handler err s'
    end.

Definition lift {S A} (o : Outcome A) : Eff S A := fun s => (o, s).

Declare Scope eff_scope.
Delimit Scope eff_scope with eff.
Notation "x <- m ;; k" := (bind m (fun x => k))
  (at level 100, m at next level, right associativity) : eff_scope.
Notation "m ;; k" := (bind m (fun _ => k))
  (at level 100, right associativity) : eff_scope.
Open Scope eff_scope.

(** [for (const x of xs) { body x }] *)
Fixpoint forEach {S A} (xs : list A) (body : A -> Eff S unit) : Eff S unit :=
  match xs with
  | [] => ret tt
  | x :: rest => body x ;; forEach rest body
  end.

(** [xs.map(f)] where [f] may throw: the first throw ends the map. *)
Fixpoint map_throwing {A B} (f : A -> Outcome B) (xs : list A) : Outcome (list B) :=
  match xs with
  | [] => Returns []
  | x :: rest =>
      match f x with
      | Throws err => Throws err
      | Returns y =>
          match map_throwing f rest with
          | Throws err => Throws err
          | Returns ys => Returns (y :: ys)
          end
      end
  end.

(** ** Paths *)

Abbreviation Path := (list string).

(** [path.join(dir, name)] *)
Definition path_join (dir : Path) (name : string) : Path := dir ++ [name].

(** ** The runtime: builtins the sources call *)

(** A [Date]: its time value in milliseconds, [None] for an invalid date
    (whose [getTime()] is [NaN]). *)
Abbreviation JsDate := (option Z).

Class JsRuntime := {
  (** [JSON.parse(text)] *)
  JSON_parse : string -> Outcome JsValue;
  (** [JSON.stringify(value, null, 2)], as the text it is written as *)
  JSON_stringify : JsValue -> string;
  (** [parse] of the [yaml] package *)
  yamlParse : string -> Outcome JsValue;
  (** [text.trimEnd()] *)
  String_trimEnd : string -> string;
  (** [new Date(ms).toISOString()] *)
  Date_toISOString : Z -> string;
  (** [new Date(value)] *)
  Date_new : JsValue -> JsDate;
  (** [String(n)] for the number [n] *)
  Number_toString : Z -> string;
}.

(** ** Conversion to text *)

Section Conversions.
Context `{JsRuntime}.

(** [key] is an own property. *)
Definition has_own (key : string) (props : list (string * JsValue)) : bool :=
  existsb (fun kv => String.eqb (fst kv) key) props.

(** What [String(v)] throws for an object that has no primitive value. *)
Definition not_primitive : Thrown :=
  ErrorObj "Cannot convert object to primitive value".

(** [String(v)].  An array is joined with commas, [undefined] and [null]
    giving the empty string.  An object is rendered by
    [Object.prototype.toString], unless it has a [toString] property of
    its own: a data value is not callable, the inherited [valueOf] gives
    the object back, and the conversion throws a [TypeError]. *)
Fixpoint js_toString (v : JsValue) : Outcome string :=
  match v with
  | JUndefined => Returns "undefined"
  | JNull => Returns "null"
  | JBool b => Returns (if b then "true" else "false")
  | JNum n => Returns (Number_toString n)
  | JStr s => Returns s
  | JArr items =>
      match map_throwing (fun x => match x with
                                   | JUndefined | JNull => Returns EmptyString
                                   | _ => js_toString x
                                   end) items with
      | Returns parts => Returns (String.concat "," parts)
      | Throws err => Throws err
      end
  | JObj props =>
      if has_own "toString" props then Throws not_primitive
      else Returns "[object Object]"
  end.

Definition join_item (x : JsValue) : Outcome string :=
  match x with
  | JUndefined | JNull => Returns EmptyString
  | _ => js_toString x
  end.

(** [items.join(sep)] *)
Definition Array_join (sep : string) (items : list JsValue) : Outcome string :=
  match map_throwing join_item items with
  | Returns parts => Returns (String.concat sep parts)
  | Throws err => Throws err
  end.

(** [err instanceof Error ? err.message : String(err)] *)
Definition errorText (err : Thrown) : Outcome string :=
  match err with
  | ErrorObj message => Returns message
  | ThrownValue v => js_toString v
  | Unreadable raised => Throws raised
  end.
End Conversions.

(** ** Shared types ([src/types.ts]) *)

(** [Schema]: anything with a [parse] method that throws on invalid data. *)
Record Schema := { parse : JsValue -> Outcome JsValue }.

Inductive Format := json | jsonl | markdown | raw.

Module ValidationError.
Record t := mk { path : string; message : string }.
End ValidationError.

Record ValidationResult := {
  valid : bool;
  errors : list ValidationError.t;
}.

Record OutputFileSpec := {
  path : string;
  format : Format;
  required : bool;
  description : option string;
  schema : option Schema;
  validate : option (JsValue -> CallResult);
}.

Record OutputSpec := { files : list OutputFileSpec }.

Record ReadJsonOptions := { json_schema : option Schema }.

Record ReadMarkdownOptions := { frontmatterSchema : option Schema }.

(** ** Strings *)

Definition newline : ascii := "010"%char.
Definition double_quote : string := String "034"%char EmptyString.

(** [text.split('\n')] *)
Fixpoint split_newline (text : string) : list string :=
  match text with
  | EmptyString => [EmptyString]
  | String c rest =>
      if Ascii.eqb c newline then EmptyString :: split_newline rest
      else match split_newline rest with
           | line :: lines => String c line :: lines
           | [] => [String c EmptyString]
           end
  end.

(** [Some rest] when [text] is [pre] followed by [rest]. *)
Fixpoint after_prefix (pre text : string) : option string :=
  match pre, text with
  | EmptyString, _ => Some text
  | String a pre', String b text' =>
      if Ascii.eqb a b then after_prefix pre' text' else None
  | String _ _, EmptyString => None
  end.

(** [haystack.includes(needle)] on strings *)
Fixpoint String_includes (haystack needle : string) : bool :=
  match after_prefix needle haystack with
  | Some _ => true
  | None =>
      match haystack with
      | EmptyString => false
      | String _ rest => String_includes rest needle
      end
  end.

Definition fence_open : string :=
  String "-" (String "-" (String "-" (String newline EmptyString))).
Definition fence_close : string := String newline fence_open.

(** The lazy group of the frontmatter pattern: the shortest [front] with
    [text = front ++ fence_close ++ rest]. *)
Fixpoint split_at_fence (text : string) : option (string * string) :=
  match after_prefix fence_close text with
  | Some rest => Some (EmptyString, rest)
  | None =>
      match text with
      | EmptyString => None
      | String c text' =>
          match split_at_fence text' with
          | Some (front, rest) => Some (String c front, rest)
          | None => None
          end
      end
  end.

(** The frontmatter pattern of [readMarkdown], anchored at both ends: the
    opening fence line, a lazy first group, a newline and the closing fence
    line, one optional newline, and the rest as the second group. *)
Definition match_frontmatter (text : string) : option (string * string) :=
  match after_prefix fence_open text with
  | None => None
  | Some after_open =>
      match split_at_fence after_open with
      | None => None
      | Some (front, rest) =>
          match rest with
          | String c body => if Ascii.eqb c newline then Some (front, body) else Some (front, rest)
          | EmptyString => Some (front, rest)
          end
      end
  end.

(** ** Readers ([src/readers/json.ts], [markdown.ts], [raw.ts]) *)

Section Readers.
Context {S : Type} `{JsRuntime}.
(** [fs.readFile(path, 'utf-8')] *)
Variable fs_readFile : Path -> Eff S string.

Definition readJson (dir : Path) (filePath : string)
    (options : option ReadJsonOptions) : Eff S JsValue :=
  let fullPath := path_join dir filePath in
  text <- fs_readFile fullPath ;;
  data <- lift (JSON_parse text) ;;
  match options ≫= json_schema with
  | Some sch => lift (parse sch data)
  | None => ret data
  end.

(** The callback of [lines.map] in [readJsonl].  The message of the error
    it throws is built first, from the text of what the schema threw;
    when that text cannot be read, what reading it throws is thrown. *)
Definition readJsonl_line (options : option ReadJsonOptions)
    (indexed_line : nat * string) : Outcome JsValue :=
  let '(index, line) := indexed_line in
  match JSON_parse line with
  | Throws err => Throws err
  | Returns data =>
      match options ≫= json_schema with
      | Some sch =>
          match parse sch data with
          | Returns v => Returns v
          | Throws err =>
              match errorText err with
              | Returns text =>
                  Throws (ErrorObj ("JSONL validation failed at line "
                                    +:+ pretty (Z.of_nat index + 1) +:+ ": " +:+ text))
              | Throws raised => Throws raised
              end
          end
      | None => Returns data
      end
  end.

Definition readJsonl (dir : Path) (filePath : string)
    (options : option ReadJsonOptions) : Eff S JsValue :=
  let fullPath := path_join dir filePath in
  text <- fs_readFile fullPath ;;
  let lines :=
    filter (fun line => (0 < String.length line)%nat)
           (split_newline (String_trimEnd text)) in
  items <- lift (map_throwing (readJsonl_line options) (imap pair lines)) ;;
  ret (JArr items).

Definition readMarkdown (dir : Path) (filePath : string)
    (options : option ReadMarkdownOptions) : Eff S JsValue :=
  let fullPath := path_join dir filePath in
  text <- fs_readFile fullPath ;;
  let check_frontmatter (parsed : JsValue) : Eff S JsValue :=
    match options ≫= frontmatterSchema with
    | Some sch => lift (parse sch parsed)
    | None => ret parsed
    end in
  match match_frontmatter text with
  | Some (front, body) =>
      parsed <- lift (yamlParse front) ;;
      frontmatter <- check_frontmatter parsed ;;
      ret (JObj [("frontmatter", frontmatter); ("body", JStr body)])
  | None =>
      frontmatter <- check_frontmatter (JObj []) ;;
      ret (JObj [("frontmatter", frontmatter); ("body", JStr text)])
  end.

Definition readRaw (dir : Path) (filePath : string) : Eff S JsValue :=
  let fullPath := path_join dir filePath in
  text <- fs_readFile fullPath ;;
  ret (JStr text).
End Readers.

(** ** Observable steps *)

(** The file-system calls and the callback calls a computation makes, in
    the order it makes them. *)
Inductive Event :=
  | FsAccess (p : Path)
  | FsReadFile (p : Path)
  | FsReaddir (p : Path)
  | FsMkdir (p : Path)
  | FsWriteFile (p : Path) (content : string)
  | FsRm (p : Path)
  | CallSchemaParse (file : string) (data : JsValue)
  | CallValidate (file : string) (content : JsValue).

(** ** Output validation ([src/validation.ts]) *)

(** What the output directory answers: [fs.access] and [fs.readFile] for
    every path.  The two answers are unrelated, so a file that vanishes or
    becomes unreadable between the two calls is one of the states. *)
Record DirState := {
  access_result : Path -> Outcome unit;
  readFile_result : Path -> Outcome string;
}.

(** The [errors] array of [validateOutput], and the steps taken so far. *)
Record VState := {
  st_errors : list ValidationError.t;
  st_trace : list Event;
}.

Definition record_event (ev : Event) : Eff VState unit :=
  fun st => (Returns tt, {| st_errors := st_errors st; st_trace := st_trace st ++ [ev] |}).

(** [errors.push(e)] *)
Definition errors_push (e : ValidationError.t) : Eff VState unit :=
  fun st => (Returns tt, {| st_errors := st_errors st ++ [e]; st_trace := st_trace st |}).

Definition get_errors : Eff VState (list ValidationError.t) :=
  fun st => (Returns (st_errors st), st).

Section Validation.
Context `{JsRuntime}.
Variable disk : DirState.

Definition fs_access (p : Path) : Eff VState unit :=
  record_event (FsAccess p) ;; lift (access_result disk p).

Definition fs_readFile (p : Path) : Eff VState string :=
  record_event (FsReadFile p) ;; lift (readFile_result disk p).

Definition readFileByFormat (outputDir : Path) (spec : OutputFileSpec) : Eff VState JsValue :=
  match format spec with
  | json => readJson fs_readFile outputDir (path spec) None
  | jsonl => readJsonl fs_readFile outputDir (path spec) None
  | markdown => readMarkdown fs_readFile outputDir (path spec) None
  | raw => readRaw fs_readFile outputDir (path spec)
  end.

(** [fileSpec.schema.parse(data)], result dropped *)
Definition call_schema_parse (fileSpec : OutputFileSpec) (sch : Schema)
    (data : JsValue) : Eff VState unit :=
  record_event (CallSchemaParse (path fileSpec) data) ;;
  _ <- lift (parse sch data) ;;
  ret tt.

(** What a [catch (err)] block of [validateOutput] does: the error object
    is built first, its message from the text of [err], and then pushed;
    when the text cannot be read, nothing is pushed and what reading it
    throws is thrown. *)
Definition push_failure (fileSpec : OutputFileSpec) (label : string) (err : Thrown)
    : Eff VState unit :=
  text <- lift (errorText err) ;;
  errors_push (ValidationError.mk (path fileSpec) (label +:+ text)).

(** [await fileSpec.validate(content)] *)
Definition call_validate (fileSpec : OutputFileSpec) (predicate : JsValue -> CallResult)
    (content : JsValue) : Eff VState JsValue :=
  record_event (CallValidate (path fileSpec) content) ;;
  lift (await (predicate content)).

(** The schema block of the loop body. *)
Definition check_schema (fileSpec : OutputFileSpec) (content : JsValue) : Eff VState unit :=
  match schema fileSpec with
  | None => ret tt
  | Some sch =>
      try_catch
        (match format fileSpec, content with
         | jsonl, JArr items => forEach items (call_schema_parse fileSpec sch)
         | _, _ => call_schema_parse fileSpec sch content
         end)
        (push_failure fileSpec "Schema validation failed: ")
  end.

(** The custom-callback block of the loop body. *)
Definition check_custom (fileSpec : OutputFileSpec) (content : JsValue) : Eff VState unit :=
  match validate fileSpec with
  | None => ret tt
  | Some predicate =>
      try_catch
        (result <- call_validate fileSpec predicate content ;;
         if strictly_false result
         then errors_push
                (ValidationError.mk (path fileSpec) "Custom validation returned false")
         else ret tt)
        (push_failure fileSpec "Custom validation threw: ")
  end.

(** [fileSpec.description ? ` (${fileSpec.description})` : ''] *)
Definition describe (fileSpec : OutputFileSpec) : string :=
  match description fileSpec with
  | Some d => if truthy (JStr d) then " (" +:+ d +:+ ")" else EmptyString
  | None => EmptyString
  end.

(** The existence block: [true] when the loop body goes on, [false]
    when it reaches [continue]. *)
Definition check_exists (fullPath : Path) (fileSpec : OutputFileSpec) : Eff VState bool :=
  try_catch
    (fs_access fullPath ;; ret true)
    (fun _ =>
       (if required fileSpec
        then errors_push
               (ValidationError.mk (path fileSpec)
                  ("Required file missing" +:+ describe fileSpec))
        else ret tt) ;;
       ret false).

(** One turn of [for (const fileSpec of spec.files)]. *)
Definition check_file (outputDir : Path) (fileSpec : OutputFileSpec) : Eff VState unit :=
  let fullPath := path_join outputDir (path fileSpec) in
  present <- check_exists fullPath fileSpec ;;
  if present then
    try_catch
      (content <- readFileByFormat outputDir fileSpec ;;
       check_schema fileSpec content ;;
       check_custom fileSpec content)
      (push_failure fileSpec "Failed to read file: ")
  else ret tt.

Definition validateOutput_from (outputDir : Path) (spec : OutputSpec)
    : Eff VState ValidationResult :=
  forEach (files spec) (check_file outputDir) ;;
  errs <- get_errors ;;
  ret {| valid := (length errs =? 0)%nat; errors := errs |}.

(** [validateOutput(outputDir, spec)]: what it returns or throws, and the
    steps it took.  [errors] starts empty. *)
Definition validateOutput (outputDir : Path) (spec : OutputSpec)
    : Outcome ValidationResult * list Event :=
  let '(result, st) :=
    validateOutput_from outputDir spec {| st_errors := []; st_trace := [] |} in
  (result, st_trace st).
End Validation.

(** ** The file system *)

(** A file-system tree.  A path is resolved from the root of the tree. *)
Inductive Node :=
  | File (content : string)
  | Dir (children : gmap string Node).

Fixpoint lookup_path (p : Path) (n : Node) : option Node :=
  match p with
  | [] => Some n
  | name :: rest =>
      match n with
      | File _ => None
      | Dir children =>
          match children !! name with
          | Some child => lookup_path rest child
          | None => None
          end
      end
  end.

(** [mkdir -p]: [None] when a file is in the way. *)
Fixpoint mkdir_p (p : Path) (n : Node) : option Node :=
  match n with
  | File _ => None
  | Dir children =>
      match p with
      | [] => Some n
      | name :: rest =>
          match mkdir_p rest (default (Dir ∅) (children !! name)) with
          | Some child => Some (Dir (<[name := child]> children))
          | None => None
          end
      end
  end.

(** Create or overwrite a file: [None] when the parent directory is
    missing or the target is a directory. *)
Fixpoint write_file (p : Path) (content : string) (n : Node) : option Node :=
  match n with
  | File _ => None
  | Dir children =>
      match p with
      | [] => None
      | name :: rest =>
          match rest with
          | [] =>
              match children !! name with
              | Some (Dir _) => None
              | _ => Some (Dir (<[name := File content]> children))
              end
          | _ :: _ =>
              match children !! name with
              | None => None
              | Some child =>
                  match write_file rest content child with
                  | Some child' => Some (Dir (<[name := child']> children))
                  | None => None
                  end
              end
          end
      end
  end.

(** [rm -rf]: removing what is not there changes nothing; [None] for the
    root of the tree and when a file stands where a directory is needed. *)
Fixpoint rm_rf (p : Path) (n : Node) : option Node :=
  match n with
  | File _ => None
  | Dir children =>
      match p with
      | [] => None
      | name :: rest =>
          match rest with
          | [] => Some (Dir (delete name children))
          | _ :: _ =>
              match children !! name with
              | None => Some n
              | Some child =>
                  match rm_rf rest child with
                  | Some child' => Some (Dir (<[name := child']> children))
                  | None => None
                  end
              end
          end
      end
  end.

(** The tree, and every file-system call made so far. *)
Record World := {
  tree : Node;
  log : list Event;
}.

Module Fs.
(** [fs.Dirent] *)
Record Dirent := { name : string; isDirectory : bool }.

Definition is_dir (n : Node) : bool :=
  match n with Dir _ => true | File _ => false end.

Definition logged (ev : Event) : Eff World unit :=
  fun w => (Returns tt, {| tree := tree w; log := log w ++ [ev] |}).

Definition get_tree : Eff World Node := fun w => (Returns (tree w), w).

Definition set_tree (n : Node) : Eff World unit :=
  fun w => (Returns tt, {| tree := n; log := log w |}).

Definition ENOENT : Thrown := ErrorObj "ENOENT: no such file or directory".
Definition EISDIR : Thrown := ErrorObj "EISDIR: illegal operation on a directory".
Definition ENOTDIR : Thrown := ErrorObj "ENOTDIR: not a directory".
Definition EEXIST : Thrown := ErrorObj "EEXIST: file already exists".

(** [fs.access(p)] *)
Definition access (p : Path) : Eff World unit :=
  logged (FsAccess p) ;;
  t <- get_tree ;;
  match lookup_path p t with
  | Some _ => ret tt
  | None => throw ENOENT
  end.

(** [fs.readFile(p, 'utf-8')] *)
Definition readFile (p : Path) : Eff World string :=
  logged (FsReadFile p) ;;
  t <- get_tree ;;
  match lookup_path p t with
  | Some (File content) => ret content
  | Some (Dir _) => throw EISDIR
  | None => throw ENOENT
  end.

(** [fs.readdir(p, { withFileTypes: true })] *)
Definition readdir (p : Path) : Eff World (list Dirent) :=
  logged (FsReaddir p) ;;
  t <- get_tree ;;
  match lookup_path p t with
  | Some (Dir children) =>
      ret (map (fun entry => {| name := fst entry; isDirectory := is_dir (snd entry) |})
             (map_to_list children))
  | Some (File _) => throw ENOTDIR
  | None => throw ENOENT
  end.

(** [fs.mkdir(p, { recursive: true })] *)
Definition mkdir (p : Path) : Eff World unit :=
  logged (FsMkdir p) ;;
  t <- get_tree ;;
  match mkdir_p p t with
  | Some t' => set_tree t'
  | None => throw EEXIST
  end.

(** What [fs.writeFile(p)] fails with: the target is a directory, a name
    on the way is missing, or a file is on the way. *)
Fixpoint writeFile_error (p : Path) (n : Node) : Thrown :=
  match n with
  | File _ => ENOTDIR
  | Dir children =>
      match p with
      | [] => EISDIR
      | name :: rest =>
          match children !! name with
          | None => ENOENT
          | Some child =>
              match rest with
              | [] => EISDIR
              | _ :: _ => writeFile_error rest child
              end
          end
      end
  end.

(** [fs.writeFile(p, content)] *)
Definition writeFile (p : Path) (content : string) : Eff World unit :=
  logged (FsWriteFile p content) ;;
  t <- get_tree ;;
  match write_file p content t with
  | Some t' => set_tree t'
  | None => throw (writeFile_error p t)
  end.

(** [fs.rm(p, { recursive: true, force: true })] *)
Definition rm (p : Path) : Eff World unit :=
  logged (FsRm p) ;;
  t <- get_tree ;;
  match rm_rf p t with
  | Some t' => set_tree t'
  | None => throw ENOTDIR
  end.
End Fs.

(** [path.dirname(p)] *)
Definition path_dirname (p : Path) : Path := removelast p.

(** ** Writers ([src/writers/raw.ts], [json.ts]) *)

Definition writeRaw (dir : Path) (filePath : string) (content : string) : Eff World unit :=
  let fullPath := path_join dir filePath in
  Fs.mkdir (path_dirname fullPath) ;;
  Fs.writeFile fullPath content.

Definition writeJson `{JsRuntime} (dir : Path) (filePath : string) (data : JsValue)
    : Eff World unit :=
  let fullPath := path_join dir filePath in
  Fs.mkdir (path_dirname fullPath) ;;
  Fs.writeFile fullPath (JSON_stringify data +:+ String newline EmptyString).

(** ** Property reads and array membership *)

(** [v.key] for a key that is no builtin property of strings, numbers,
    booleans or arrays (the manager reads [id], [dirs], [createdAt]). *)
Definition get_field (v : JsValue) (key : string) : Outcome JsValue :=
  match v with
  | JUndefined | JNull => Throws (ErrorObj ("Cannot read properties (reading " +:+ key +:+ ")"))
  | JObj props =>
      match find (fun kv => String.eqb (fst kv) key) props with
      | Some kv => Returns (snd kv)
      | None => Returns JUndefined
      end
  | _ => Returns JUndefined
  end.

(** SameValueZero of a value with a string. *)
Definition same_as_string (v : JsValue) (s : string) : bool :=
  match v with
  | JStr t => String.eqb t s
  | _ => false
  end.

(** [items.includes(s)] for a string [s] *)
Definition Array_includes (items : list JsValue) (s : string) : bool :=
  existsb (fun v => same_as_string v s) items.

(** ** Workspace handles ([src/handle.ts]) *)

Module WorkspaceHandle.
(** The fields hold what the constructor was given: [list] passes on
    whatever the parsed metadata has. *)
Record t := mk {
  id : JsValue;
  path : Path;
  dirs : JsValue;
  createdAt : JsDate;
}.

Definition inputDir (h : t) : Path := path_join (path h) "input".
Definition outputDir (h : t) : Path := path_join (path h) "output".
Definition resourcesDir (h : t) : Path := path_join (path h) "resources".
Definition scratchDir (h : t) : Path := path_join (path h) "scratch".

Section Methods.
Context `{JsRuntime}.

(** [handle.dir(section)]; the message of the error is built first, and
    joining the names may throw. *)
Definition dir (h : t) (section : string) : Outcome Path :=
  match dirs h with
  | JArr items =>
      if Array_includes items section
      then Returns (path_join (path h) section)
      else match Array_join ", " items with
           | Returns available =>
               Throws (ErrorObj ("Unknown section " +:+ double_quote +:+ section
                                 +:+ double_quote +:+ ". Available: " +:+ available))
           | Throws err => Throws err
           end
  | JStr text =>
      if String_includes text section
      then Returns (path_join (path h) section)
      else Throws (ErrorObj "this.dirs.join is not a function")
  | JUndefined | JNull => Throws (ErrorObj "Cannot read properties (reading includes)")
  | JBool _ | JNum _ | JObj _ => Throws (ErrorObj "this.dirs.includes is not a function")
  end.

(** The methods resolve the section first: [f(this.dir(section), ...)]. *)
Definition handle_writeRaw (h : t) (section filePath content : string) : Eff World unit :=
  d <- lift (dir h section) ;;
  writeRaw d filePath content.

Definition handle_writeJson (h : t) (section filePath : string)
    (data : JsValue) : Eff World unit :=
  d <- lift (dir h section) ;;
  writeJson d filePath data.

Definition handle_readRaw (h : t) (section filePath : string) : Eff World JsValue :=
  d <- lift (dir h section) ;;
  readRaw Fs.readFile d filePath.

Definition handle_readJson (h : t) (section filePath : string)
    (options : option ReadJsonOptions) : Eff World JsValue :=
  d <- lift (dir h section) ;;
  readJson Fs.readFile d filePath options.

Definition handle_readJsonl (h : t) (section filePath : string)
    (options : option ReadJsonOptions) : Eff World JsValue :=
  d <- lift (dir h section) ;;
  readJsonl Fs.readFile d filePath options.

Definition handle_readMarkdown (h : t) (section filePath : string)
    (options : option ReadMarkdownOptions) : Eff World JsValue :=
  d <- lift (dir h section) ;;
  readMarkdown Fs.readFile d filePath options.
End Methods.
End WorkspaceHandle.

(** What [validateOutput] sees of a tree. *)
Definition disk_of (t : Node) : DirState :=
  {| access_result := fun p =>
       match lookup_path p t with
       | Some _ => Returns tt
       | None => Throws Fs.ENOENT
       end;
     readFile_result := fun p =>
       match lookup_path p t with
       | Some (File content) => Returns content
       | Some (Dir _) => Throws Fs.EISDIR
       | None => Throws Fs.ENOENT
       end |}.

(** [handle.validateOutput(spec)] *)
Definition handle_validateOutput `{JsRuntime} (h : WorkspaceHandle.t) (spec : OutputSpec)
    : Eff World ValidationResult :=
  fun w =>
    let '(result, trace) :=
      validateOutput (disk_of (tree w)) (WorkspaceHandle.outputDir h) spec in
    (result, {| tree := tree w; log := log w ++ trace |}).

(** ** The workspace manager ([src/manager.ts]) *)

(** [for] loop that updates one local variable. *)
Fixpoint for_fold {S A B} (xs : list A) (acc : B) (body : B -> A -> Eff S B) : Eff S B :=
  match xs with
  | [] => ret acc
  | x :: rest => acc' <- body acc x ;; for_fold rest acc' body
  end.

Record WorkspaceMeta := {
  meta_id : string;
  meta_taskType : string;
  meta_createdAt : string;
  meta_dirs : list string;
}.

(** The metadata object handed to [JSON.stringify]. *)
Definition meta_object (meta : WorkspaceMeta) : JsValue :=
  JObj [("id", JStr (meta_id meta));
        ("taskType", JStr (meta_taskType meta));
        ("createdAt", JStr (meta_createdAt meta));
        ("dirs", JArr (JStr <$> meta_dirs meta))].

Record CreateWorkspaceOptions := { additionalDirs : option (list string) }.

Record WorkspaceManagerConfig := {
  config_baseDir : option Path;
  config_prefix : option string;
}.

(** What [create] reads from its environment: [Date.now()] for the id,
    [crypto.randomUUID()], and [new Date()] for the metadata. *)
Record CreateEnv := {
  now_for_id : Z;
  randomUUID : string;
  now_for_meta : Z;
}.

(** [date.getTime() < cutoff]; [NaN < cutoff] is false. *)
Definition time_before (date : JsDate) (cutoff : Z) : bool :=
  match date with
  | Some ms => ms <? cutoff
  | None => false
  end.

Module WorkspaceManager.
Definition DEFAULT_DIRS : list string := ["input"; "output"; "resources"; "scratch"].
Definition META_FILE : string := ".workspace.json".

Record t := { baseDir : Path; prefix : string }.

(** The constructor; [os_tmpdir] is [os.tmpdir()]. *)
Definition new (os_tmpdir : Path) (config : WorkspaceManagerConfig) : t :=
  {| baseDir := default os_tmpdir (config_baseDir config);
     prefix := default "agent-workspaces" (config_prefix config) |}.

Definition root (m : t) : Path := path_join (baseDir m) (prefix m).

Section Methods.
Context `{JsRuntime}.

(** The directories of [Promise.all] are made one after the other; the
    first [mkdir] that fails is the one [create] fails with. *)
Definition create (m : t) (env : CreateEnv) (taskType : string)
    (options : CreateWorkspaceOptions) : Eff World WorkspaceHandle.t :=
  let id := taskType +:+ "-" +:+ pretty (now_for_id env) +:+ "-"
            +:+ String.substring 0 8 (randomUUID env) in
  let workspacePath := path_join (root m) id in
  let allDirs := DEFAULT_DIRS ++ default [] (additionalDirs options) in
  Fs.mkdir workspacePath ;;
  forEach allDirs (fun dir => Fs.mkdir (path_join workspacePath dir)) ;;
  let meta := {| meta_id := id;
                 meta_taskType := taskType;
                 meta_createdAt := Date_toISOString (now_for_meta env);
                 meta_dirs := allDirs |} in
  Fs.writeFile (path_join workspacePath META_FILE) (JSON_stringify (meta_object meta)) ;;
  ret (WorkspaceHandle.mk (JStr id) workspacePath (JArr (JStr <$> allDirs))
         (Date_new (JStr (meta_createdAt meta)))).

Definition cleanup (m : t) (handle : WorkspaceHandle.t) : Eff World unit :=
  Fs.rm (WorkspaceHandle.path handle).

(** The [try] block of [list]: the handle of the directory [name],
    from its metadata file. *)
Definition read_handle (m : t) (name : string) : Eff World WorkspaceHandle.t :=
  let metaPath := path_join (path_join (root m) name) META_FILE in
  text <- Fs.readFile metaPath ;;
  meta <- lift (JSON_parse text) ;;
  meta_id <- lift (get_field meta "id") ;;
  meta_dirs <- lift (get_field meta "dirs") ;;
  meta_createdAt <- lift (get_field meta "createdAt") ;;
  ret (WorkspaceHandle.mk meta_id (path_join (root m) name) meta_dirs
         (Date_new meta_createdAt)).

Definition list (m : t) : Eff World (Datatypes.list WorkspaceHandle.t) :=
  try_catch
    (entries <- Fs.readdir (root m) ;;
     for_fold entries []
       (fun handles entry =>
          if negb (Fs.isDirectory entry) then ret handles
          else
            try_catch
              (handle <- read_handle m (Fs.name entry) ;;
               ret (handles ++ [handle]))
              (fun _ => ret handles)))
    (fun _ => ret []).

(** [now] is what [Date.now()] gives after the listing. *)
Definition pruneStale (m : t) (now : Z) (maxAgeMs : Z) : Eff World Z :=
  handles <- list m ;;
  let cutoff := now - maxAgeMs in
  for_fold handles 0
    (fun pruned handle =>
       if time_before (WorkspaceHandle.createdAt handle) cutoff
       then cleanup m handle ;; ret (pruned + 1)
       else ret pruned).
End Methods.
End WorkspaceManager.

(* ================================================================== *)
(** * Part II: vocabulary of the statements, and sample data *)
(* ================================================================== *)

(** ** Vocabulary of the statements *)

Definition fresh_state : VState := {| st_errors := []; st_trace := [] |}.

(** [st] with more errors pushed and more steps taken. *)
Definition extend (st : VState) (es : list ValidationError.t) (ts : list Event) : VState :=
  {| st_errors := st_errors st ++ es; st_trace := st_trace st ++ ts |}.

(** [m] ends with [r] after pushing exactly [es] and taking exactly the
    steps [ts], whatever the state it starts from. *)
Definition appends {A} (m : Eff VState A) (r : Outcome A)
    (es : list ValidationError.t) (ts : list Event) : Prop :=
  forall st, m st = (r, extend st es ts).

(** The call returns. *)
Definition returns {A} (o : Outcome A) : Prop := exists a, o = Returns a.

(** The text of [err] can be read: [err.message], or [String(err)],
    returns. *)
Definition readable `{JsRuntime} (err : Thrown) : Prop :=
  exists text, errorText err = Returns text.

(** The errors of a returned result; none when the call threw. *)
Definition reported (run : Outcome ValidationResult * list Event) : list ValidationError.t :=
  match fst run with
  | Returns result => errors result
  | Throws _ => []
  end.

Definition steps (run : Outcome ValidationResult * list Event) : list Event := snd run.

(** What [validateOutput] gives when its loop ends with [r], having pushed
    [es]. *)
Definition result_of (r : Outcome unit) (es : list ValidationError.t)
    : Outcome ValidationResult :=
  match r with
  | Returns _ => Returns {| valid := (length es =? 0)%nat; errors := es |}
  | Throws err => Throws err
  end.

(** One run after another: the second one starts when the first has
    returned, and adds its errors and its steps; a throw ends both. *)
Definition and_then (first second : Outcome ValidationResult * list Event)
    : Outcome ValidationResult * list Event :=
  match fst first with
  | Returns result1 =>
      (match fst second with
       | Returns result2 =>
           Returns {| valid := (length (errors result1 ++ errors result2) =? 0)%nat;
                      errors := errors result1 ++ errors result2 |}
       | Throws err => Throws err
       end,
       snd first ++ snd second)
  | Throws err => (Throws err, snd first)
  end.

Section ValidationVocabulary.
Context `{JsRuntime}.
Variable disk : DirState.

(** Validating the one file spec [fileSpec] on its own. *)
Definition alone (outputDir : Path) (fileSpec : OutputFileSpec)
    : Outcome ValidationResult * list Event :=
  validateOutput disk outputDir {| files := [fileSpec] |}.

(** The file specs a run gets to: all of them, or those up to the first
    one whose validation throws. *)
Fixpoint reached (outputDir : Path) (fileSpecs : list OutputFileSpec)
    : list OutputFileSpec :=
  match fileSpecs with
  | [] => []
  | fileSpec :: rest =>
      fileSpec :: match fst (alone outputDir fileSpec) with
                  | Returns _ => reached outputDir rest
                  | Throws _ => []
                  end
  end.

(** What decoding the file of [fileSpec] gives. *)
Definition decoded (outputDir : Path) (fileSpec : OutputFileSpec) : Outcome JsValue :=
  fst (readFileByFormat disk outputDir fileSpec fresh_state).

(** The file of [fileSpec] is there for [fs.access]. *)
Definition present (outputDir : Path) (fileSpec : OutputFileSpec) : Prop :=
  access_result disk (path_join outputDir (path fileSpec)) = Returns tt.

Definition absent (outputDir : Path) (fileSpec : OutputFileSpec) : Prop :=
  exists err, access_result disk (path_join outputDir (path fileSpec)) = Throws err.
End ValidationVocabulary.

(** The schema rejects [content] with [err]: for a JSONL array, [err] is
    what the first rejected item is rejected with. *)
Definition schema_rejects (fmt : Format) (sch : Schema) (content : JsValue)
    (err : Thrown) : Prop :=
  match fmt, content with
  | jsonl, JArr items =>
      exists accepted item rest,
        items = accepted ++ item :: rest
        /\ Forall (fun x => exists v, parse sch x = Returns v) accepted
        /\ parse sch item = Throws err
  | _, _ => parse sch content = Throws err
  end.

(** The schema block of [fileSpec] ends without a throw on [content]:
    what the schema rejects it with, if it does, has a text that can be
    read. *)
Definition schema_block_completes `{JsRuntime} (fileSpec : OutputFileSpec)
    (content : JsValue) : Prop :=
  forall sch err,
    schema fileSpec = Some sch ->
    schema_rejects (format fileSpec) sch content err ->
    readable err.

(** [fileSpec] without its custom callback. *)
Definition without_validate (fileSpec : OutputFileSpec) : OutputFileSpec :=
  {| path := path fileSpec;
     format := format fileSpec;
     required := required fileSpec;
     description := description fileSpec;
     schema := schema fileSpec;
     validate := None |}.

Definition unit_outcome {A} (o : Outcome A) : Outcome unit :=
  match o with
  | Returns _ => Returns tt
  | Throws err => Throws err
  end.

(** The two errors [validateOutput] pushes outside its [catch (err)]
    blocks, as the source builds them. *)
Definition missing_error (f : OutputFileSpec) : ValidationError.t :=
  ValidationError.mk (path f) ("Required file missing" +:+ describe f).

Definition returned_false_error (f : OutputFileSpec) : ValidationError.t :=
  ValidationError.mk (path f) "Custom validation returned false".

(** How a [catch (err)] block of [validateOutput] ends, and what it
    pushes: one error with the text of [err] after [label], or nothing when
    the text cannot be read. *)
Definition handled `{JsRuntime} (err : Thrown) : Outcome unit :=
  unit_outcome (errorText err).

Definition pushed_for `{JsRuntime} (f : OutputFileSpec) (label : string) (err : Thrown)
    : list ValidationError.t :=
  match errorText err with
  | Returns text => [ValidationError.mk (path f) (label +:+ text)]
  | Throws _ => []
  end.

(** The same, for the outcome [r] of the [try] block. *)
Definition caught `{JsRuntime} (r : Outcome unit) : Outcome unit :=
  match r with
  | Returns _ => Returns tt
  | Throws err => handled err
  end.

Definition pushed_on `{JsRuntime} (f : OutputFileSpec) (label : string) (r : Outcome unit)
    : list ValidationError.t :=
  match r with
  | Returns _ => []
  | Throws err => pushed_for f label err
  end.

(** What the [try] block of the custom block pushes, given what awaiting
    the callback gave. *)
Definition custom_errors (f : OutputFileSpec) (awaited : Outcome JsValue)
    : list ValidationError.t :=
  match awaited with
  | Returns v => if strictly_false v then [returned_false_error f] else []
  | Throws _ => []
  end.

(** A computation that leaves the tree [t] as it is: it ends with [r]
    after the file-system calls [evs]. *)
Definition reads {A} (m : Eff World A) (t : Node) (r : Outcome A) (evs : list Event) : Prop :=
  forall lg, m {| tree := t; log := lg |} = (r, {| tree := t; log := lg ++ evs |}).

(** The entries [fs.readdir] gives for a directory. *)
Definition entries_of (children : gmap string Node) : list Fs.Dirent :=
  map (fun entry => {| Fs.name := fst entry; Fs.isDirectory := Fs.is_dir (snd entry) |})
    (map_to_list children).

Section ManagerVocabulary.
Context `{JsRuntime}.

(** What the [try] block of [list] gives for the directory [name]. *)
Definition handle_of (m : WorkspaceManager.t) (t : Node) (name : string)
    : Outcome WorkspaceHandle.t :=
  fst (WorkspaceManager.read_handle m name {| tree := t; log := [] |}).

(** The handles of the entries that are directories with metadata that
    can be read. *)
Definition listed (m : WorkspaceManager.t) (t : Node) (entries : list Fs.Dirent)
    : list WorkspaceHandle.t :=
  flat_map (fun entry =>
              if Fs.isDirectory entry
              then match handle_of m t (Fs.name entry) with
                   | Returns h => [h]
                   | Throws _ => []
                   end
              else []) entries.

(** What [list()] returns in the world [w]. *)
Definition listing (m : WorkspaceManager.t) (w : World) : list WorkspaceHandle.t :=
  match fst (WorkspaceManager.list m w) with
  | Returns handles => handles
  | Throws _ => []
  end.

(** The metadata record of the directory [name] is missing (no file at its
    path) or is not JSON. *)
Definition metadata_unreadable (m : WorkspaceManager.t) (t : Node) (name : string) : Prop :=
  match lookup_path (path_join (path_join (WorkspaceManager.root m) name)
                       WorkspaceManager.META_FILE) t with
  | Some (File text) => exists err, JSON_parse text = Throws err
  | _ => True
  end.

(** The body of the loop of [pruneStale]. *)
Definition prune_body (m : WorkspaceManager.t) (now maxAgeMs : Z)
    (pruned : Z) (handle : WorkspaceHandle.t) : Eff World Z :=
  if time_before (WorkspaceHandle.createdAt handle) (now - maxAgeMs)
  then WorkspaceManager.cleanup m handle ;; ret (pruned + 1)
  else ret pruned.

(** The metadata [create] writes. *)
Definition workspace_id (env : CreateEnv) (taskType : string) : string :=
  taskType +:+ "-" +:+ pretty (now_for_id env) +:+ "-"
  +:+ String.substring 0 8 (randomUUID env).

Definition workspace_meta (env : CreateEnv) (taskType : string)
    (options : CreateWorkspaceOptions) : WorkspaceMeta :=
  {| meta_id := workspace_id env taskType;
     meta_taskType := taskType;
     meta_createdAt := Date_toISOString (now_for_meta env);
     meta_dirs := WorkspaceManager.DEFAULT_DIRS ++ default [] (additionalDirs options) |}.
End ManagerVocabulary.

(** [pruneStale] removes [h]: its creation time is before the cutoff. *)
Definition stale (now maxAgeMs : Z) (h : WorkspaceHandle.t) : bool :=
  time_before (WorkspaceHandle.createdAt h) (now - maxAgeMs).

(** The message of the error [dir] throws. *)
Definition unknown_section_message (section : string) (names : list string) : string :=
  "Unknown section " +:+ double_quote +:+ section +:+ double_quote
  +:+ ". Available: " +:+ String.concat ", " names.

(** ** A small runtime, to run the model on examples *)

Module SampleRuntime.
Definition is_space (c : ascii) : bool :=
  let n := nat_of_ascii c in
  (n =? 32)%nat || ((9 <=? n)%nat && (n <=? 13)%nat).

Fixpoint skip_spaces (text : string) : string :=
  match text with
  | String c rest => if is_space c then skip_spaces rest else text
  | EmptyString => text
  end.

(** [text.trimEnd()] for ASCII white space *)
Fixpoint trimEnd (text : string) : string :=
  match text with
  | EmptyString => EmptyString
  | String c rest =>
      match trimEnd rest with
      | EmptyString => if is_space c then EmptyString else String c EmptyString
      | kept => String c kept
      end
  end.

Definition digit_value (c : ascii) : option Z :=
  let n := nat_of_ascii c in
  if (48 <=? n)%nat && (n <=? 57)%nat then Some (Z.of_nat n - 48) else None.

Fixpoint read_digits (acc : Z) (text : string) : Z * string :=
  match text with
  | String c rest =>
      match digit_value c with
      | Some d => read_digits (10 * acc + d) rest
      | None => (acc, text)
      end
  | EmptyString => (acc, text)
  end.

(** An integer literal. *)
Definition read_number (text : string) : option (Z * string) :=
  match text with
  | String "-" (String c _ as digits) =>
      match digit_value c with
      | Some _ => let (n, rest) := read_digits 0 digits in Some (- n, rest)
      | None => None
      end
  | String c _ =>
      match digit_value c with
      | Some _ => Some (read_digits 0 text)
      | None => None
      end
  | EmptyString => None
  end.

(** The characters up to the closing quote; escapes are not read. *)
Fixpoint read_string (text : string) : option (string * string) :=
  match text with
  | EmptyString => None
  | String c rest =>
      if Ascii.eqb c "034" then Some (EmptyString, rest)
      else if Ascii.eqb c "092" then None
      else match read_string rest with
           | Some (s, rest') => Some (String c s, rest')
           | None => None
           end
  end.

Fixpoint read_value (fuel : nat) (text : string) : option (JsValue * string) :=
  match fuel with
  | O => None
  | Datatypes.S fuel' =>
      let text := skip_spaces text in
      match after_prefix "null" text, after_prefix "true" text, after_prefix "false" text with
      | Some rest, _, _ => Some (JNull, rest)
      | _, Some rest, _ => Some (JBool true, rest)
      | _, _, Some rest => Some (JBool false, rest)
      | None, None, None =>
          match text with
          | String "[" rest =>
              match skip_spaces rest with
              | String "]" rest' => Some (JArr [], rest')
              | _ => read_items fuel' rest []
              end
          | String "{" rest =>
              match skip_spaces rest with
              | String "}" rest' => Some (JObj [], rest')
              | _ => read_members fuel' rest []
              end
          | String c rest =>
              if Ascii.eqb c "034"
              then match read_string rest with
                   | Some (s, rest') => Some (JStr s, rest')
                   | None => None
                   end
              else match read_number text with
                   | Some (n, rest') => Some (JNum n, rest')
                   | None => None
                   end
          | EmptyString => None
          end
      end
  end
with read_items (fuel : nat) (text : string) (acc : list JsValue)
    : option (JsValue * string) :=
  match fuel with
  | O => None
  | Datatypes.S fuel' =>
      match read_value fuel' text with
      | None => None
      | Some (v, rest) =>
          match skip_spaces rest with
          | String "," rest' => read_items fuel' rest' (acc ++ [v])
          | String "]" rest' => Some (JArr (acc ++ [v]), rest')
          | _ => None
          end
      end
  end
with read_members (fuel : nat) (text : string) (acc : list (string * JsValue))
    : option (JsValue * string) :=
  match fuel with
  | O => None
  | Datatypes.S fuel' =>
      match skip_spaces text with
      | String c rest =>
          if Ascii.eqb c "034"
          then match read_string rest with
               | None => None
               | Some (key, rest1) =>
                   match skip_spaces rest1 with
                   | String ":" rest2 =>
                       match read_value fuel' rest2 with
                       | None => None
                       | Some (v, rest3) =>
                           match skip_spaces rest3 with
                           | String "," rest4 => read_members fuel' rest4 (acc ++ [(key, v)])
                           | String "}" rest4 => Some (JObj (acc ++ [(key, v)]), rest4)
                           | _ => None
                           end
                       end
                   | _ => None
                   end
               end
          else None
      | EmptyString => None
      end
  end.

Definition parse_json (text : string) : Outcome JsValue :=
  match read_value (2 * String.length text + 2) text with
  | Some (v, rest) =>
      match skip_spaces rest with
      | EmptyString => Returns v
      | _ => Throws (ErrorObj "Unexpected non-whitespace character after JSON")
      end
  | None => Throws (ErrorObj "Unexpected token in JSON")
  end.

Definition quoted (s : string) : string := double_quote +:+ s +:+ double_quote.

Definition line_break : string := String newline EmptyString.

(** Two-space indented output; strings are written without escapes. *)
Fixpoint write_value (indent : string) (v : JsValue) : string :=
  match v with
  | JUndefined | JNull => "null"
  | JBool b => if b then "true" else "false"
  | JNum n => pretty n
  | JStr s => quoted s
  | JArr [] => "[]"
  | JArr items =>
      "[" +:+ line_break
      +:+ String.concat ("," +:+ line_break)
            (map (fun x => indent +:+ "  " +:+ write_value (indent +:+ "  ") x) items)
      +:+ line_break +:+ indent +:+ "]"
  | JObj [] => "{}"
  | JObj props =>
      "{" +:+ line_break
      +:+ String.concat ("," +:+ line_break)
            (map (fun kv => indent +:+ "  " +:+ quoted (fst kv) +:+ ": "
                            +:+ write_value (indent +:+ "  ") (snd kv)) props)
      +:+ line_break +:+ indent +:+ "}"
  end.

(** Dates are written as [@] followed by the time value. *)
Definition write_date (ms : Z) : string := "@" +:+ pretty ms.

Definition read_date (v : JsValue) : JsDate :=
  match v with
  | JStr (String "@" digits) =>
      match read_number digits with
      | Some (ms, EmptyString) => Some ms
      | _ => None
      end
  | JNum ms => Some ms
  | _ => None
  end.

(** [JSON.stringify(undefined, null, 2)] is [undefined], which the writer
    turns into the text [undefined].  Numbers are written digit by digit,
    as [String] does below [1e21]. *)
Definition stringify (v : JsValue) : string :=
  match v with
  | JUndefined => "undefined"
  | _ => write_value EmptyString v
  end.

#[export] Instance runtime : JsRuntime := {|
  JSON_parse := parse_json;
  JSON_stringify := stringify;
  yamlParse := parse_json;
  String_trimEnd := trimEnd;
  Date_toISOString := write_date;
  Date_new := read_date;
  Number_toString := pretty;
|}.
End SampleRuntime.


(** ** Sample data *)

Module Samples.
Import SampleRuntime.

Definition manager : WorkspaceManager.t :=
  WorkspaceManager.new ["tmp"] {| config_baseDir := None; config_prefix := None |}.

Definition empty_world : World := {| tree := Dir ∅; log := [] |}.

Definition env_at (ms : Z) : CreateEnv :=
  {| now_for_id := ms;
     randomUUID := "1a2b3c4d-5e6f-4a7b-8c9d-0e1f2a3b4c5d";
     now_for_meta := ms |}.

Definition demo_options : CreateWorkspaceOptions := {| additionalDirs := Some ["skills"] |}.

(** A workspace created at time 1000. *)
Definition created : Outcome WorkspaceHandle.t * World :=
  WorkspaceManager.create manager (env_at 1000) "demo" demo_options empty_world.

Definition demo_handle : WorkspaceHandle.t :=
  WorkspaceHandle.mk (JStr "demo-1000-1a2b3c4d")
    ["tmp"; "agent-workspaces"; "demo-1000-1a2b3c4d"]
    (JArr [JStr "input"; JStr "output"; JStr "resources"; JStr "scratch"; JStr "skills"])
    (Some 1000).

Definition demo_world : World := snd created.

(** [{"value": "wrong_type"}] *)
Definition wrong_type_json : string :=
  "{" +:+ quoted "value" +:+ ": " +:+ quoted "wrong_type" +:+ "}".

(** The world after the producer wrote [output/result.json]. *)
Definition produced_world : World :=
  snd (WorkspaceHandle.handle_writeRaw demo_handle "output" "result.json"
         wrong_type_json demo_world).

(** A schema that wants a number under [key]. *)
Definition number_schema (key : string) : Schema :=
  {| parse := fun data =>
       match get_field data key with
       | Returns (JNum _) => Returns data
       | _ => Throws (ErrorObj (key +:+ " must be a number"))
       end |}.

Definition result_spec (check : option (JsValue -> CallResult)) : OutputFileSpec :=
  {| path := "result.json";
     format := json;
     required := true;
     description := None;
     schema := Some (number_schema "value");
     validate := check |}.

Definition throwing_check : JsValue -> CallResult :=
  fun _ => Raise (ErrorObj "additional check failed").

Definition zero_check : JsValue -> CallResult := fun _ => RetValue (JNum 0).

Definition false_check : JsValue -> CallResult := fun _ => RetValue (JBool false).

(** An [Error] whose [message] cannot be read: the getter throws a second
    [Error], and the [message] getter of that one throws
    [new Error('boom')]. *)
Definition unreadable_error : Thrown := Unreadable (Unreadable (ErrorObj "boom")).

(** A callback that throws it. *)
Definition unreadable_check : JsValue -> CallResult := fun _ => Raise unreadable_error.

(** A schema that rejects with [throw { toString: 1 }], an object that has
    no text. *)
Definition opaque_schema : Schema :=
  {| parse := fun _ => Throws (ThrownValue (JObj [("toString", JNum 1)])) |}.

(** The file [result.json] with a schema and a callback, or without. *)
Definition checked_spec (sch : option Schema) (check : option (JsValue -> CallResult))
    : OutputFileSpec :=
  {| path := "result.json";
     format := json;
     required := true;
     description := None;
     schema := sch;
     validate := check |}.

(** The output directory of the demo workspace, what is on disk there,
    and what the file written there decodes to. *)
Definition out : Path := WorkspaceHandle.outputDir demo_handle.
Definition disk : DirState := disk_of (tree produced_world).
Definition content : JsValue := JObj [("value", JStr "wrong_type")].

(** A directory in which every path holds the file [text]. *)
Definition holding (text : string) : DirState :=
  {| access_result := fun _ => Returns tt;
     readFile_result := fun _ => Returns text |}.

Definition plain_spec (fmt : Format) : OutputFileSpec :=
  {| path := "file";
     format := fmt;
     required := true;
     description := None;
     schema := None;
     validate := None |}.

Definition missing_spec (desc : option string) (req : bool) : OutputFileSpec :=
  {| path := "missing.json";
     format := json;
     required := req;
     description := desc;
     schema := None;
     validate := None |}.
End Samples.


(** ** More writers and readers *)

Definition newline_string : string := String newline EmptyString.

(** [text.endsWith(suffix)] *)
Definition String_endsWith (text suffix : string) : bool :=
  let n := String.length text in
  let k := String.length suffix in
  (k <=? n)%nat && String.eqb (String.substring (n - k) k text) suffix.

(** The builtins the writers call, besides those of [JsRuntime]. *)
Class JsWriterRuntime := {
  (** [JSON.stringify(value)]: a string, or [undefined] ([None]) *)
  JSON_stringify_line : JsValue -> option string;
  (** [stringify] of the [yaml] package *)
  yamlStringify : JsValue -> string;
}.

Module MarkdownDocument.
Record t := mk { frontmatter : JsValue; body : string }.
End MarkdownDocument.

(** [Object.keys(v).length] for a value that is not [null] or [undefined] *)
Definition Object_keys_length (v : JsValue) : nat :=
  match v with
  | JObj props => length props
  | JArr items => length items
  | JStr s => String.length s
  | _ => 0%nat
  end.

(** [lines.join('\n')] for strings and [undefined], which [join] renders
    as the empty string *)
Definition joined_lines (lines : list (option string)) : string :=
  String.concat newline_string (map (default EmptyString) lines).

(** [writeJsonl] ([src/writers/json.ts]) *)
Definition writeJsonl `{JsWriterRuntime} (dir : Path) (filePath : string)
    (items : list JsValue) : Eff World unit :=
  let fullPath := path_join dir filePath in
  Fs.mkdir (path_dirname fullPath) ;;
  let content := joined_lines (map JSON_stringify_line items) +:+ newline_string in
  Fs.writeFile fullPath content.

(** The text [writeMarkdown] writes. *)
Definition markdown_text `{JsRuntime} `{JsWriterRuntime} (doc : MarkdownDocument.t) : string :=
  let content :=
    (if truthy (MarkdownDocument.frontmatter doc)
        && (0 <? Object_keys_length (MarkdownDocument.frontmatter doc))%nat
     then fence_open +:+ String_trimEnd (yamlStringify (MarkdownDocument.frontmatter doc))
          +:+ fence_close +:+ newline_string
     else EmptyString)
    +:+ MarkdownDocument.body doc in
  if String_endsWith content newline_string then content else content +:+ newline_string.

(** [writeMarkdown] ([src/writers/markdown.ts]) *)
Definition writeMarkdown `{JsRuntime} `{JsWriterRuntime} (dir : Path) (filePath : string)
    (doc : MarkdownDocument.t) : Eff World unit :=
  let fullPath := path_join dir filePath in
  Fs.mkdir (path_dirname fullPath) ;;
  Fs.writeFile fullPath (markdown_text doc).

(** [fs.readdir(p)]: the names *)
Definition readdir_names (p : Path) : Eff World (list string) :=
  entries <- Fs.readdir p ;;
  ret (map Fs.name entries).

(** [result.set(key, v)] on a [Map], kept in insertion order *)
Fixpoint Map_set (key : string) (v : JsValue) (entries : list (string * JsValue))
    : list (string * JsValue) :=
  match entries with
  | [] => [(key, v)]
  | (k, old) :: rest =>
      if String.eqb k key then (k, v) :: rest else (k, old) :: Map_set key v rest
  end.

(** [readJsonDir] ([src/readers/json.ts]) *)
Definition readJsonDir `{JsRuntime} (dir : Path) (subPath : string)
    (options : option ReadJsonOptions) : Eff World (list (string * JsValue)) :=
  let fullDir := path_join dir subPath in
  entries <- readdir_names fullDir ;;
  for_fold entries []
    (fun result entry =>
       if negb (String_endsWith entry ".json") then ret result
       else
         data <- readJson Fs.readFile fullDir entry options ;;
         ret (Map_set entry data result)).

(** More methods of the handle ([src/handle.ts]). *)
Definition handle_writeJsonl `{JsRuntime} `{JsWriterRuntime} (h : WorkspaceHandle.t)
    (section filePath : string) (items : list JsValue) : Eff World unit :=
  d <- lift (WorkspaceHandle.dir h section) ;;
  writeJsonl d filePath items.

Definition handle_writeMarkdown `{JsRuntime} `{JsWriterRuntime} (h : WorkspaceHandle.t)
    (section filePath : string) (doc : MarkdownDocument.t) : Eff World unit :=
  d <- lift (WorkspaceHandle.dir h section) ;;
  writeMarkdown d filePath doc.

Definition handle_readJsonDir `{JsRuntime} (h : WorkspaceHandle.t)
    (section subPath : string) (options : option ReadJsonOptions)
    : Eff World (list (string * JsValue)) :=
  d <- lift (WorkspaceHandle.dir h section) ;;
  readJsonDir d subPath options.

(** ** More vocabulary *)

(** There is a directory at [p]. *)
Definition is_dir_at (p : Path) (t : Node) : Prop :=
  exists children, lookup_path p t = Some (Dir children).

(** [name] is one path component: it has no separator and is not one of
    the names [path.join] resolves.  The embedding joins names as they
    are; a property that needs a name to be one component says so. *)
Definition single_name (name : string) : bool :=
  negb (String_includes name "/")
  && negb (String.eqb name EmptyString)
  && negb (String.eqb name ".")
  && negb (String.eqb name "..").

(** [t'] is [t] with, at most, more directories: the directories of [t]
    are directories of [t'], and the two have the same files. *)
Definition only_new_directories (t t' : Node) : Prop :=
  (forall p, is_dir_at p t -> is_dir_at p t')
  /\ (forall p content,
        lookup_path p t' = Some (File content) <-> lookup_path p t = Some (File content)).

(** The path of the metadata file of the directory [name] of the root. *)
Definition metadata_path (m : WorkspaceManager.t) (name : string) : Path :=
  path_join (path_join (WorkspaceManager.root m) name) WorkspaceManager.META_FILE.

(** The schema accepts [content]: each item of a JSONL array, or the
    content itself. *)
Definition schema_accepts (fmt : Format) (sch : Schema) (content : JsValue) : Prop :=
  match fmt, content with
  | jsonl, JArr items => Forall (fun x => exists v, parse sch x = Returns v) items
  | _, _ => exists v, parse sch content = Returns v
  end.

(** The callback settles on a value other than [false]. *)
Definition callback_accepts (predicate : JsValue -> CallResult) (content : JsValue) : Prop :=
  exists v, await (predicate content) = Returns v /\ v <> JBool false.

Section MoreValidationVocabulary.
Context `{JsRuntime}.
Variable disk : DirState.

(** The schema rejects [content]: an item of a JSONL array, or the content
    itself. *)
Definition schema_fails (fmt : Format) (sch : Schema) (content : JsValue) : bool :=
  let rejected x := match parse sch x with Returns _ => false | Throws _ => true end in
  match fmt, content with
  | jsonl, JArr items => existsb rejected items
  | _, _ => rejected content
  end.

(** The callback settles on [false], throws or rejects. *)
Definition callback_fails (predicate : JsValue -> CallResult) (content : JsValue) : bool :=
  match await (predicate content) with
  | Returns v => strictly_false v
  | Throws _ => true
  end.

(** The number of things wrong with the file of [fileSpec], told from the
    directory, the schema and the callback alone: a required file that is
    missing, a file that does not decode, a schema that rejects what was
    decoded, a callback that fails on it. *)
Definition failure_count (outputDir : Path) (fileSpec : OutputFileSpec) : nat :=
  match access_result disk (path_join outputDir (path fileSpec)) with
  | Throws _ => if required fileSpec then 1 else 0
  | Returns _ =>
      match decoded disk outputDir fileSpec with
      | Throws _ => 1
      | Returns content =>
          (match schema fileSpec with
           | Some sch => if schema_fails (format fileSpec) sch content then 1 else 0
           | None => 0
           end
           + match validate fileSpec with
             | Some predicate => if callback_fails predicate content then 1 else 0
             | None => 0
             end)%nat
      end
  end.

(** Whatever is thrown while the file of [fileSpec] is validated has a
    text that can be read: what decoding throws, what the schema rejects
    the content with, what the callback throws or rejects with. *)
Definition errors_readable (outputDir : Path) (fileSpec : OutputFileSpec) : Prop :=
  present disk outputDir fileSpec ->
  (forall err, decoded disk outputDir fileSpec = Throws err -> readable err)
  /\ (forall content,
        decoded disk outputDir fileSpec = Returns content ->
        schema_block_completes fileSpec content
        /\ (forall predicate err,
              validate fileSpec = Some predicate ->
              await (predicate content) = Throws err ->
              readable err)).

(** Nothing is wrong with the file of [fileSpec]: it is missing and not
    required, or it is there, decodes, and passes the schema and the
    callback it has. *)
Definition acceptable (outputDir : Path) (fileSpec : OutputFileSpec) : Prop :=
  (absent disk outputDir fileSpec /\ required fileSpec = false)
  \/ (present disk outputDir fileSpec
      /\ exists content,
           decoded disk outputDir fileSpec = Returns content
           /\ (forall sch, schema fileSpec = Some sch ->
                 schema_accepts (format fileSpec) sch content)
           /\ (forall predicate, validate fileSpec = Some predicate ->
                 callback_accepts predicate content)).
End MoreValidationVocabulary.

(** The call of the callback on [content], when [fileSpec] has one. *)
Definition validate_call (fileSpec : OutputFileSpec) (content : JsValue) : list Event :=
  match validate fileSpec with
  | Some _ => [CallValidate (path fileSpec) content]
  | None => []
  end.

(** The lines [readJsonl] decodes. *)
Definition nonempty_lines (text : string) : list string :=
  filter (fun line => (0 < String.length line)%nat) (split_newline text).

(** [readJsonl] gets [v] from [line]. *)
Definition line_value `{JsRuntime} (options : option ReadJsonOptions) (line : string)
    (v : JsValue) : Prop :=
  exists data,
    JSON_parse line = Returns data
    /\ match options ≫= json_schema with
       | Some sch => parse sch data = Returns v
       | None => v = data
       end.

(** [text], with a newline added when it does not end in one. *)
Definition with_final_newline (text : string) : string :=
  if String_endsWith text newline_string then text else text +:+ newline_string.

(** What [readJson] gives for the file [name] of [dir] in the tree [t]. *)
Definition json_at `{JsRuntime} (t : Node) (dir : Path) (name : string)
    (options : option ReadJsonOptions) : Outcome JsValue :=
  fst (readJson Fs.readFile dir name options {| tree := t; log := [] |}).

(** What [fs.readFile] gives for [p] in the tree [t]. *)
Definition file_at (t : Node) (p : Path) : Outcome string :=
  match lookup_path p t with
  | Some (File content) => Returns content
  | Some (Dir _) => Throws Fs.EISDIR
  | None => Throws Fs.ENOENT
  end.

(** The world after one more file-system call. *)
Definition after_call (w : World) (ev : Event) : World :=
  {| tree := tree w; log := log w ++ [ev] |}.

(** [frontmatterSchema.parse(parsed)], when there is a schema. *)
Definition checked_frontmatter (options : option ReadMarkdownOptions) (parsed : JsValue)
    : Outcome JsValue :=
  match options ≫= frontmatterSchema with
  | Some sch => parse sch parsed
  | None => Returns parsed
  end.

(** [schema.parse(data)], when there is a schema. *)
Definition checked_json (options : option ReadJsonOptions) (data : JsValue)
    : Outcome JsValue :=
  match options ≫= json_schema with
  | Some sch => parse sch data
  | None => Returns data
  end.

(** The object [readMarkdown] returns. *)
Definition markdown_object (frontmatter : JsValue) (body : string) : JsValue :=
  JObj [("frontmatter", frontmatter); ("body", JStr body)].

(** ** A small runtime for the writers, and more sample data *)

Module SampleWriter.
Import SampleRuntime.

(** One-line output; strings are written without escapes. *)
Fixpoint write_line (v : JsValue) : string :=
  match v with
  | JUndefined | JNull => "null"
  | JBool b => if b then "true" else "false"
  | JNum n => pretty n
  | JStr s => quoted s
  | JArr items => "[" +:+ String.concat "," (map write_line items) +:+ "]"
  | JObj props =>
      "{" +:+ String.concat ","
                (map (fun kv => quoted (fst kv) +:+ ":" +:+ write_line (snd kv)) props)
      +:+ "}"
  end.

(** [JSON.stringify(undefined)] is [undefined]. *)
Definition stringify_line (v : JsValue) : option string :=
  match v with
  | JUndefined => None
  | _ => Some (write_line v)
  end.

(** The YAML written is the one-line JSON text and a newline. *)
#[export] Instance writer : JsWriterRuntime := {|
  JSON_stringify_line := stringify_line;
  yamlStringify := fun v => write_line v +:+ newline_string;
|}.
End SampleWriter.

Module MoreSamples.
Import SampleRuntime.
Import SampleWriter.
Import Samples.

(** Options that name the metadata file as a section: the directory made
    for the section is in the way of the metadata file. *)
Definition clashing_options : CreateWorkspaceOptions :=
  {| additionalDirs := Some [WorkspaceManager.META_FILE] |}.

Definition failed_create : Outcome WorkspaceHandle.t * World :=
  WorkspaceManager.create manager (env_at 1000) "demo" clashing_options empty_world.

Definition cleaned_world : World :=
  snd (WorkspaceManager.cleanup manager demo_handle demo_world).

(** A schema that wants numbers. *)
Definition only_numbers : Schema :=
  {| parse := fun data =>
       match data with
       | JNum _ => Returns data
       | _ => Throws (ErrorObj "not a number")
       end |}.

Definition numbers_spec : OutputFileSpec :=
  {| path := "file";
     format := jsonl;
     required := true;
     description := None;
     schema := Some only_numbers;
     validate := None |}.

(** Four lines, the second one empty. *)
Definition items_text : string := "1

true
3
".

Definition notes_path : Path := path_join out "notes.txt".

Definition items_world : World :=
  snd (WorkspaceHandle.handle_writeRaw demo_handle "output" "items.jsonl" items_text
         demo_world).

Definition raw_world : World :=
  snd (WorkspaceHandle.handle_writeRaw demo_handle "output" "notes.txt" "some notes"
         demo_world).

Definition answer : JsValue := JObj [("value", JNum 42)].

Definition json_world : World :=
  snd (WorkspaceHandle.handle_writeJson demo_handle "output" "result.json" answer demo_world).

Definition jsonl_world : World :=
  snd (handle_writeJsonl demo_handle "output" "items.jsonl" [JNum 1; JBool true] demo_world).

Definition report : MarkdownDocument.t :=
  MarkdownDocument.mk (JObj [("pages", JNum 3)]) "# Summary".

Definition report_world : World :=
  snd (handle_writeMarkdown demo_handle "output" "report.md" report demo_world).

Definition plain_notes : MarkdownDocument.t := MarkdownDocument.mk JNull "# Notes".

Definition plain_world : World :=
  snd (handle_writeMarkdown demo_handle "output" "notes.md" plain_notes demo_world).

(** A directory of the output section with two JSON files and a text. *)
Definition data_path : Path := path_join out "data".

Definition data_world : World :=
  snd ((writeRaw data_path "a.json" "1" ;;
        writeRaw data_path "notes.txt" "no json" ;;
        writeRaw data_path "b.json" "true") demo_world).

Definition answer_spec : OutputFileSpec :=
  {| path := "result.json";
     format := json;
     required := true;
     description := None;
     schema := None;
     validate := None |}.
End MoreSamples.

(* ================================================================== *)
(** * Part III: properties *)
(* ================================================================== *)

(** ** Tactics *)

(** Unfold the file-system calls and the plumbing of [Eff]. *)
Ltac run_fs :=
  unfold Fs.readFile, Fs.readdir, Fs.mkdir, Fs.writeFile, Fs.rm, Fs.logged, Fs.get_tree,
    Fs.set_tree, bind, lift, ret, throw.

Tactic Notation "run_fs" "in" hyp(H) :=
  unfold Fs.readFile, Fs.readdir, Fs.mkdir, Fs.writeFile, Fs.rm, Fs.logged, Fs.get_tree,
    Fs.set_tree, bind, lift, ret, throw in H.

(** Case analysis on every outcome the goal branches on. *)
Ltac case_outcomes :=
  repeat match goal with
         | |- context [match ?x with Returns _ => _ | Throws _ => _ end] => destruct x; simpl
         end.

(** ** Computations on the validation state *)

Lemma extend_nil st : extend st [] [] = st.
Proof. destruct st; unfold extend; simpl; by rewrite !app_nil_r. Qed.

Lemma extend_extend st es ts es' ts' :
  extend (extend st es ts) es' ts' = extend st (es ++ es') (ts ++ ts').
Proof. unfold extend; simpl; by rewrite !app_assoc. Qed.

Lemma appends_ret {A} (a : A) : appends (ret a) (Returns a) [] [].
Proof. intros st. by rewrite extend_nil. Qed.

Lemma appends_lift {A} (o : Outcome A) : appends (lift o) o [] [].
Proof. intros st. by rewrite extend_nil. Qed.

Lemma appends_record ev : appends (record_event ev) (Returns tt) [] [ev].
Proof. intros st. unfold record_event, extend. by rewrite app_nil_r. Qed.

Lemma appends_push e : appends (errors_push e) (Returns tt) [e] [].
Proof. intros st. unfold errors_push, extend. by rewrite app_nil_r. Qed.

Lemma appends_bind {A B} (m : Eff VState A) (k : A -> Eff VState B) a r es ts es' ts' :
  appends m (Returns a) es ts ->
  appends (k a) r es' ts' ->
  appends (bind m k) r (es ++ es') (ts ++ ts').
Proof.
  intros Hm Hk st. unfold bind. rewrite Hm, Hk. by rewrite extend_extend.
Qed.

Lemma appends_bind_throws {A B} (m : Eff VState A) (k : A -> Eff VState B) err es ts :
  appends m (Throws err) es ts ->
  appends (bind m k) (Throws err) es ts.
Proof. intros Hm st. unfold bind. by rewrite Hm. Qed.

Lemma appends_try_returns {A} (m : Eff VState A) handler a es ts :
  appends m (Returns a) es ts ->
  appends (try_catch m handler) (Returns a) es ts.
Proof. intros Hm st. unfold try_catch. by rewrite Hm. Qed.

Lemma appends_try_throws {A} (m : Eff VState A) handler err r es ts es' ts' :
  appends m (Throws err) es ts ->
  appends (handler err) r es' ts' ->
  appends (try_catch m handler) r (es ++ es') (ts ++ ts').
Proof.
  intros Hm Hh st. unfold try_catch. rewrite Hm, Hh. by rewrite extend_extend.
Qed.

(** What a computation appends is determined by one run. *)
Lemma appends_fresh {A} (m : Eff VState A) r es ts :
  appends m r es ts ->
  m fresh_state = (r, {| st_errors := es; st_trace := ts |}).
Proof. intros Hm. by rewrite Hm. Qed.

Lemma appends_eq {A} (c : Eff VState A) r es ts es' ts' :
  appends c r es ts -> es = es' -> ts = ts' -> appends c r es' ts'.
Proof. by intros ? <- <-. Qed.

Lemma appends_unique {A} (m : Eff VState A) r es ts r' es' ts' :
  appends m r es ts -> appends m r' es' ts' -> r = r' /\ es = es' /\ ts = ts'.
Proof.
  intros H1 H2. apply appends_fresh in H1, H2. rewrite H1 in H2. by simplify_eq.
Qed.

(** ** The validation engine *)

Section ValidationFacts.
Context `{JsRuntime}.
Variable disk : DirState.

Lemma fs_access_appends p :
  appends (fs_access disk p) (access_result disk p) [] [FsAccess p].
Proof.
  intros st. unfold fs_access, bind, record_event, lift, extend. simpl. by rewrite app_nil_r.
Qed.

Lemma fs_readFile_appends p :
  appends (fs_readFile disk p) (readFile_result disk p) [] [FsReadFile p].
Proof.
  intros st. unfold fs_readFile, bind, record_event, lift, extend. simpl. by rewrite app_nil_r.
Qed.

Lemma readFileByFormat_appends outputDir f :
  appends (readFileByFormat disk outputDir f) (decoded disk outputDir f) []
    [FsReadFile (path_join outputDir (path f))].
Proof.
  intros st. unfold decoded, readFileByFormat.
  destruct (format f); unfold readJson, readJsonl, readMarkdown, readRaw, bind;
    rewrite !fs_readFile_appends; simpl;
    destruct (readFile_result disk _); simpl; try reflexivity.
  all: unfold lift, ret; simpl.
  all: repeat (match goal with |- context [match ?x with _ => _ end] => destruct x eqn:?; simpl end); try reflexivity.
Qed.

Lemma call_schema_parse_appends f sch data :
  appends (call_schema_parse f sch data) (unit_outcome (parse sch data)) []
    [CallSchemaParse (path f) data].
Proof.
  intros st. unfold call_schema_parse, bind, record_event, lift, ret, extend; simpl.
  rewrite app_nil_r. by destruct (parse sch data).
Qed.

(** A [catch (err)] block pushes one error, or throws what reading the
    text of [err] throws. *)
Lemma push_failure_appends f label err :
  appends (push_failure f label err) (handled err) (pushed_for f label err) [].
Proof.
  intros [es ts]. unfold push_failure, handled, pushed_for, bind, lift, errors_push, extend.
  destruct (errorText err); simpl; by rewrite ?app_nil_r.
Qed.

Lemma appends_guarded (m : Eff VState unit) f label r es ts :
  appends m r es ts ->
  appends (try_catch m (push_failure f label)) (caught r) (es ++ pushed_on f label r) ts.
Proof.
  intros Hm. destruct r as [[]|err]; simpl.
  - rewrite app_nil_r. by apply appends_try_returns.
  - eapply appends_eq;
      [eapply appends_try_throws; [exact Hm|apply push_failure_appends]
      |done|by rewrite app_nil_r].
Qed.

Lemma pushed_for_cases f label err :
  (exists text, errorText err = Returns text
                /\ handled err = Returns tt
                /\ pushed_for f label err = [ValidationError.mk (path f) (label +:+ text)])
  \/ (exists raised, errorText err = Throws raised
                     /\ handled err = Throws raised
                     /\ pushed_for f label err = []).
Proof.
  unfold handled, pushed_for. destruct (errorText err) as [text|raised]; simpl; eauto 6.
Qed.

Lemma pushed_for_bounds f label err :
  (length (pushed_for f label err) <= 1)%nat
  /\ Forall (fun e => ValidationError.path e = path f) (pushed_for f label err)
  /\ (forall raised, handled err = Throws raised -> pushed_for f label err = []).
Proof.
  destruct (pushed_for_cases f label err)
    as [(text & _ & Hh & ->)|(raised & _ & Hh & ->)]; simpl.
  - split; [lia|]. split; [by repeat constructor|]. intros raised. by rewrite Hh.
  - split; [lia|]. by split; [constructor|].
Qed.

(** *** The schema block *)

Lemma schema_loop_accepts f sch items :
  Forall (fun x => exists v, parse sch x = Returns v) items ->
  appends (forEach items (call_schema_parse f sch)) (Returns tt) []
    (CallSchemaParse (path f) <$> items).
Proof.
  induction 1 as [|item items [v Hv] _ IH]; simpl; [apply appends_ret|].
  pose proof (call_schema_parse_appends f sch item) as Hcall. rewrite Hv in Hcall.
  eapply appends_eq; [eapply appends_bind; [exact Hcall|exact IH]|done|done].
Qed.

Lemma schema_loop_stops f sch accepted item rest err :
  Forall (fun x => exists v, parse sch x = Returns v) accepted ->
  parse sch item = Throws err ->
  appends (forEach (accepted ++ item :: rest) (call_schema_parse f sch)) (Throws err) []
    (CallSchemaParse (path f) <$> accepted ++ [item]).
Proof.
  intros Hacc Hitem. induction Hacc as [|x accepted [v Hv] _ IH]; simpl.
  - apply appends_bind_throws.
    pose proof (call_schema_parse_appends f sch item) as Hcall. by rewrite Hitem in Hcall.
  - pose proof (call_schema_parse_appends f sch x) as Hcall. rewrite Hv in Hcall.
    eapply appends_eq; [eapply appends_bind; [exact Hcall|exact IH]|done|done].
Qed.

(** A schema accepts every item, or rejects a first one. *)
Lemma items_accepted_or_rejected sch (items : list JsValue) :
  Forall (fun x => exists v, parse sch x = Returns v) items
  \/ exists accepted item rest err,
       items = accepted ++ item :: rest
       /\ Forall (fun x => exists v, parse sch x = Returns v) accepted
       /\ parse sch item = Throws err.
Proof.
  induction items as [|x items IH]; [by left|].
  destruct (parse sch x) as [v|err] eqn:Hx.
  - destruct IH as [Hall|(accepted & item & rest & err & -> & Hacc & Hitem)].
    + left. constructor; eauto.
    + right. exists (x :: accepted), item, rest, err. repeat split; [|done].
      constructor; eauto.
  - right. exists [], x, items, err. done.
Qed.

Lemma schema_accepts_or_rejects fmt sch content :
  schema_accepts fmt sch content \/ exists err, schema_rejects fmt sch content err.
Proof.
  unfold schema_accepts, schema_rejects.
  assert ((exists v, parse sch content = Returns v)
          \/ exists err, parse sch content = Throws err) as Hone
    by (destruct (parse sch content); eauto).
  destruct fmt; try done. destruct content; try done.
  destruct (items_accepted_or_rejected sch items) as [?|(?&?&?&?&?)]; [by left|right].
  eauto 10.
Qed.

(** The [try] block of the schema block: the values the schema is asked
    about are those up to the first it rejects. *)
Lemma schema_body_accepts f sch content :
  schema_accepts (format f) sch content ->
  exists parsed,
    appends (match format f, content with
             | jsonl, JArr items => forEach items (call_schema_parse f sch)
             | _, _ => call_schema_parse f sch content
             end) (Returns tt) [] (CallSchemaParse (path f) <$> parsed).
Proof.
  unfold schema_accepts. intros Hacc.
  assert ((exists v, parse sch content = Returns v) ->
          exists parsed,
            appends (call_schema_parse f sch content) (Returns tt) []
              (CallSchemaParse (path f) <$> parsed)) as Hone.
  { intros [v Hv]. exists [content].
    pose proof (call_schema_parse_appends f sch content) as Hcall. by rewrite Hv in Hcall. }
  destruct (format f); try (by apply Hone). destruct content; try (by apply Hone).
  exists items. by apply schema_loop_accepts.
Qed.

Lemma schema_body_rejects f sch content err :
  schema_rejects (format f) sch content err ->
  exists parsed,
    appends (match format f, content with
             | jsonl, JArr items => forEach items (call_schema_parse f sch)
             | _, _ => call_schema_parse f sch content
             end) (Throws err) [] (CallSchemaParse (path f) <$> parsed).
Proof.
  unfold schema_rejects. intros Hrej.
  assert (parse sch content = Throws err ->
          exists parsed,
            appends (call_schema_parse f sch content) (Throws err) []
              (CallSchemaParse (path f) <$> parsed)) as Hone.
  { intros Herr. exists [content].
    pose proof (call_schema_parse_appends f sch content) as Hcall. by rewrite Herr in Hcall. }
  destruct (format f); try (by apply Hone). destruct content; try (by apply Hone).
  destruct Hrej as (accepted & item & rest & -> & Hacc & Hitem).
  exists (accepted ++ [item]). by apply schema_loop_stops.
Qed.

Lemma schema_rejects_unique f sch content err err' :
  schema_rejects (format f) sch content err ->
  schema_rejects (format f) sch content err' ->
  err = err'.
Proof.
  intros [p1 H1]%(schema_body_rejects f) [p2 H2]%(schema_body_rejects f).
  destruct (appends_unique _ _ _ _ _ _ _ H1 H2) as (Heq & _). congruence.
Qed.

Lemma schema_accepts_not_rejects f sch content err :
  schema_accepts (format f) sch content ->
  schema_rejects (format f) sch content err ->
  False.
Proof.
  intros [p1 H1]%(schema_body_accepts f) [p2 H2]%(schema_body_rejects f).
  destruct (appends_unique _ _ _ _ _ _ _ H1 H2) as (Heq & _). congruence.
Qed.

Lemma check_schema_none f content :
  schema f = None -> appends (check_schema f content) (Returns tt) [] [].
Proof. intros Hs. unfold check_schema. rewrite Hs. apply appends_ret. Qed.

Lemma check_schema_accepts f sch content :
  schema f = Some sch ->
  schema_accepts (format f) sch content ->
  exists parsed,
    appends (check_schema f content) (Returns tt) [] (CallSchemaParse (path f) <$> parsed).
Proof.
  intros Hs [parsed Hbody]%(schema_body_accepts f). exists parsed.
  unfold check_schema. rewrite Hs. by apply appends_try_returns.
Qed.

(** A rejection is handed to the [catch] block. *)
Lemma check_schema_rejects f sch content err :
  schema f = Some sch ->
  schema_rejects (format f) sch content err ->
  exists parsed,
    appends (check_schema f content) (handled err)
      (pushed_for f "Schema validation failed: " err) (CallSchemaParse (path f) <$> parsed).
Proof.
  intros Hs [parsed Hbody]%(schema_body_rejects f). exists parsed.
  unfold check_schema. rewrite Hs.
  eapply appends_eq;
    [eapply appends_try_throws; [exact Hbody|apply push_failure_appends]
    |done|by rewrite app_nil_r].
Qed.

Lemma check_schema_stops f sch accepted item rest err :
  schema f = Some sch ->
  format f = jsonl ->
  Forall (fun x => exists v, parse sch x = Returns v) accepted ->
  parse sch item = Throws err ->
  appends (check_schema f (JArr (accepted ++ item :: rest))) (handled err)
    (pushed_for f "Schema validation failed: " err)
    (CallSchemaParse (path f) <$> accepted ++ [item]).
Proof.
  intros Hsch Hfmt Hacc Hitem. unfold check_schema. rewrite Hsch, Hfmt.
  eapply appends_eq;
    [eapply appends_try_throws; [by apply schema_loop_stops|apply push_failure_appends]
    |done|by rewrite app_nil_r].
Qed.

(** The schema block: at most one error, and it throws exactly when the
    text of a rejection cannot be read. *)
Lemma check_schema_appends f content :
  exists r es parsed,
    appends (check_schema f content) r es (CallSchemaParse (path f) <$> parsed)
    /\ (schema f = None -> r = Returns tt /\ es = [] /\ parsed = [])
    /\ (length es <= 1)%nat
    /\ Forall (fun e => ValidationError.path e = path f) es
    /\ (forall raised, r = Throws raised -> es = [])
    /\ (schema_block_completes f content <-> r = Returns tt).
Proof.
  destruct (schema f) as [sch|] eqn:Hsch.
  2:{ exists (Returns tt), [], []. split; [by apply check_schema_none|].
      split; [done|]. split; [simpl; lia|]. split; [constructor|]. split; [done|].
      split; [done|]. intros _ sch err Hs. congruence. }
  destruct (schema_accepts_or_rejects (format f) sch content) as [Hacc|[err Hrej]].
  - destruct (check_schema_accepts f sch content Hsch Hacc) as [parsed Hp].
    exists (Returns tt), [], parsed. split; [done|]. split; [done|].
    split; [simpl; lia|]. split; [constructor|]. split; [done|].
    split; [done|]. intros _ sch' err Hs Hrej.
    assert (sch' = sch) as -> by congruence.
    by destruct (schema_accepts_not_rejects f sch content err).
  - destruct (check_schema_rejects f sch content err Hsch Hrej) as [parsed Hp].
    exists (handled err), (pushed_for f "Schema validation failed: " err), parsed.
    destruct (pushed_for_bounds f "Schema validation failed: " err) as (Hlen & Hpath & Hnil).
    split; [done|]. split; [done|]. split; [done|]. split; [done|]. split; [done|].
    split.
    + intros Hcompletes. destruct (Hcompletes sch err Hsch Hrej) as [text Htext].
      unfold handled. by rewrite Htext.
    + intros Hret sch' err' Hs Hrej'.
      assert (sch' = sch) as -> by congruence.
      rewrite <- (schema_rejects_unique f sch content err err' Hrej Hrej').
      unfold handled in Hret. unfold readable.
      destruct (errorText err) as [text|raised]; [eauto|done].
Qed.

(** *** The custom block *)

Lemma check_custom_none f content :
  validate f = None -> appends (check_custom f content) (Returns tt) [] [].
Proof. intros Hv. unfold check_custom. rewrite Hv. apply appends_ret. Qed.

Lemma custom_body_appends f predicate content :
  appends (result <- call_validate f predicate content ;;
           if strictly_false result
           then errors_push
                  (ValidationError.mk (path f) "Custom validation returned false")
           else ret tt)
    (unit_outcome (await (predicate content)))
    (custom_errors f (await (predicate content)))
    [CallValidate (path f) content].
Proof.
  intros st. unfold call_validate, bind, record_event, lift, ret, errors_push, extend,
    custom_errors; simpl.
  destruct (await (predicate content)) as [v|err]; simpl.
  - destruct (strictly_false v); simpl; by rewrite ?app_nil_r.
  - by rewrite app_nil_r.
Qed.

Lemma check_custom_some f predicate content :
  validate f = Some predicate ->
  appends (check_custom f content)
    (caught (unit_outcome (await (predicate content))))
    (custom_errors f (await (predicate content))
       ++ pushed_on f "Custom validation threw: " (unit_outcome (await (predicate content))))
    [CallValidate (path f) content].
Proof.
  intros Hv. unfold check_custom. rewrite Hv. apply appends_guarded, custom_body_appends.
Qed.

Lemma check_custom_returned f predicate content v :
  validate f = Some predicate ->
  await (predicate content) = Returns v ->
  appends (check_custom f content) (Returns tt)
    (if strictly_false v then [returned_false_error f] else [])
    [CallValidate (path f) content].
Proof.
  intros Hv Hret. pose proof (check_custom_some f predicate content Hv) as Hc.
  rewrite Hret in Hc. simpl in Hc. by rewrite app_nil_r in Hc.
Qed.

Lemma check_custom_threw f predicate content err :
  validate f = Some predicate ->
  await (predicate content) = Throws err ->
  appends (check_custom f content) (handled err)
    (pushed_for f "Custom validation threw: " err)
    [CallValidate (path f) content].
Proof.
  intros Hv Hthrow. pose proof (check_custom_some f predicate content Hv) as Hc.
  by rewrite Hthrow in Hc.
Qed.

(** The custom block: the callback is called once when there is one, and
    at most one error is pushed. *)
Lemma check_custom_appends f content :
  exists r es,
    appends (check_custom f content) r es (validate_call f content)
    /\ (validate f = None -> r = Returns tt /\ es = [])
    /\ (length es <= 1)%nat
    /\ Forall (fun e => ValidationError.path e = path f) es
    /\ (forall raised, r = Throws raised -> es = []).
Proof.
  unfold validate_call. destruct (validate f) as [predicate|] eqn:Hv.
  2:{ exists (Returns tt), []. split; [by apply check_custom_none|].
      split; [done|]. split; [simpl; lia|]. by split; [constructor|]. }
  destruct (await (predicate content)) as [v|err] eqn:Hawait.
  - eexists _, _. split; [by eapply check_custom_returned|]. split; [done|].
    destruct (strictly_false v); simpl; (split; [lia|]); (split; [by repeat constructor|done]).
  - eexists _, _. split; [by eapply check_custom_threw|]. split; [done|].
    apply pushed_for_bounds.
Qed.

(** *** One turn of the loop *)

Lemma check_exists_present p f :
  access_result disk p = Returns tt ->
  appends (check_exists disk p f) (Returns true) [] [FsAccess p].
Proof.
  intros Ha. unfold check_exists. apply appends_try_returns.
  rewrite <- (app_nil_r [FsAccess p]).
  eapply (appends_bind _ _ tt _ [] _ []); [|apply appends_ret].
  rewrite <- Ha. apply fs_access_appends.
Qed.

Lemma check_exists_absent p f err :
  access_result disk p = Throws err ->
  appends (check_exists disk p f) (Returns false)
    (if required f then [missing_error f] else []) [FsAccess p].
Proof.
  intros Ha. unfold check_exists.
  rewrite <- (app_nil_r [FsAccess p]), <- (app_nil_l (if required f then _ else _)).
  eapply appends_try_throws.
  - eapply appends_bind_throws. rewrite <- Ha. apply fs_access_appends.
  - rewrite <- (app_nil_r (if required f then _ else _)).
    eapply (appends_bind _ _ tt _ _ [] _ []); [|apply appends_ret].
    destruct (required f); [apply appends_push | apply appends_ret].
Qed.

Lemma check_file_absent outputDir f err :
  access_result disk (path_join outputDir (path f)) = Throws err ->
  appends (check_file disk outputDir f) (Returns tt)
    (if required f then [missing_error f] else [])
    [FsAccess (path_join outputDir (path f))].
Proof.
  intros Ha. unfold check_file.
  rewrite <- (app_nil_r [FsAccess _]), <- (app_nil_r (if required f then _ else _)).
  eapply appends_bind; [by eapply check_exists_absent | apply appends_ret].
Qed.

(** A file that is there: what the [try] block of the turn ends with goes
    through the outer [catch] block. *)
Lemma check_file_present outputDir f r es ts :
  present disk outputDir f ->
  appends (content <- readFileByFormat disk outputDir f ;;
           check_schema f content ;;
           check_custom f content) r es ts ->
  appends (check_file disk outputDir f) (caught r)
    (es ++ pushed_on f "Failed to read file: " r)
    (FsAccess (path_join outputDir (path f)) :: ts).
Proof.
  intros Ha Hbody. unfold check_file.
  eapply (appends_bind _ _ true _ [] [_] _ _); [by apply check_exists_present|].
  simpl. by apply appends_guarded.
Qed.

Lemma check_file_unreadable outputDir f err :
  present disk outputDir f ->
  decoded disk outputDir f = Throws err ->
  appends (check_file disk outputDir f) (handled err)
    (pushed_for f "Failed to read file: " err)
    [FsAccess (path_join outputDir (path f)); FsReadFile (path_join outputDir (path f))].
Proof.
  intros Ha Hd.
  eapply appends_eq; [eapply (check_file_present _ _ (Throws err) [] [_]); [done|]|done|done].
  eapply appends_bind_throws. rewrite <- Hd. apply readFileByFormat_appends.
Qed.

Lemma check_file_schema_throws outputDir f content raised es1 ts1 :
  present disk outputDir f ->
  decoded disk outputDir f = Returns content ->
  appends (check_schema f content) (Throws raised) es1 ts1 ->
  appends (check_file disk outputDir f) (handled raised)
    (es1 ++ pushed_for f "Failed to read file: " raised)
    (FsAccess (path_join outputDir (path f))
       :: FsReadFile (path_join outputDir (path f)) :: ts1).
Proof.
  intros Ha Hd H1.
  eapply appends_eq;
    [eapply (check_file_present _ _ (Throws raised) es1 (_ :: ts1)); [done|]|done|done].
  eapply (appends_bind _ _ content _ [] [_] _ _).
  { rewrite <- Hd. apply readFileByFormat_appends. }
  by apply appends_bind_throws.
Qed.

Lemma check_file_decoded outputDir f content es1 ts1 r2 es2 ts2 :
  present disk outputDir f ->
  decoded disk outputDir f = Returns content ->
  appends (check_schema f content) (Returns tt) es1 ts1 ->
  appends (check_custom f content) r2 es2 ts2 ->
  appends (check_file disk outputDir f) (caught r2)
    ((es1 ++ es2) ++ pushed_on f "Failed to read file: " r2)
    (FsAccess (path_join outputDir (path f))
       :: FsReadFile (path_join outputDir (path f)) :: ts1 ++ ts2).
Proof.
  intros Ha Hd H1 H2.
  eapply appends_eq;
    [eapply (check_file_present _ _ r2 (es1 ++ es2) (_ :: ts1 ++ ts2)); [done|]|done|done].
  eapply (appends_bind _ _ content _ [] [_] _ _).
  { rewrite <- Hd. apply readFileByFormat_appends. }
  destruct r2 as [[]|raised].
  - eapply (appends_bind _ _ tt); eauto.
  - eapply (appends_bind _ _ tt); eauto.
Qed.

Lemma present_or_absent outputDir f : present disk outputDir f \/ absent disk outputDir f.
Proof.
  unfold present, absent. destruct (access_result disk _) as [[]|err]; eauto.
Qed.

Lemma present_not_absent outputDir f : present disk outputDir f -> absent disk outputDir f -> False.
Proof. unfold present, absent. intros -> [err ?]. done. Qed.

(** One turn of the loop pushes at most two errors, all of them for the
    path of its file spec, whatever the state it starts from. *)
Lemma check_file_appends outputDir f :
  exists r es ts,
    appends (check_file disk outputDir f) r es ts
    /\ (length es <= 2)%nat
    /\ (length es = 2%nat -> is_Some (schema f) /\ is_Some (validate f))
    /\ Forall (fun e => ValidationError.path e = path f) es.
Proof.
  destruct (present_or_absent outputDir f) as [Hp|[err Ha]].
  2:{ eexists _, _, _. split; [by eapply check_file_absent|].
      destruct (required f); simpl; (split; [lia|]); (split; [lia|]); repeat constructor. }
  destruct (decoded disk outputDir f) as [content|err] eqn:Hd.
  2:{ eexists _, _, _. split; [by eapply check_file_unreadable|].
      destruct (pushed_for_bounds f "Failed to read file: " err) as (Hlen & Hpath & _).
      split; [lia|]. split; [lia|done]. }
  destruct (check_schema_appends f content)
    as (r1 & es1 & parsed & H1 & Hnone1 & Hlen1 & Hpath1 & Hthrow1 & _).
  destruct r1 as [[]|raised].
  2:{ eexists _, _, _. split; [by eapply check_file_schema_throws|].
      rewrite (Hthrow1 raised eq_refl). simpl.
      destruct (pushed_for_bounds f "Failed to read file: " raised) as (Hlen & Hpath & _).
      split; [lia|]. split; [lia|done]. }
  destruct (check_custom_appends f content)
    as (r2 & es2 & H2 & Hnone2 & Hlen2 & Hpath2 & Hthrow2).
  eexists _, _, _. split; [by eapply check_file_decoded|].
  assert (es1 <> [] -> is_Some (schema f)) as Hs.
  { intros Hne. destruct (schema f); [done|]. by destruct Hnone1 as (_ & ? & _). }
  destruct r2 as [[]|raised]; simpl.
  - rewrite app_nil_r, length_app. split; [lia|]. split.
    + intros Hlen. split; [apply Hs; intros ->; simpl in Hlen; lia|].
      destruct (validate f); [done|]. destruct Hnone2 as [_ ->]; [done|].
      simpl in Hlen. lia.
    + by apply Forall_app.
  - rewrite (Hthrow2 raised eq_refl), app_nil_r.
    destruct (pushed_for_bounds f "Failed to read file: " raised) as (Hlen & Hpath & _).
    rewrite length_app. split; [lia|]. split.
    + intros Hlen'. split; [apply Hs; intros ->; simpl in Hlen'; lia|].
      destruct (validate f); [done|]. by destruct Hnone2 as [? _].
    + by apply Forall_app.
Qed.

(** *** The whole run *)

Lemma forEach_app {S A} (body : A -> Eff S unit) l1 l2 st :
  forEach (l1 ++ l2) body st = (forEach l1 body ;; forEach l2 body) st.
Proof.
  revert st. induction l1 as [|x l1 IH]; intros st; simpl; [reflexivity|].
  unfold bind in *. destruct (body x st) as [[[]|err] st']; [apply IH|reflexivity].
Qed.

Lemma loop_appends outputDir fs :
  exists r es ts, appends (forEach fs (check_file disk outputDir)) r es ts.
Proof.
  induction fs as [|f fs (r & es & ts & IH)]; simpl.
  - eexists _, _, _. apply appends_ret.
  - destruct (check_file_appends outputDir f) as (r1 & es1 & ts1 & Hf & _).
    destruct r1 as [[]|err].
    + eexists _, _, _. eapply appends_bind; eauto.
    + eexists _, _, _. eapply appends_bind_throws; eauto.
Qed.

Lemma run_eq outputDir fs r es ts :
  appends (forEach fs (check_file disk outputDir)) r es ts ->
  validateOutput disk outputDir {| files := fs |} = (result_of r es, ts).
Proof.
  intros Hloop. unfold validateOutput, validateOutput_from. simpl. unfold bind.
  rewrite Hloop. by destruct r as [[]|err].
Qed.

Lemma alone_eq outputDir f r es ts :
  appends (check_file disk outputDir f) r es ts ->
  alone disk outputDir f = (result_of r es, ts).
Proof.
  intros Hf. apply run_eq. simpl. destruct r as [[]|err].
  - eapply appends_eq; [eapply appends_bind; [exact Hf|apply appends_ret]|..];
      by rewrite app_nil_r.
  - by apply appends_bind_throws.
Qed.

(** A run is the runs of its parts, one after another. *)
Lemma validateOutput_app outputDir fs1 fs2 :
  validateOutput disk outputDir {| files := fs1 ++ fs2 |}
  = and_then (validateOutput disk outputDir {| files := fs1 |})
      (validateOutput disk outputDir {| files := fs2 |}).
Proof.
  destruct (loop_appends outputDir fs1) as (r1 & es1 & ts1 & H1).
  destruct (loop_appends outputDir fs2) as (r2 & es2 & ts2 & H2).
  rewrite (run_eq _ _ _ _ _ H1), (run_eq _ _ _ _ _ H2). unfold and_then. simpl.
  destruct r1 as [[]|err]; simpl.
  - assert (appends (forEach (fs1 ++ fs2) (check_file disk outputDir)) r2
              (es1 ++ es2) (ts1 ++ ts2)) as H12.
    { intros st. rewrite forEach_app. unfold bind. rewrite H1, H2.
      by rewrite extend_extend. }
    rewrite (run_eq _ _ _ _ _ H12). by destruct r2 as [[]|err].
  - assert (appends (forEach (fs1 ++ fs2) (check_file disk outputDir)) (Throws err)
              es1 ts1) as H12.
    { intros st. rewrite forEach_app. unfold bind. by rewrite H1. }
    by rewrite (run_eq _ _ _ _ _ H12).
Qed.

Lemma validateOutput_cons outputDir f fs :
  validateOutput disk outputDir {| files := f :: fs |}
  = and_then (alone disk outputDir f) (validateOutput disk outputDir {| files := fs |}).
Proof. apply (validateOutput_app outputDir [f] fs). Qed.

Lemma and_then_returns first second :
  returns (fst (and_then first second)) <-> returns (fst first) /\ returns (fst second).
Proof.
  unfold and_then, returns. destruct (fst first) as [r1|err1]; simpl.
  - destruct (fst second) as [r2|err2]; simpl.
    + split; eauto.
    + split; [by intros [? ?]|by intros [_ [? ?]]].
  - split; [by intros [? ?]|by intros [[? ?] _]].
Qed.

Lemma and_then_reported first second :
  returns (fst (and_then first second)) ->
  reported (and_then first second) = reported first ++ reported second.
Proof.
  intros Hret. pose proof Hret as [[r1 H1] [r2 H2]]%and_then_returns.
  unfold reported, and_then. rewrite H1. simpl. by rewrite H2.
Qed.

Lemma and_then_steps first second :
  returns (fst first) ->
  steps (and_then first second) = steps first ++ steps second.
Proof. intros [r1 H1]. unfold steps, and_then. by rewrite H1. Qed.

Lemma and_then_thrown first second err :
  fst first = Throws err ->
  and_then first second = first.
Proof. intros H1. unfold and_then. rewrite H1. destruct first. simpl in *. by subst. Qed.

Lemma validateOutput_around outputDir before f after :
  validateOutput disk outputDir {| files := before ++ f :: after |}
  = and_then (validateOutput disk outputDir {| files := before |})
      (and_then (alone disk outputDir f) (validateOutput disk outputDir {| files := after |})).
Proof. by rewrite validateOutput_app, validateOutput_cons. Qed.

(** A file spec that is validated without a throw, anywhere in a spec. *)
Lemma around_returned outputDir before f after result ts :
  alone disk outputDir f = (Returns result, ts) ->
  let whole := validateOutput disk outputDir {| files := before ++ f :: after |} in
  let pre := validateOutput disk outputDir {| files := before |} in
  let post := validateOutput disk outputDir {| files := after |} in
  (returns (fst whole) <-> returns (fst pre) /\ returns (fst post))
  /\ (returns (fst whole) ->
        reported whole = reported pre ++ errors result ++ reported post)
  /\ (returns (fst pre) -> steps whole = steps pre ++ ts ++ steps post).
Proof.
  intros Halone. cbv zeta. rewrite validateOutput_around.
  assert (returns (fst (alone disk outputDir f))) as Hf by (rewrite Halone; by eexists).
  split; [|split].
  - rewrite !and_then_returns. tauto.
  - intros Hret. rewrite and_then_reported by done.
    apply and_then_returns in Hret as [_ Hrest].
    rewrite and_then_reported by done. unfold reported at 2. by rewrite Halone.
  - intros Hpre. rewrite !and_then_steps by done. unfold steps at 2. by rewrite Halone.
Qed.

Lemma run_reached outputDir fs :
  steps (validateOutput disk outputDir {| files := fs |})
  = flat_map (fun f => steps (alone disk outputDir f)) (reached disk outputDir fs).
Proof.
  induction fs as [|f fs IH]; [done|]. rewrite validateOutput_cons. simpl.
  destruct (fst (alone disk outputDir f)) as [r|err] eqn:Hf.
  - rewrite and_then_steps by (by eexists). by rewrite IH.
  - rewrite (and_then_thrown _ _ err Hf). simpl. by rewrite app_nil_r.
Qed.

Lemma run_returned outputDir fs :
  returns (fst (validateOutput disk outputDir {| files := fs |})) ->
  reached disk outputDir fs = fs
  /\ Forall (fun f => returns (fst (alone disk outputDir f))) fs
  /\ reported (validateOutput disk outputDir {| files := fs |})
     = flat_map (fun f => reported (alone disk outputDir f)) fs.
Proof.
  induction fs as [|f fs IH]; [done|]. rewrite validateOutput_cons. intros Hret.
  rewrite and_then_reported by done.
  apply and_then_returns in Hret as [Hf Hrest].
  destruct (IH Hrest) as (Hreached & Hall & Hrep). simpl.
  destruct Hf as [r Hf]. rewrite Hf, Hreached, Hrep. split; [done|]. split; [|done].
  constructor; [by eexists|done].
Qed.

Lemma reached_sublist outputDir fs f : f ∈ reached disk outputDir fs -> f ∈ fs.
Proof.
  induction fs as [|g fs IH]; simpl; [done|].
  intros [->|Hin]%elem_of_cons; [apply list_elem_of_here|].
  apply list_elem_of_further. destruct (fst (alone disk outputDir g)); [by apply IH|].
  by apply elem_of_nil in Hin.
Qed.

Lemma reported_alone outputDir f r es ts :
  appends (check_file disk outputDir f) r es ts ->
  fst (alone disk outputDir f) = result_of r es /\ steps (alone disk outputDir f) = ts.
Proof. intros Hf. by rewrite (alone_eq _ _ _ _ _ Hf). Qed.

Lemma reported_in_path outputDir f e :
  e ∈ reported (alone disk outputDir f) -> ValidationError.path e = path f.
Proof.
  destruct (check_file_appends outputDir f) as (r & es & ts & Hf & _ & _ & Hpath).
  unfold reported. rewrite (alone_eq _ _ _ _ _ Hf). simpl.
  destruct r as [[]|err]; simpl; [|by intros ?%elem_of_nil].
  intros He. by eapply Forall_forall in Hpath.
Qed.

(** C9. The errors of a returned result are the errors of its file specs,
    grouped in the order the file specs are declared.  The run of
    [files1 ++ files2] is the run of [files1] and then, when that has
    returned, the run of [files2]; when it returns, so do the runs of
    [files1] and of [files2], and its errors are those for [files1]
    followed by those for [files2]; the errors of any returned result are
    those each file spec gets on its own, in declared order; and every
    error a file spec gets carries the path of that file spec.  The result
    is a function of the directory state and the spec. *)
Theorem errors_follow_declaration_order outputDir files1 files2 :
  validateOutput disk outputDir {| files := files1 ++ files2 |}
  = and_then (validateOutput disk outputDir {| files := files1 |})
      (validateOutput disk outputDir {| files := files2 |})
  /\ (returns (fst (validateOutput disk outputDir {| files := files1 ++ files2 |})) ->
     reported (validateOutput disk outputDir {| files := files1 ++ files2 |})
     = reported (validateOutput disk outputDir {| files := files1 |})
       ++ reported (validateOutput disk outputDir {| files := files2 |}))
  /\ (returns (fst (validateOutput disk outputDir {| files := files1 ++ files2 |}))
      <-> returns (fst (validateOutput disk outputDir {| files := files1 |}))
          /\ returns (fst (validateOutput disk outputDir {| files := files2 |})))
  /\ (forall spec,
        returns (fst (validateOutput disk outputDir spec)) ->
        reported (validateOutput disk outputDir spec)
        = flat_map (fun f => reported (alone disk outputDir f)) (files spec))
  /\ (forall f e, e ∈ reported (alone disk outputDir f) -> ValidationError.path e = path f).
Proof.
  split; [apply validateOutput_app|]. split; [|split; [|split]].
  - rewrite validateOutput_app. apply and_then_reported.
  - rewrite validateOutput_app. apply and_then_returns.
  - intros [fs] Hret. by apply run_returned.
  - apply reported_in_path.
Qed.

Lemma strictly_false_iff v : strictly_false v = true <-> v = JBool false.
Proof. destruct v as [| |[]| | | |]; simpl; split; congruence. Qed.

Lemma returned_false_not_pushed_for f label err :
  (forall text, label +:+ text <> "Custom validation returned false") ->
  returned_false_error f ∉ pushed_for f label err.
Proof.
  intros Hne. unfold pushed_for. destruct (errorText err) as [text|raised].
  - rewrite list_elem_of_singleton. unfold returned_false_error. intros Heq.
    injection Heq as Heq. by destruct (Hne text).
  - apply not_elem_of_nil.
Qed.

Lemma schema_label_differs text :
  "Schema validation failed: " +:+ text <> "Custom validation returned false".
Proof. intros Heq. discriminate Heq. Qed.

Lemma read_label_differs text :
  "Failed to read file: " +:+ text <> "Custom validation returned false".
Proof. intros Heq. discriminate Heq. Qed.

(** What a file spec that is there and decodes gets, with a callback that
    returns [v], and without the callback. *)
Lemma alone_with_callback outputDir f content predicate v :
  present disk outputDir f ->
  decoded disk outputDir f = Returns content ->
  validate f = Some predicate ->
  await (predicate content) = Returns v ->
  (exists es1,
      schema_block_completes f content
      /\ (returned_false_error f ∉ es1)
      /\ fst (alone disk outputDir (without_validate f)) = result_of (Returns tt) es1
      /\ fst (alone disk outputDir f)
         = result_of (Returns tt)
             (es1 ++ (if strictly_false v then [returned_false_error f] else [])))
  \/ (exists r es,
        ~ schema_block_completes f content
        /\ (returned_false_error f ∉ es)
        /\ fst (alone disk outputDir (without_validate f)) = result_of r es
        /\ fst (alone disk outputDir f) = result_of r es).
Proof.
  intros Hp Hd Hv Hret.
  destruct (check_schema_appends f content)
    as (r1 & es1 & parsed & H1 & Hnone1 & Hlen1 & Hpath1 & Hthrow1 & Hcompletes).
  assert (returned_false_error f ∉ es1) as Hnot1.
  { destruct (schema f) as [sch|] eqn:Hsch.
    2:{ destruct Hnone1 as (_ & -> & _); [done|]. apply not_elem_of_nil. }
    destruct (schema_accepts_or_rejects (format f) sch content) as [Hacc|[err Hrej]].
    - destruct (check_schema_accepts f sch content Hsch Hacc) as [p Hp'].
      destruct (appends_unique _ _ _ _ _ _ _ H1 Hp') as (_ & -> & _). apply not_elem_of_nil.
    - destruct (check_schema_rejects f sch content err Hsch Hrej) as [p Hp'].
      destruct (appends_unique _ _ _ _ _ _ _ H1 Hp') as (_ & -> & _).
      apply returned_false_not_pushed_for, schema_label_differs. }
  destruct r1 as [[]|raised].
  - left. exists es1. split; [by apply Hcompletes|]. split; [done|]. split.
    + assert (appends (check_custom (without_validate f) content) (Returns tt) [] []) as H2
        by (by apply check_custom_none).
      pose proof (check_file_decoded outputDir (without_validate f) content es1 _ _ _ _
                    Hp Hd H1 H2) as Hf.
      destruct (reported_alone _ _ _ _ _ Hf) as [-> _]. simpl. by rewrite !app_nil_r.
    + pose proof (check_custom_returned f predicate content v Hv Hret) as H2.
      pose proof (check_file_decoded outputDir f content es1 _ _ _ _ Hp Hd H1 H2) as Hf.
      destruct (reported_alone _ _ _ _ _ Hf) as [-> _]. simpl. by rewrite !app_nil_r.
  - right. rewrite (Hthrow1 raised eq_refl) in *.
    exists (handled raised), (pushed_for f "Failed to read file: " raised).
    split; [|split; [|split]].
    + intros Hc. by apply Hcompletes in Hc.
    + apply returned_false_not_pushed_for, read_label_differs.
    + pose proof (check_file_schema_throws outputDir (without_validate f) content raised
                    [] _ Hp Hd H1) as Hf.
      by destruct (reported_alone _ _ _ _ _ Hf) as [-> _].
    + pose proof (check_file_schema_throws outputDir f content raised [] _ Hp Hd H1) as Hf.
      by destruct (reported_alone _ _ _ _ _ Hf) as [-> _].
Qed.

(** C10. A file that is there and decodes, with a custom callback that
    returns [v] (directly, or as the value its promise is fulfilled with).
    The error "Custom validation returned false" is among the errors of the
    file spec only when [v] is the boolean [false].  For every other [v],
    the falsy [0], empty string, [null] and [undefined] among them, the
    file spec gets the errors it gets without the callback, and no more.
    When [v] is the boolean [false] and the schema block has ended without
    a throw, the error is there, after the errors the file spec gets
    without the callback. *)
Theorem only_the_boolean_false_fails outputDir f content predicate v :
  present disk outputDir f ->
  decoded disk outputDir f = Returns content ->
  validate f = Some predicate ->
  await (predicate content) = Returns v ->
  (v = JBool false ->
   schema_block_completes f content ->
     reported (alone disk outputDir f)
     = reported (alone disk outputDir (without_validate f))
       ++ [ValidationError.mk (path f) "Custom validation returned false"])
  /\ (v <> JBool false ->
        reported (alone disk outputDir f)
        = reported (alone disk outputDir (without_validate f)))
  /\ (ValidationError.mk (path f) "Custom validation returned false"
        ∈ reported (alone disk outputDir f)
      -> v = JBool false)
  /\ (v = JBool false ->
      schema_block_completes f content ->
        ValidationError.mk (path f) "Custom validation returned false"
          ∈ reported (alone disk outputDir f))
  /\ (v ∈ [JNum 0; JStr EmptyString; JNull; JUndefined] ->
        truthy v = false
        /\ reported (alone disk outputDir f)
           = reported (alone disk outputDir (without_validate f))).
Proof.
  intros Hp Hd Hv Hret.
  assert (v <> JBool false -> strictly_false v = false) as Hother.
  { intros Hne. destruct v as [| |[]| | | |]; simpl; congruence. }
  unfold reported.
  destruct (alone_with_callback outputDir f content predicate v Hp Hd Hv Hret)
    as [(es1 & Hcompletes & Hnot & -> & ->)|(r & es & Hnc & Hnot & -> & ->)]; simpl.
  - split; [by intros -> _|]. split; [|split; [|split]].
    + intros Hne. by rewrite (Hother Hne), app_nil_r.
    + intros Hin. destruct (strictly_false v) eqn:Hsf; [by apply strictly_false_iff|].
      rewrite app_nil_r in Hin. by destruct Hnot.
    + intros -> _. simpl. rewrite elem_of_app. right. apply list_elem_of_here.
    + intros Hin. assert (v <> JBool false /\ truthy v = false) as [Hne Hfalsy].
      { repeat (apply elem_of_cons in Hin as [->|Hin]); try done.
        by apply elem_of_nil in Hin. }
      split; [done|]. by rewrite (Hother Hne), app_nil_r.
  - split; [by intros _ ?|]. split; [done|]. split; [|split].
    + intros Hin. destruct r as [[]|err]; simpl in Hin; [by destruct Hnot|].
      by apply elem_of_nil in Hin.
    + by intros _ ?.
    + intros Hin. split; [|done].
      repeat (apply elem_of_cons in Hin as [->|Hin]); try done.
      by apply elem_of_nil in Hin.
Qed.

(** C8 (as amended). A file that is not there.  When [required] is true the
    file spec gets exactly one error, "Required file missing", followed by
    the description in parentheses when a non-empty description is given
    and by nothing otherwise, and the only step taken for the file spec is
    the [fs.access] call: no read, no schema call, no callback call.  When
    [required] is false the file spec gets no error, and again the only
    step is the [fs.access] call.  This is so for the file spec on its
    own, whatever the schema and the callback would do, and for the file
    spec anywhere in an [OutputSpec]: in the steps, when the run gets to
    it, and in the errors, when the run returns. *)
Theorem missing_file_is_one_error_or_none outputDir f before after :
  absent disk outputDir f ->
  let whole := validateOutput disk outputDir {| files := before ++ f :: after |} in
  let pre := validateOutput disk outputDir {| files := before |} in
  let post := validateOutput disk outputDir {| files := after |} in
  (exists suffix,
      alone disk outputDir f
      = (Returns {| valid := negb (required f);
                    errors := if required f
                              then [ValidationError.mk (path f)
                                      ("Required file missing" +:+ suffix)]
                              else [] |},
         [FsAccess (path_join outputDir (path f))])
      /\ (forall d, description f = Some d -> d <> EmptyString ->
            suffix = " (" +:+ d +:+ ")")
      /\ (description f = None \/ description f = Some EmptyString ->
            suffix = EmptyString))
  /\ (returns (fst pre) ->
        steps whole = steps pre ++ [FsAccess (path_join outputDir (path f))] ++ steps post)
  /\ (returns (fst whole) <-> returns (fst pre) /\ returns (fst post))
  /\ (returns (fst whole) -> required f = false -> reported whole = reported pre ++ reported post)
  /\ (returns (fst whole) -> required f = true ->
        exists suffix,
          reported whole
          = reported pre
            ++ [ValidationError.mk (path f) ("Required file missing" +:+ suffix)]
            ++ reported post
          /\ (forall d, description f = Some d -> d <> EmptyString ->
                suffix = " (" +:+ d +:+ ")")
          /\ (description f = None \/ description f = Some EmptyString ->
                suffix = EmptyString)).
Proof.
  intros [err Ha]. cbv zeta.
  pose proof (alone_eq outputDir f _ _ _ (check_file_absent outputDir f err Ha)) as Halone.
  assert ((forall d, description f = Some d -> d <> EmptyString ->
             describe f = " (" +:+ d +:+ ")")
          /\ (description f = None \/ description f = Some EmptyString ->
                describe f = EmptyString)) as [Hsome Hnone].
  { unfold describe. split.
    - intros d -> Hd. simpl. destruct d; [done|reflexivity].
    - by intros [->| ->]. }
  destruct (around_returned outputDir before f after _ _ Halone) as (Hret & Hrep & Hsteps).
  split; [|split; [done|split; [done|split]]].
  - exists (describe f). split; [|done]. rewrite Halone. simpl.
    by destruct (required f).
  - intros Hwhole Hreq. rewrite (Hrep Hwhole). simpl. by rewrite Hreq.
  - intros Hwhole Hreq. exists (describe f). split; [|done].
    rewrite (Hrep Hwhole). simpl. by rewrite Hreq.
Qed.
End ValidationFacts.

(** ** The file system and the manager *)

Lemma lookup_path_app p q n :
  lookup_path (p ++ q) n = lookup_path p n ≫= lookup_path q.
Proof.
  revert n. induction p as [|name p IH]; intros n; simpl; [done|].
  destruct n as [|children]; [done|]. destruct (children !! name); [apply IH | done].
Qed.

Lemma rm_rf_cons name rest children :
  rest <> [] ->
  rm_rf (name :: rest) (Dir children)
  = match children !! name with
    | None => Some (Dir children)
    | Some child =>
        match rm_rf rest child with
        | Some child' => Some (Dir (<[name := child']> children))
        | None => None
        end
    end.
Proof. by destruct rest. Qed.

Lemma rm_rf_child dir name t children :
  lookup_path dir t = Some (Dir children) ->
  exists t', rm_rf (dir ++ [name]) t = Some t'
             /\ lookup_path dir t' = Some (Dir (delete name children)).
Proof.
  revert t. induction dir as [|d dir IH]; intros t Hl.
  - simpl in Hl. simplify_eq. simpl. eauto.
  - simpl in Hl. destruct t as [|ch]; [done|].
    destruct (ch !! d) as [child|] eqn:Hd; [|done].
    destruct (IH child Hl) as (child' & Hrm & Hl').
    rewrite <- app_comm_cons, rm_rf_cons, Hd, Hrm by (by destruct dir).
    eexists. split; [done|]. simpl. by rewrite lookup_insert_eq.
Qed.

Lemma write_file_lookup p content t t' :
  write_file p content t = Some t' -> lookup_path p t' = Some (File content).
Proof.
  revert t t'. induction p as [|name p IH]; intros t t'; destruct t as [|ch]; simpl; try done.
  destruct p as [|name' p].
  - destruct (ch !! name) as [[]|]; intros; simplify_eq; simpl; by rewrite lookup_insert_eq.
  - destruct (ch !! name) as [child|]; [|done].
    destruct (write_file (name' :: p) content child) as [child'|] eqn:Hw; [|done].
    intros; simplify_eq. simpl lookup_path at 1. rewrite lookup_insert_eq. by eapply IH.
Qed.

Lemma reads_ret {A} (a : A) t : reads (ret a) t (Returns a) [].
Proof. intros lg. unfold ret. by rewrite app_nil_r. Qed.

Lemma reads_lift {A} (o : Outcome A) t : reads (lift o) t o [].
Proof. intros lg. unfold lift. by rewrite app_nil_r. Qed.

Lemma reads_bind {A B} (m : Eff World A) (k : A -> Eff World B) t a r evs evs' :
  reads m t (Returns a) evs -> reads (k a) t r evs' -> reads (bind m k) t r (evs ++ evs').
Proof. intros Hm Hk lg. unfold bind. rewrite Hm, Hk. by rewrite app_assoc. Qed.

Lemma reads_bind_throws {A B} (m : Eff World A) (k : A -> Eff World B) t err evs :
  reads m t (Throws err) evs -> reads (bind m k) t (Throws err) evs.
Proof. intros Hm lg. unfold bind. by rewrite Hm. Qed.

Lemma reads_try_returns {A} (m : Eff World A) handler t a evs :
  reads m t (Returns a) evs -> reads (try_catch m handler) t (Returns a) evs.
Proof. intros Hm lg. unfold try_catch. by rewrite Hm. Qed.

Lemma reads_try_throws {A} (m : Eff World A) handler t err r evs evs' :
  reads m t (Throws err) evs -> reads (handler err) t r evs' ->
  reads (try_catch m handler) t r (evs ++ evs').
Proof. intros Hm Hh lg. unfold try_catch. rewrite Hm, Hh. by rewrite app_assoc. Qed.

Section Listing.
Context `{JsRuntime}.
Variable m : WorkspaceManager.t.

Lemma readFile_reads p t :
  exists r, reads (Fs.readFile p) t r [FsReadFile p]
            /\ r = match lookup_path p t with
                   | Some (File content) => Returns content
                   | Some (Dir _) => Throws Fs.EISDIR
                   | None => Throws Fs.ENOENT
                   end.
Proof.
  eexists. split; [|reflexivity]. intros lg.
  run_fs; simpl.
  by destruct (lookup_path p t) as [[]|].
Qed.

Lemma reads_result {A} (c : Eff World A) t r evs :
  reads c t r evs -> fst (c {| tree := t; log := [] |}) = r.
Proof. intros Hc. by rewrite Hc. Qed.

Lemma lifted_chain_reads {A B} (o : Outcome A) (k : A -> Eff World B) t :
  (forall a, exists r evs, reads (k a) t r evs) ->
  exists r evs, reads (bind (lift o) k) t r evs.
Proof.
  intros Hk. destruct o as [a|err].
  - destruct (Hk a) as (r & evs & Hr). eexists _, _.
    eapply reads_bind; [apply reads_lift | apply Hr].
  - eexists _, _. apply reads_bind_throws, reads_lift.
Qed.

Lemma read_handle_reads t name :
  exists evs, reads (WorkspaceManager.read_handle m name) t (handle_of m t name) evs.
Proof.
  assert (exists r evs, reads (WorkspaceManager.read_handle m name) t r evs)
    as (r & evs & Hr).
  { unfold WorkspaceManager.read_handle.
    destruct (readFile_reads
                (path_join (path_join (WorkspaceManager.root m) name)
                   WorkspaceManager.META_FILE) t) as (r0 & Hr0 & _).
    destruct r0 as [text|err].
    - assert (exists r evs,
                 reads (meta <- lift (JSON_parse text) ;;
                        meta_id <- lift (get_field meta "id") ;;
                        meta_dirs <- lift (get_field meta "dirs") ;;
                        meta_createdAt <- lift (get_field meta "createdAt") ;;
                        ret (WorkspaceHandle.mk meta_id
                               (path_join (WorkspaceManager.root m) name) meta_dirs
                               (Date_new meta_createdAt))) t r evs) as (r & evs & Hr).
      { repeat (apply lifted_chain_reads; intros ?). eexists _, _. apply reads_ret. }
      eexists _, _. eapply reads_bind; [apply Hr0 | apply Hr].
    - eexists _, _. apply reads_bind_throws, Hr0. }
  exists evs. unfold handle_of. by rewrite (reads_result _ _ _ _ Hr).
Qed.

Lemma list_loop_reads t entries acc :
  exists evs,
    reads (for_fold entries acc
             (fun handles entry =>
                if negb (Fs.isDirectory entry) then ret handles
                else try_catch
                       (handle <- WorkspaceManager.read_handle m (Fs.name entry) ;;
                        ret (handles ++ [handle]))
                       (fun _ => ret handles)))
      t (Returns (acc ++ listed m t entries)) evs.
Proof.
  revert acc. induction entries as [|entry entries IH]; intros acc; simpl.
  - rewrite app_nil_r. eexists. apply reads_ret.
  - destruct (Fs.isDirectory entry); simpl.
    + destruct (read_handle_reads t (Fs.name entry)) as [evr Hr].
      destruct (handle_of m t (Fs.name entry)) as [h|err].
      * destruct (IH (acc ++ [h])) as [evs IHe]. rewrite <- app_assoc in IHe.
        eexists. eapply reads_bind; [|apply IHe].
        apply reads_try_returns. eapply reads_bind; [apply Hr | apply reads_ret].
      * destruct (IH acc) as [evs IHe].
        eexists. eapply reads_bind; [|apply IHe].
        eapply reads_try_throws; [|apply reads_ret].
        eapply reads_bind_throws, Hr.
    + destruct (IH acc) as [evs IHe].
      eexists. eapply reads_bind; [apply reads_ret | apply IHe].
Qed.

Lemma list_reads t :
  exists evs,
    reads (WorkspaceManager.list m) t
      (Returns match lookup_path (WorkspaceManager.root m) t with
               | Some (Dir children) => listed m t (entries_of children)
               | _ => []
               end) evs.
Proof.
  unfold WorkspaceManager.list.
  destruct (lookup_path (WorkspaceManager.root m) t) as [[content|children]|] eqn:Hroot.
  - exists ([FsReaddir (WorkspaceManager.root m)] ++ []).
    eapply reads_try_throws; [|apply reads_ret].
    apply reads_bind_throws. intros lg.
    run_fs; simpl. by rewrite Hroot.
  - destruct (list_loop_reads t (entries_of children) []) as [evs Hloop].
    eexists. apply reads_try_returns. eapply reads_bind; [|apply Hloop].
    intros lg. run_fs; simpl. by rewrite Hroot.
  - exists ([FsReaddir (WorkspaceManager.root m)] ++ []).
    eapply reads_try_throws; [|apply reads_ret].
    apply reads_bind_throws. intros lg.
    run_fs; simpl. by rewrite Hroot.
Qed.

Lemma listing_eq t lg :
  listing m {| tree := t; log := lg |}
  = match lookup_path (WorkspaceManager.root m) t with
    | Some (Dir children) => listed m t (entries_of children)
    | _ => []
    end.
Proof.
  destruct (list_reads t) as [evs Hl]. unfold listing. by rewrite Hl.
Qed.

Lemma handle_of_ext t t' name :
  lookup_path (path_join (path_join (WorkspaceManager.root m) name)
                 WorkspaceManager.META_FILE) t
  = lookup_path (path_join (path_join (WorkspaceManager.root m) name)
                   WorkspaceManager.META_FILE) t' ->
  handle_of m t name = handle_of m t' name.
Proof.
  intros Heq. unfold handle_of, WorkspaceManager.read_handle. run_fs. simpl. rewrite Heq.
  destruct (lookup_path _ t') as [[text|]|]; simpl; try done.
  case_outcomes; done.
Qed.

Lemma handle_of_path t name h :
  handle_of m t name = Returns h ->
  WorkspaceHandle.path h = path_join (WorkspaceManager.root m) name.
Proof.
  destruct (read_handle_reads t name) as [evs Hr]. revert Hr.
  generalize (handle_of m t name). intros r Hr Heq. subst r.
  specialize (Hr []). revert Hr.
  unfold WorkspaceManager.read_handle. run_fs. simpl.
  destruct (lookup_path _ t) as [[text|]|]; simpl; try (intros; by simplify_eq).
  case_outcomes; intros; by simplify_eq.
Qed.

Lemma handle_of_unreadable t name :
  metadata_unreadable m t name -> exists err, handle_of m t name = Throws err.
Proof.
  unfold metadata_unreadable, handle_of, WorkspaceManager.read_handle. run_fs. simpl.
  destruct (lookup_path _ t) as [[text|]|]; simpl; eauto.
  intros [err ->]. eauto.
Qed.

Lemma elem_of_listed t children h :
  h ∈ listed m t (entries_of children)
  <-> exists name node,
        children !! name = Some node /\ Fs.is_dir node = true
        /\ handle_of m t name = Returns h.
Proof.
  unfold listed, entries_of. rewrite list_elem_of_In, in_flat_map. split.
  - intros (entry & Hentry & Hh). apply in_map_iff in Hentry as ([name node] & <- & Hin).
    apply list_elem_of_In, elem_of_map_to_list in Hin. simpl in Hh.
    exists name, node. destruct (Fs.is_dir node); [|done].
    destruct (handle_of m t name); [|done]. destruct Hh as [->|[]]. done.
  - intros (name & node & Hl & Hd & Hh).
    exists {| Fs.name := name; Fs.isDirectory := Fs.is_dir node |}. split.
    + apply in_map_iff. exists (name, node). split; [done|].
      by apply list_elem_of_In, elem_of_map_to_list.
    + simpl. rewrite Hd, Hh. by left.
Qed.
End Listing.

Section Prune.
Context `{JsRuntime}.
Variable m : WorkspaceManager.t.
Variables now maxAgeMs : Z.

Lemma pruneStale_unfold w :
  WorkspaceManager.pruneStale m now maxAgeMs w
  = bind (WorkspaceManager.list m) (fun handles => for_fold handles 0 (prune_body m now maxAgeMs)) w.
Proof. reflexivity. Qed.

Lemma path_join_inj dir a b : path_join dir a = path_join dir b -> a = b.
Proof. unfold path_join. intros Heq. by apply app_inj_tail in Heq as [_ ->]. Qed.

Lemma prune_loop hs :
  forall t lg acc children,
    lookup_path (WorkspaceManager.root m) t = Some (Dir children) ->
    Forall (fun h => exists name,
              WorkspaceHandle.path h = path_join (WorkspaceManager.root m) name) hs ->
    exists t' lg' children',
      for_fold hs acc (prune_body m now maxAgeMs) {| tree := t; log := lg |}
      = (Returns (acc + Z.of_nat (length (List.filter (stale now maxAgeMs) hs))),
         {| tree := t'; log := lg' |})
      /\ lookup_path (WorkspaceManager.root m) t' = Some (Dir children')
      /\ (forall name,
            (forall h, h ∈ hs -> stale now maxAgeMs h = true ->
                       WorkspaceHandle.path h <> path_join (WorkspaceManager.root m) name) ->
            children' !! name = children !! name)
      /\ (forall h name, h ∈ hs -> stale now maxAgeMs h = true ->
            WorkspaceHandle.path h = path_join (WorkspaceManager.root m) name ->
            children' !! name = None)
      /\ (forall name, children' !! name = None \/ children' !! name = children !! name).
Proof.
  induction hs as [|h hs IH]; intros t lg acc children Hroot Hpaths.
  - exists t, lg, children. simpl. rewrite Z.add_0_r.
    split; [done|]. split; [done|]. split; [done|]. split; [|by right].
    intros h name Hin. by apply elem_of_nil in Hin.
  - apply Forall_cons in Hpaths as [[k Hk] Hpaths]. simpl.
    unfold prune_body at 1, bind. fold (stale now maxAgeMs h).
    destruct (stale now maxAgeMs h) eqn:Hstale.
    + destruct (rm_rf_child _ k _ _ Hroot) as (t1 & Hrm & Hroot1).
      unfold WorkspaceManager.cleanup. run_fs. simpl. rewrite Hk. unfold path_join at 1. rewrite Hrm. simpl.
      destruct (IH t1 (lg ++ [FsRm (path_join (WorkspaceManager.root m) k)]) (acc + 1)
                  (delete k children) Hroot1 Hpaths)
        as (t' & lg' & children' & Hrun & Hroot' & Hkeep & Hgone & Hsub).
      exists t', lg', children'. split; [|split; [done|split; [|split]]].
      * rewrite Hrun. do 2 f_equal. lia.
      * intros name Hfree. rewrite Hkeep.
        -- apply lookup_delete_ne. intros ->. eapply Hfree; [apply list_elem_of_here|done..].
        -- intros h' Hin. apply Hfree. by apply list_elem_of_further.
      * intros h' name Hin Hst Hp. apply elem_of_cons in Hin as [->|Hin].
        -- rewrite Hk in Hp. apply path_join_inj in Hp as <-.
           destruct (Hsub k) as [|Hs]; [done|]. by rewrite Hs, lookup_delete_eq.
        -- by eapply Hgone.
      * intros name. destruct (Hsub name) as [|Hs]; [by left|]. rewrite Hs.
        destruct (decide (k = name)) as [->|Hne].
        -- left. apply lookup_delete_eq.
        -- right. by apply lookup_delete_ne.
    + simpl.
      destruct (IH t lg acc children Hroot Hpaths)
        as (t' & lg' & children' & Hrun & Hroot' & Hkeep & Hgone & Hsub).
      exists t', lg', children'. split; [done|]. split; [done|]. split; [|split; [|done]].
      * intros name Hfree. apply Hkeep. intros h' Hin. apply Hfree.
        by apply list_elem_of_further.
      * intros h' name Hin Hst Hp. apply elem_of_cons in Hin as [->|Hin]; [congruence|].
        by eapply Hgone.
Qed.

Lemma prune_loop_idle hs acc w :
  Forall (fun h => stale now maxAgeMs h = false) hs ->
  for_fold hs acc (prune_body m now maxAgeMs) w = (Returns acc, w).
Proof.
  induction 1 as [|h hs Hh _ IH]; simpl; [done|].
  unfold bind, prune_body at 1. fold (stale now maxAgeMs h). by rewrite Hh.
Qed.
End Prune.

Section Lifecycle.
Context `{JsRuntime}.
Variable m : WorkspaceManager.t.

Lemma listed_names t (l : list (string * Node)) h :
  h ∈ listed m t (map (fun entry => {| Fs.name := fst entry;
                                       Fs.isDirectory := Fs.is_dir (snd entry) |}) l) ->
  exists name, name ∈ l.*1
               /\ WorkspaceHandle.path h = path_join (WorkspaceManager.root m) name.
Proof.
  induction l as [|[name node] l IH]; simpl.
  - intros Hin. by apply elem_of_nil in Hin.
  - rewrite elem_of_app. intros [Hin|Hin].
    + exists name. split; [apply list_elem_of_here|].
      destruct (Fs.is_dir node); [|by apply elem_of_nil in Hin].
      destruct (handle_of m t name) as [h'|] eqn:Hh; [|by apply elem_of_nil in Hin].
      apply list_elem_of_singleton in Hin as ->. by eapply handle_of_path.
    + destruct (IH Hin) as (k & Hk & Hp). exists k. split; [by apply list_elem_of_further|done].
Qed.

Lemma listed_NoDup t children : NoDup (listed m t (entries_of children)).
Proof.
  unfold entries_of. pose proof (NoDup_fst_map_to_list children) as Hnd.
  induction (map_to_list children) as [|[name node] l IH]; simpl; [constructor|].
  apply NoDup_cons in Hnd as [Hfresh Hnd]. apply NoDup_app. split; [|split; [|by apply IH]].
  - destruct (Fs.is_dir node); [|constructor].
    destruct (handle_of m t name); [apply NoDup_singleton | constructor].
  - intros h Hin Hin'. apply listed_names in Hin' as (k & Hk & Hp).
    destruct (Fs.is_dir node); [|by apply elem_of_nil in Hin].
    destruct (handle_of m t name) as [h'|] eqn:Hh; [|by apply elem_of_nil in Hin].
    apply list_elem_of_singleton in Hin as ->. apply handle_of_path in Hh.
    rewrite Hh in Hp. apply path_join_inj in Hp as ->. done.
Qed.

Lemma listed_paths t children :
  Forall (fun h => exists name,
            WorkspaceHandle.path h = path_join (WorkspaceManager.root m) name)
    (listed m t (entries_of children)).
Proof.
  apply Forall_forall. intros h Hin. apply listed_names in Hin as (k & _ & Hp). eauto.
Qed.

Lemma meta_lookup t children name :
  lookup_path (WorkspaceManager.root m) t = Some (Dir children) ->
  lookup_path (path_join (path_join (WorkspaceManager.root m) name)
                 WorkspaceManager.META_FILE) t
  = children !! name ≫= lookup_path [WorkspaceManager.META_FILE].
Proof.
  intros Hroot. unfold path_join. rewrite <- app_assoc, lookup_path_app, Hroot. simpl.
  by destruct (children !! name) as [[]|].
Qed.

Lemma filter_split {A} (f : A -> bool) (l : list A) :
  length l = (length (List.filter f l) + length (List.filter (fun x => negb (f x)) l))%nat.
Proof. induction l as [|x l IH]; simpl; [done|]. destruct (f x); simpl; lia. Qed.

Lemma filter_NoDup {A} (f : A -> bool) (l : list A) : NoDup l -> NoDup (List.filter f l).
Proof.
  induction 1 as [|x l Hx Hl IH]; simpl; [constructor|].
  destruct (f x); [|done]. constructor; [|done].
  rewrite list_elem_of_In, filter_In, <- list_elem_of_In. tauto.
Qed.

(** What is listed after pruning: the handles that were listed and are
    not older than the limit. *)
Lemma prune_outcome now maxAgeMs t lg children :
  lookup_path (WorkspaceManager.root m) t = Some (Dir children) ->
  exists t' lg' children',
    WorkspaceManager.pruneStale m now maxAgeMs {| tree := t; log := lg |}
    = (Returns (Z.of_nat (length (List.filter (stale now maxAgeMs)
                                   (listed m t (entries_of children))))),
       {| tree := t'; log := lg' |})
    /\ lookup_path (WorkspaceManager.root m) t' = Some (Dir children')
    /\ (forall h, h ∈ listed m t' (entries_of children')
                  <-> h ∈ listed m t (entries_of children)
                      /\ stale now maxAgeMs h = false)
    /\ (forall h, h ∈ listed m t (entries_of children) -> stale now maxAgeMs h = true ->
                  lookup_path (WorkspaceHandle.path h) t' = None).
Proof.
  intros Hroot. rewrite pruneStale_unfold. unfold bind.
  destruct (list_reads m t) as [evs Hlist]. rewrite Hlist, Hroot.
  destruct (prune_loop m now maxAgeMs (listed m t (entries_of children)) t (lg ++ evs) 0
              children Hroot (listed_paths t children))
    as (t' & lg' & children' & Hrun & Hroot' & Hkeep & Hgone & Hsub).
  exists t', lg', children'. split; [by rewrite Hrun|]. split; [done|]. split.
  - intros h. rewrite !elem_of_listed. split.
    + intros (name & node & Hl & Hd & Hh).
      destruct (Hsub name) as [Hn|Hs]; [congruence|].
      assert (handle_of m t name = Returns h) as Hh0.
      { rewrite <- Hh. apply handle_of_ext.
        rewrite (meta_lookup t children), (meta_lookup t' children') by done. by rewrite Hs. }
      split; [exists name, node; by rewrite <- Hs|].
      destruct (stale now maxAgeMs h) eqn:Hst; [|done].
      rewrite (Hgone h name) in Hl; [done| |done|by eapply handle_of_path].
      apply elem_of_listed. exists name, node. by rewrite <- Hs.
    + intros [(name & node & Hl & Hd & Hh) Hst].
      assert (children' !! name = children !! name) as Hs.
      { apply Hkeep. intros h' Hin' Hst' Hp.
        apply elem_of_listed in Hin' as (k & node' & _ & _ & Hh').
        rewrite (handle_of_path _ _ _ _ Hh') in Hp. apply path_join_inj in Hp as ->.
        congruence. }
      exists name, node. rewrite Hs. split; [done|]. split; [done|].
      rewrite <- Hh. apply handle_of_ext.
      rewrite (meta_lookup t children), (meta_lookup t' children') by done. by rewrite Hs.
  - intros h Hin Hst. pose proof Hin as Hin'.
    apply elem_of_listed in Hin' as (name & node & _ & _ & Hh).
    pose proof (handle_of_path _ _ _ _ Hh) as Hp. rewrite Hp. unfold path_join.
    rewrite lookup_path_app, Hroot'. simpl. by rewrite (Hgone h name).
Qed.

Lemma filter_none {A} (f : A -> bool) (l : list A) :
  (forall x, x ∈ l -> f x = false) -> List.filter f l = [].
Proof.
  induction l as [|x l IH]; simpl; [done|]. intros Hall.
  rewrite (Hall x) by apply list_elem_of_here. apply IH. intros y Hy.
  by apply Hall, list_elem_of_further.
Qed.

Lemma list_run t lg :
  exists lg',
    WorkspaceManager.list m {| tree := t; log := lg |}
    = (Returns (listing m {| tree := t; log := lg |}), {| tree := t; log := lg' |}).
Proof.
  destruct (list_reads m t) as [evs Hl]. exists (lg ++ evs).
  rewrite listing_eq. apply Hl.
Qed.

Lemma stale_iff now maxAgeMs h T :
  WorkspaceHandle.createdAt h = Some T ->
  stale now maxAgeMs h = true <-> now - T > maxAgeMs.
Proof. intros Hc. unfold stale, time_before. rewrite Hc, Z.ltb_lt. lia. Qed.

(** X27. What [pruneStale(maxAgeMs)] does, with the clock at [now]: it
    always returns.  The comparison of the source is strict: a listed
    workspace created at time [T] is gone from the listing afterwards
    exactly when [T < now - maxAgeMs], that is [now - T > maxAgeMs], and
    then its directory is gone from the tree; a workspace exactly as old
    as the limit stays; a listed workspace whose creation date is not a
    valid date stays; nothing enters the listing.  The number returned is
    the number of workspaces that left the listing.  Called again with the
    same limit and the same clock reading, [pruneStale] returns [0]. *)
Theorem pruneStale_removes_what_is_older now maxAgeMs w :
  exists n w1,
    WorkspaceManager.pruneStale m now maxAgeMs w = (Returns n, w1)
    /\ (forall h T,
          h ∈ listing m w -> WorkspaceHandle.createdAt h = Some T ->
          (h ∉ listing m w1 <-> now - T > maxAgeMs)
          /\ (now - T > maxAgeMs -> lookup_path (WorkspaceHandle.path h) (tree w1) = None))
    /\ (forall h,
          h ∈ listing m w -> WorkspaceHandle.createdAt h = None -> h ∈ listing m w1)
    /\ (forall h, h ∈ listing m w1 -> h ∈ listing m w)
    /\ n = Z.of_nat (length (listing m w)) - Z.of_nat (length (listing m w1))
    /\ (exists w2, WorkspaceManager.pruneStale m now maxAgeMs w1 = (Returns 0, w2)).
Proof.
  destruct w as [t lg].
  destruct (lookup_path (WorkspaceManager.root m) t) as [[content|children]|] eqn:Hroot.
  2: {
    destruct (prune_outcome now maxAgeMs t lg children Hroot)
      as (t' & lg' & children' & Hrun & Hroot' & Hiff & Hgone).
    exists (Z.of_nat (length (List.filter (stale now maxAgeMs)
                                (listed m t (entries_of children))))),
      {| tree := t'; log := lg' |}.
    rewrite !listing_eq, Hroot, Hroot'. split; [done|]. split; [|split; [|split; [|split]]].
    - intros h T Hin HT. split.
      + rewrite Hiff, <- (stale_iff now maxAgeMs h T HT).
        destruct (stale now maxAgeMs h); split; try done.
        * by intros _ [_ ?].
        * intros Hno. by destruct Hno.
      + intros Hold. simpl. apply Hgone; [done|]. by apply (stale_iff now maxAgeMs h T HT).
    - intros h Hin Hnone. apply Hiff. split; [done|]. unfold stale. by rewrite Hnone.
    - intros h Hin. by apply Hiff in Hin as [? _].
    - assert (listed m t' (entries_of children')
              ≡ₚ List.filter (fun h => negb (stale now maxAgeMs h))
                   (listed m t (entries_of children))) as Hperm.
      { apply NoDup_Permutation; [apply listed_NoDup | apply filter_NoDup, listed_NoDup|].
        intros h. rewrite Hiff. split.
        - intros [Hin Hst]. apply list_elem_of_In, filter_In.
          split; [by apply list_elem_of_In | by rewrite Hst].
        - intros Hin. apply list_elem_of_In, filter_In in Hin as [Hin Hst].
          split; [by apply list_elem_of_In | by destruct (stale now maxAgeMs h)]. }
      rewrite Hperm.
      rewrite (filter_split (stale now maxAgeMs) (listed m t (entries_of children))). lia.
    - destruct (prune_outcome now maxAgeMs t' lg' children' Hroot')
        as (t2 & lg2 & _ & Hrun2 & _).
      exists {| tree := t2; log := lg2 |}. rewrite Hrun2, filter_none; [done|].
      intros h Hin. by apply Hiff in Hin as [_ ?]. }
  all: destruct (list_run t lg) as [lg' Hl];
    pose proof (listing_eq m t lg) as Hnone; rewrite Hroot in Hnone;
    destruct (list_run t lg') as [lg2 Hl2];
    pose proof (listing_eq m t lg') as Hnone2; rewrite Hroot in Hnone2;
    rewrite Hnone in Hl; rewrite Hnone2 in Hl2;
    exists 0, {| tree := t; log := lg' |};
    rewrite !pruneStale_unfold; unfold bind; rewrite Hl, Hl2, Hnone, Hnone2; simpl;
    (split; [done|]); (split; [intros h T Hin; by apply elem_of_nil in Hin|]);
    (split; [intros h Hin; by apply elem_of_nil in Hin|]);
    (split; [done|]); split; [done|eauto].
Qed.

(** C5. [list()] always returns, and leaves the tree as it is.  When the
    managed root is not there, it returns the empty list.  A directory
    under the root whose metadata file is missing or is not JSON gives no
    handle: no listed handle has its path. *)
Theorem list_skips_unreadable_metadata w :
  (exists handles w', WorkspaceManager.list m w = (Returns handles, w') /\ tree w' = tree w)
  /\ (lookup_path (WorkspaceManager.root m) (tree w) = None ->
        exists w', WorkspaceManager.list m w = (Returns [], w'))
  /\ (forall name,
        metadata_unreadable m (tree w) name ->
        forall h, h ∈ listing m w ->
                  WorkspaceHandle.path h <> path_join (WorkspaceManager.root m) name).
Proof.
  destruct w as [t lg]. destruct (list_run t lg) as [lg' Hl]. simpl.
  split; [eauto|]. split.
  - intros Hnone. rewrite Hl, listing_eq, Hnone. eauto.
  - intros name Hbad h Hin Hp. rewrite listing_eq in Hin.
    destruct (lookup_path (WorkspaceManager.root m) t) as [[|children]|];
      try by apply elem_of_nil in Hin.
    apply elem_of_listed in Hin as (k & node & _ & _ & Hh).
    rewrite (handle_of_path _ _ _ _ Hh) in Hp. apply path_join_inj in Hp as ->.
    destruct (handle_of_unreadable m t name Hbad) as [err Herr]. congruence.
Qed.
End Lifecycle.

(** ** Creation and section lookup *)

Section Create.
Context `{JsRuntime}.
Variable m : WorkspaceManager.t.

(** C6. When [create] returns a handle, its [id] is the generated id and
    its sections are the four defaults followed by the additional
    directories; and reading the metadata file back the way [list] does,
    in the world [create] left, gives that same handle: same [id], same
    sections (and same path and creation date).  The one thing asked of
    the runtime is that [JSON.parse] gives back the metadata object that
    [JSON.stringify] was given. *)
Theorem create_then_read_back env taskType options w h w' :
  WorkspaceManager.create m env taskType options w = (Returns h, w') ->
  JSON_parse (JSON_stringify (meta_object (workspace_meta env taskType options)))
  = Returns (meta_object (workspace_meta env taskType options)) ->
  WorkspaceHandle.id h = JStr (workspace_id env taskType)
  /\ WorkspaceHandle.dirs h
     = JArr (JStr <$> WorkspaceManager.DEFAULT_DIRS ++ default [] (additionalDirs options))
  /\ exists h' w'',
       WorkspaceManager.read_handle m (workspace_id env taskType) w' = (Returns h', w'')
       /\ WorkspaceHandle.id h' = WorkspaceHandle.id h
       /\ WorkspaceHandle.dirs h' = WorkspaceHandle.dirs h
       /\ h' = h.
Proof.
  intros Hcreate Hjson. unfold WorkspaceManager.create in Hcreate.
  fold (workspace_id env taskType) in Hcreate.
  set (text := JSON_stringify _) in Hcreate.
  assert (JSON_parse text = Returns (meta_object (workspace_meta env taskType options)))
    as Hparse by exact Hjson.
  clearbody text. unfold bind in Hcreate.
  destruct (Fs.mkdir _ w) as [[[]|?] w1]; [|done].
  destruct (forEach _ _ w1) as [[[]|?] w2]; [|done].
  run_fs in Hcreate.
  simpl in Hcreate.
  destruct (write_file _ _ (tree w2)) as [t'|] eqn:Hwrite; [|done].
  apply write_file_lookup in Hwrite. simplify_eq. simpl.
  split; [done|]. split; [done|].
  unfold WorkspaceManager.read_handle. run_fs. simpl. rewrite Hwrite, Hparse. simpl. eexists _, _. repeat split; reflexivity.
Qed.

(** The creation date of a handle [create] returns is the time read for
    the metadata, when the runtime reads back the dates it writes. *)
Lemma create_records_its_time env taskType options w h w' :
  WorkspaceManager.create m env taskType options w = (Returns h, w') ->
  Date_new (JStr (Date_toISOString (now_for_meta env))) = Some (now_for_meta env) ->
  WorkspaceHandle.createdAt h = Some (now_for_meta env).
Proof.
  intros Hcreate Hdate. unfold WorkspaceManager.create, bind in Hcreate.
  destruct (Fs.mkdir _ w) as [[[]|?] w1]; [|done].
  destruct (forEach _ _ w1) as [[[]|?] w2]; [|done].
  destruct (Fs.writeFile _ _ w2) as [[[]|?] w3]; [|done].
  unfold ret in Hcreate. simplify_eq. exact Hdate.
Qed.
End Create.

Lemma append_cons c s rest : String c s +:+ rest = String c (s +:+ rest).
Proof. reflexivity. Qed.

Lemma append_nil_r s : s +:+ EmptyString = s.
Proof. induction s as [|c s IH]; [done|]. by rewrite append_cons, IH. Qed.

Lemma after_prefix_app pre rest : after_prefix pre (pre +:+ rest) = Some rest.
Proof.
  induction pre as [|c pre IH]; [done|]. rewrite append_cons. simpl.
  by rewrite Ascii.eqb_refl.
Qed.

Lemma String_includes_here needle rest : String_includes (needle +:+ rest) needle = true.
Proof.
  destruct (needle +:+ rest) eqn:Heq; simpl; rewrite <- Heq, after_prefix_app; done.
Qed.

Lemma String_includes_later pre text needle :
  String_includes text needle = true -> String_includes (pre +:+ text) needle = true.
Proof.
  intros Hin. induction pre as [|c pre IH]; [done|]. rewrite append_cons. simpl.
  rewrite IH. by destruct (after_prefix needle (String c (pre +:+ text))).
Qed.

Lemma concat_includes sep names name :
  name ∈ names -> String_includes (String.concat sep names) name = true.
Proof.
  induction names as [|x [|y names] IH]; intros Hin.
  - by apply elem_of_nil in Hin.
  - apply list_elem_of_singleton in Hin as ->. simpl.
    rewrite <- (append_nil_r x) at 1. apply String_includes_here.
  - apply elem_of_cons in Hin as [->|Hin].
    + apply String_includes_here.
    + change (String.concat sep (x :: y :: names))
        with (x +:+ sep +:+ String.concat sep (y :: names)).
      by apply String_includes_later, String_includes_later, IH.
Qed.

Lemma Array_includes_strings names section :
  Array_includes (JStr <$> names) section = true <-> section ∈ names.
Proof.
  unfold Array_includes. rewrite existsb_exists. split.
  - intros (v & Hv & Hs). apply list_elem_of_In, list_elem_of_fmap in Hv as (name & -> & Hin).
    simpl in Hs. by apply String.eqb_eq in Hs as <-.
  - intros Hin. exists (JStr section). split; [|by apply String.eqb_eq].
    apply list_elem_of_In, list_elem_of_fmap. eauto.
Qed.

Section Dir.
Context `{JsRuntime}.

Lemma Array_join_strings sep names :
  Array_join sep (JStr <$> names) = Returns (String.concat sep names).
Proof.
  unfold Array_join.
  assert (map_throwing join_item (JStr <$> names) = Returns names) as ->; [|done].
  induction names as [|x names IH]; [done|]. rewrite fmap_cons. simpl. by rewrite IH.
Qed.

(** C7. A handle whose recorded sections are [names].  For a section that
    is one of them, [dir] returns the path of the section under the path
    of the workspace; [dir] is a function of the handle and the name, it
    has no state to change.  For any other name, [dir] throws the
    unknown-section error, whose message names the section asked for and
    lists every recorded name, in the recorded order; every method of the
    handle that takes a section then ends with that error in the world it
    started from, with no file-system call logged.  The recorded order of
    a handle that [create] returns is the four defaults followed by the
    additional directories. *)
Theorem dir_gates_sections h names section :
  WorkspaceHandle.dirs h = JArr (JStr <$> names) ->
  (section ∈ names ->
     WorkspaceHandle.dir h section = Returns (path_join (WorkspaceHandle.path h) section))
  /\ (section ∉ names ->
        let unknown := Throws (ErrorObj (unknown_section_message section names)) in
        WorkspaceHandle.dir h section = unknown
        /\ (forall name, name ∈ names ->
              String_includes (unknown_section_message section names) name = true)
        /\ (forall filePath content w,
              WorkspaceHandle.handle_writeRaw h section filePath content w
              = (Throws (ErrorObj (unknown_section_message section names)), w))
        /\ (forall filePath data w,
              WorkspaceHandle.handle_writeJson h section filePath data w
              = (Throws (ErrorObj (unknown_section_message section names)), w))
        /\ (forall filePath w,
              WorkspaceHandle.handle_readRaw h section filePath w
              = (Throws (ErrorObj (unknown_section_message section names)), w))
        /\ (forall filePath options w,
              WorkspaceHandle.handle_readJson h section filePath options w
              = (Throws (ErrorObj (unknown_section_message section names)), w))
        /\ (forall filePath options w,
              WorkspaceHandle.handle_readJsonl h section filePath options w
              = (Throws (ErrorObj (unknown_section_message section names)), w))
        /\ (forall filePath options w,
              WorkspaceHandle.handle_readMarkdown h section filePath options w
              = (Throws (ErrorObj (unknown_section_message section names)), w)))
  /\ (forall m env taskType options w created w',
        WorkspaceManager.create m env taskType options w = (Returns created, w') ->
        WorkspaceHandle.dirs created
        = JArr (JStr <$> WorkspaceManager.DEFAULT_DIRS
                         ++ default [] (additionalDirs options))).
Proof.
  intros Hdirs.
  unfold WorkspaceHandle.handle_writeRaw, WorkspaceHandle.handle_writeJson,
    WorkspaceHandle.handle_readRaw, WorkspaceHandle.handle_readJson,
    WorkspaceHandle.handle_readJsonl, WorkspaceHandle.handle_readMarkdown, bind, lift,
    WorkspaceHandle.dir.
  rewrite Hdirs, Array_join_strings.
  pose proof (Array_includes_strings names section) as Hinc.
  split; [|split].
  - intros Hin. apply Hinc in Hin. by rewrite Hin.
  - intros Hnot. destruct (Array_includes (JStr <$> names) section).
    { destruct Hnot. by apply Hinc. }
    cbv zeta. split; [done|]. split; [|by repeat split].
    intros name Hin. unfold unknown_section_message.
    do 5 apply String_includes_later. by apply concat_includes.
  - intros m env taskType options w created w' Hcreate.
    unfold WorkspaceManager.create, bind in Hcreate.
    destruct (Fs.mkdir _ w) as [[[]|?] w1]; [|done].
    destruct (forEach _ _ w1) as [[[]|?] w2]; [|done].
    destruct (Fs.writeFile _ _ w2) as [[[]|?] w3]; [|done].
    unfold ret in Hcreate. by simplify_eq.
Qed.
End Dir.

(** ** More about the file system *)

Lemma rm_rf_gone p : forall t t', rm_rf p t = Some t' -> lookup_path p t' = None.
Proof.
  induction p as [|name rest IH]; intros t t' Hrm; destruct t as [|ch]; try done.
  destruct rest as [|next rest].
  - simpl in Hrm. simplify_eq. simpl. by rewrite lookup_delete_eq.
  - rewrite rm_rf_cons in Hrm by done.
    destruct (ch !! name) as [child|] eqn:Hc.
    + destruct (rm_rf (next :: rest) child) as [child'|] eqn:Hr; [|done]. simplify_eq.
      simpl lookup_path at 1. rewrite lookup_insert_eq. by eapply IH.
    + simplify_eq. simpl. by rewrite Hc.
Qed.

Lemma rm_rf_again p : forall t t', rm_rf p t = Some t' -> rm_rf p t' = Some t'.
Proof.
  induction p as [|name rest IH]; intros t t' Hrm; destruct t as [|ch]; try done.
  destruct rest as [|next rest].
  - simpl in Hrm. simplify_eq. simpl. by rewrite delete_delete_eq.
  - rewrite rm_rf_cons in Hrm by done.
    destruct (ch !! name) as [child|] eqn:Hc.
    + destruct (rm_rf (next :: rest) child) as [child'|] eqn:Hr; [|done]. simplify_eq.
      rewrite rm_rf_cons, lookup_insert_eq, (IH _ _ Hr) by done.
      by rewrite insert_insert_eq.
    + simplify_eq. by rewrite rm_rf_cons, Hc.
Qed.

Lemma mkdir_p_cons name rest children :
  mkdir_p (name :: rest) (Dir children)
  = match mkdir_p rest (default (Dir ∅) (children !! name)) with
    | Some child => Some (Dir (<[name := child]> children))
    | None => None
    end.
Proof. reflexivity. Qed.

Lemma mkdir_p_is_dir p : forall t t', mkdir_p p t = Some t' -> is_dir_at p t'.
Proof.
  induction p as [|name rest IH]; intros t t' Hm; destruct t as [|ch]; try done.
  - simpl in Hm. simplify_eq. by eexists.
  - rewrite mkdir_p_cons in Hm.
    destruct (mkdir_p rest _) as [child|] eqn:Hc; [|done]. simplify_eq.
    destruct (IH _ _ Hc) as [children Hl]. exists children.
    simpl. by rewrite lookup_insert_eq.
Qed.

Lemma lookup_path_empty_dir p n : lookup_path p (Dir ∅) = Some n -> p = [] /\ n = Dir ∅.
Proof. destruct p as [|k p]; simpl; [by intros [= <-]|]. by rewrite lookup_empty. Qed.

(** [mkdir] keeps what is there: files stay the files they were,
    directories stay directories. *)
Lemma mkdir_p_keeps q : forall t t' p n,
  mkdir_p q t = Some t' ->
  lookup_path p t = Some n ->
  exists n', lookup_path p t' = Some n'
             /\ (forall c, n = File c -> n' = File c)
             /\ (Fs.is_dir n = true -> Fs.is_dir n' = true).
Proof.
  induction q as [|name rest IH]; intros t t' p n Hm Hl; destruct t as [|ch]; try done.
  - simpl in Hm. simplify_eq. eauto.
  - rewrite mkdir_p_cons in Hm.
    destruct (mkdir_p rest _) as [child'|] eqn:Hc; [|done]. simplify_eq.
    destruct p as [|k p]; simpl in Hl.
    + simplify_eq. eexists. split; [done|]. split; [done|]. done.
    + destruct (ch !! k) as [child|] eqn:Hk; [|done].
      destruct (decide (name = k)) as [->|Hne].
      * rewrite Hk in Hc. simpl in Hc.
        destruct (IH _ _ _ _ Hc Hl) as (n' & Hl' & Hfile & Hdir).
        exists n'. simpl. by rewrite lookup_insert_eq.
      * exists n. simpl. rewrite lookup_insert_ne, Hk by done. done.
Qed.

Lemma mkdir_p_keeps_dirs q t t' p :
  mkdir_p q t = Some t' -> is_dir_at p t -> is_dir_at p t'.
Proof.
  intros Hm [children Hl]. destruct (mkdir_p_keeps _ _ _ _ _ Hm Hl) as (n' & Hl' & _ & Hdir).
  destruct n' as [|children']; [by specialize (Hdir eq_refl)|]. by exists children'.
Qed.

Lemma mkdir_p_keeps_files q t t' p c :
  mkdir_p q t = Some t' ->
  lookup_path p t = Some (File c) -> lookup_path p t' = Some (File c).
Proof.
  intros Hm Hl. destruct (mkdir_p_keeps _ _ _ _ _ Hm Hl) as (n' & Hl' & Hfile & _).
  by rewrite Hl', (Hfile c eq_refl).
Qed.

(** [mkdir] makes no file. *)
Lemma mkdir_p_no_new_files q : forall t t' p c,
  mkdir_p q t = Some t' ->
  lookup_path p t' = Some (File c) -> lookup_path p t = Some (File c).
Proof.
  induction q as [|name rest IH]; intros t t' p c Hm Hl; destruct t as [|ch]; try done.
  - simpl in Hm. by simplify_eq.
  - rewrite mkdir_p_cons in Hm.
    destruct (mkdir_p rest _) as [child'|] eqn:Hc; [|done]. simplify_eq.
    destruct p as [|k p]; simpl in Hl; [done|]. simpl.
    destruct (decide (name = k)) as [->|Hne].
    + rewrite lookup_insert_eq in Hl. pose proof (IH _ _ _ _ Hc Hl) as Hl0.
      destruct (ch !! k) as [child|]; [done|]. simpl in Hl0.
      by apply lookup_path_empty_dir in Hl0 as [_ ?].
    + by rewrite lookup_insert_ne in Hl.
Qed.

Lemma mkdir_p_existing p : forall t, is_dir_at p t -> mkdir_p p t = Some t.
Proof.
  induction p as [|name rest IH]; intros t [children Hl]; destruct t as [|ch]; try done.
  rewrite mkdir_p_cons. simpl in Hl.
  destruct (ch !! name) as [child|] eqn:Hc; [|done]. simpl.
  rewrite (IH child) by (by exists children). by rewrite insert_id.
Qed.

Lemma write_file_cons name rest content children :
  rest <> [] ->
  write_file (name :: rest) content (Dir children)
  = match children !! name with
    | None => None
    | Some child =>
        match write_file rest content child with
        | Some child' => Some (Dir (<[name := child']> children))
        | None => None
        end
    end.
Proof. by destruct rest. Qed.

Lemma write_file_gives_dir q content t t' :
  write_file q content t = Some t' -> exists children, t' = Dir children.
Proof.
  destruct t as [|ch]; destruct q as [|name rest]; try done.
  destruct rest as [|next rest].
  - simpl. destruct (ch !! name) as [[]|]; intros; simplify_eq; by eexists.
  - rewrite write_file_cons by done. destruct (ch !! name); [|done].
    destruct (write_file _ _ _); intros; simplify_eq; by eexists.
Qed.

(** [writeFile] keeps every directory. *)
Lemma write_file_keeps_dirs q content : forall t t' p,
  write_file q content t = Some t' -> is_dir_at p t -> is_dir_at p t'.
Proof.
  induction q as [|name rest IH]; intros t t' p Hw [children Hl]; destruct t as [|ch];
    try done.
  destruct p as [|k p].
  { destruct (write_file_gives_dir _ _ _ _ Hw) as [children' ->]. by eexists. }
  simpl in Hl. destruct (ch !! k) as [child|] eqn:Hk; [|done].
  destruct rest as [|next rest].
  - simpl in Hw. destruct (decide (name = k)) as [->|Hne].
    + rewrite Hk in Hw. destruct child as [old|]; [|done]. by destruct p.
    + assert (t' = Dir (<[name := File content]> ch)) as ->
        by (destruct (ch !! name) as [[]|]; by simplify_eq).
      exists children. simpl. by rewrite lookup_insert_ne, Hk.
  - rewrite write_file_cons in Hw by done.
    destruct (ch !! name) as [child0|] eqn:Hn; [|done].
    destruct (write_file (next :: rest) content child0) as [child'|] eqn:Hc; [|done].
    simplify_eq. destruct (decide (name = k)) as [->|Hne].
    + simplify_eq. destruct (IH _ _ p Hc) as [children' Hl']; [by exists children|].
      exists children'. simpl. by rewrite lookup_insert_eq.
    + exists children. simpl. by rewrite lookup_insert_ne, Hk.
Qed.

(** [writeFile] succeeds in a directory, on a name that is no directory. *)
Lemma write_file_succeeds dir name content : forall t,
  is_dir_at dir t ->
  (forall children, lookup_path (dir ++ [name]) t <> Some (Dir children)) ->
  exists t', write_file (dir ++ [name]) content t = Some t'.
Proof.
  induction dir as [|d dir IH]; intros t [children Hl] Hfree; destruct t as [|ch]; try done.
  - simpl in *. destruct (ch !! name) as [[|sub]|] eqn:Hn; eauto.
    by destruct (Hfree sub).
  - simpl in Hl. destruct (ch !! d) as [child|] eqn:Hd; [|done].
    rewrite <- app_comm_cons, write_file_cons, Hd by (by destruct dir).
    destruct (IH child) as [child' Hw]; [by exists children| |].
    + intros sub Hsub. apply (Hfree sub). simpl. by rewrite Hd.
    + rewrite Hw. eauto.
Qed.

(** What is not [q] keeps its file. *)
Lemma write_file_keeps_other_files q content : forall t t' p c,
  write_file q content t = Some t' -> p <> q ->
  lookup_path p t = Some (File c) -> lookup_path p t' = Some (File c).
Proof.
  induction q as [|name rest IH]; intros t t' p c Hw Hne Hl; destruct t as [|ch]; try done.
  destruct p as [|k p]; [done|]. simpl in Hl.
  destruct (ch !! k) as [child|] eqn:Hk; [|done].
  destruct rest as [|next rest].
  - simpl in Hw. destruct (decide (name = k)) as [->|Hnk].
    + rewrite Hk in Hw. destruct child as [old|]; [|done].
      destruct p; [done|done].
    + assert (t' = Dir (<[name := File content]> ch)) as ->
        by (destruct (ch !! name) as [[]|]; by simplify_eq).
      simpl. by rewrite lookup_insert_ne, Hk.
  - rewrite write_file_cons in Hw by done.
    destruct (ch !! name) as [child0|] eqn:Hn; [|done].
    destruct (write_file (next :: rest) content child0) as [child'|] eqn:Hc; [|done].
    simplify_eq. simpl. destruct (decide (name = k)) as [->|Hnk].
    + simplify_eq. rewrite lookup_insert_eq. eapply IH; [done| |done]. congruence.
    + by rewrite lookup_insert_ne, Hk.
Qed.

Lemma only_new_directories_refl t : only_new_directories t t.
Proof. by split. Qed.

Lemma only_new_directories_trans t1 t2 t3 :
  only_new_directories t1 t2 -> only_new_directories t2 t3 -> only_new_directories t1 t3.
Proof.
  intros [Hd1 Hf1] [Hd2 Hf2]. split; [by auto|].
  intros p c. by rewrite Hf2, Hf1.
Qed.

Lemma mkdir_p_only_new_directories p t t' :
  mkdir_p p t = Some t' -> only_new_directories t t'.
Proof.
  intros Hm. split.
  - intros q. by apply mkdir_p_keeps_dirs with p.
  - intros q c. split; [by apply mkdir_p_no_new_files with p | by apply mkdir_p_keeps_files with p].
Qed.

(** ** The file-system calls, run *)

Lemma mkdir_run p w :
  Fs.mkdir p w
  = match mkdir_p p (tree w) with
    | Some t' => (Returns tt, {| tree := t'; log := log w ++ [FsMkdir p] |})
    | None => (Throws Fs.EEXIST, {| tree := tree w; log := log w ++ [FsMkdir p] |})
    end.
Proof. run_fs. simpl. by destruct (mkdir_p p (tree w)). Qed.

Lemma writeFile_run p content w :
  Fs.writeFile p content w
  = match write_file p content (tree w) with
    | Some t' => (Returns tt, {| tree := t'; log := log w ++ [FsWriteFile p content] |})
    | None => (Throws (Fs.writeFile_error p (tree w)),
               {| tree := tree w; log := log w ++ [FsWriteFile p content] |})
    end.
Proof. run_fs. simpl. by destruct (write_file p content (tree w)). Qed.

Lemma rm_run p w :
  Fs.rm p w
  = match rm_rf p (tree w) with
    | Some t' => (Returns tt, {| tree := t'; log := log w ++ [FsRm p] |})
    | None => (Throws Fs.ENOTDIR, {| tree := tree w; log := log w ++ [FsRm p] |})
    end.
Proof. run_fs. simpl. by destruct (rm_rf p (tree w)). Qed.

Lemma mkdir_only_new_directories p w r w' :
  Fs.mkdir p w = (r, w') -> only_new_directories (tree w) (tree w').
Proof.
  rewrite mkdir_run. destruct (mkdir_p p (tree w)) as [t'|] eqn:Hm; intros; simplify_eq; simpl.
  - by apply mkdir_p_only_new_directories with p.
  - apply only_new_directories_refl.
Qed.

Lemma mkdir_loop_only_new_directories base dirs : forall w r w',
  forEach dirs (fun dir => Fs.mkdir (path_join base dir)) w = (r, w') ->
  only_new_directories (tree w) (tree w').
Proof.
  induction dirs as [|d dirs IH]; intros w r w' Hloop; simpl in Hloop.
  - unfold ret in Hloop. simplify_eq. apply only_new_directories_refl.
  - unfold bind in Hloop.
    destruct (Fs.mkdir (path_join base d) w) as [[[]|err] w1] eqn:Hm.
    + eapply only_new_directories_trans; [by eapply mkdir_only_new_directories|by eapply IH].
    + simplify_eq. by eapply mkdir_only_new_directories.
Qed.

Lemma mkdir_loop_made base dirs : forall w w' d,
  forEach dirs (fun dir => Fs.mkdir (path_join base dir)) w = (Returns tt, w') ->
  d ∈ dirs -> is_dir_at (path_join base d) (tree w').
Proof.
  induction dirs as [|d0 dirs IH]; intros w w' d Hloop Hd; [by apply elem_of_nil in Hd|].
  simpl in Hloop. unfold bind in Hloop.
  destruct (Fs.mkdir (path_join base d0) w) as [[[]|err] w1] eqn:Hm; [|done].
  apply elem_of_cons in Hd as [->|Hd]; [|by eapply IH].
  apply mkdir_loop_only_new_directories in Hloop as [Hdirs _]. apply Hdirs.
  rewrite mkdir_run in Hm. destruct (mkdir_p _ (tree w)) as [t1|] eqn:Hp; [|done].
  simplify_eq. simpl. by eapply mkdir_p_is_dir.
Qed.

Section CreateFacts.
Context `{JsRuntime}.
Variable m : WorkspaceManager.t.

(** What a [create] that returns has done. *)
Lemma create_returns env taskType options w h w' :
  WorkspaceManager.create m env taskType options w = (Returns h, w') ->
  let workspacePath := path_join (WorkspaceManager.root m) (workspace_id env taskType) in
  let meta := workspace_meta env taskType options in
  h = WorkspaceHandle.mk (JStr (workspace_id env taskType)) workspacePath
        (JArr (JStr <$> meta_dirs meta)) (Date_new (JStr (meta_createdAt meta)))
  /\ exists t1 t2,
       mkdir_p workspacePath (tree w) = Some t1
       /\ only_new_directories t1 t2
       /\ (forall d, d ∈ meta_dirs meta -> is_dir_at (path_join workspacePath d) t2)
       /\ write_file (path_join workspacePath WorkspaceManager.META_FILE)
            (JSON_stringify (meta_object meta)) t2 = Some (tree w').
Proof.
  intros Hcreate. unfold WorkspaceManager.create in Hcreate.
  fold (workspace_id env taskType) in Hcreate.
  set (text := JSON_stringify _) in Hcreate.
  assert (text = JSON_stringify (meta_object (workspace_meta env taskType options)))
    as Htext by reflexivity.
  clearbody text. unfold bind in Hcreate.
  rewrite mkdir_run in Hcreate.
  destruct (mkdir_p _ (tree w)) as [t1|] eqn:Hm1; [|done].
  match type of Hcreate with
  | context [forEach ?ds ?body ?w1] => destruct (forEach ds body w1) as [[[]|?] w2] eqn:Hloop
  end; [|done].
  rewrite writeFile_run in Hcreate.
  destruct (write_file _ _ (tree w2)) as [t3|] eqn:Hw; [|done].
  unfold ret in Hcreate. simplify_eq. simpl. split; [done|].
  exists t1, (tree w2). split; [done|]. split.
  { by apply mkdir_loop_only_new_directories in Hloop. }
  split; [|done]. intros d Hd. by eapply mkdir_loop_made.
Qed.

(** A [create] that throws has made directories at most. *)
Lemma create_throws env taskType options w err w' :
  WorkspaceManager.create m env taskType options w = (Throws err, w') ->
  only_new_directories (tree w) (tree w').
Proof.
  intros Hcreate. unfold WorkspaceManager.create in Hcreate.
  set (text := JSON_stringify _) in Hcreate. clearbody text. unfold bind in Hcreate.
  destruct (Fs.mkdir _ w) as [[[]|?] w1] eqn:Hm1.
  2:{ simplify_eq. by eapply mkdir_only_new_directories. }
  apply mkdir_only_new_directories in Hm1.
  match type of Hcreate with
  | context [forEach ?ds ?body ?w1] => destruct (forEach ds body w1) as [[[]|?] w2] eqn:Hloop
  end.
  2:{ simplify_eq. eapply only_new_directories_trans; [done|].
      by eapply mkdir_loop_only_new_directories. }
  apply mkdir_loop_only_new_directories in Hloop.
  rewrite writeFile_run in Hcreate.
  destruct (write_file _ _ (tree w2)) as [t3|] eqn:Hw; [done|].
  simplify_eq. simpl. by eapply only_new_directories_trans.
Qed.
End CreateFacts.

(** ** More about the manager *)

Lemma is_dir_at_child dir name t :
  is_dir_at (path_join dir name) t
  <-> exists children sub,
        lookup_path dir t = Some (Dir children) /\ children !! name = Some (Dir sub).
Proof.
  unfold is_dir_at, path_join. setoid_rewrite lookup_path_app. split.
  - intros [sub Hl]. destruct (lookup_path dir t) as [[|children]|]; try done.
    simpl in Hl. destruct (children !! name) as [node|] eqn:Hn; [|done].
    simplify_eq. eauto.
  - intros (children & sub & -> & Hn). exists sub. simpl. by rewrite Hn.
Qed.

Lemma file_in_directory dir name t content :
  lookup_path (path_join dir name) t = Some (File content) -> is_dir_at dir t.
Proof.
  unfold path_join. rewrite lookup_path_app.
  destruct (lookup_path dir t) as [[|children]|] eqn:Hdir; try done. by exists children.
Qed.

Section ListingFacts.
Context `{JsRuntime}.
Variable m : WorkspaceManager.t.

(** A listed handle is one read from a directory of the root. *)
Lemma elem_of_listing t lg h :
  h ∈ listing m {| tree := t; log := lg |}
  <-> exists name,
        is_dir_at (path_join (WorkspaceManager.root m) name) t
        /\ handle_of m t name = Returns h.
Proof.
  rewrite listing_eq. split.
  - destruct (lookup_path (WorkspaceManager.root m) t) as [[|children]|] eqn:Hroot;
      try (by intros ?%elem_of_nil).
    intros (name & node & Hn & Hd & Hh)%elem_of_listed. exists name. split; [|done].
    apply is_dir_at_child. destruct node as [|sub]; [done|]. eauto.
  - intros (name & (children & sub & Hroot & Hn)%is_dir_at_child & Hh). rewrite Hroot.
    apply elem_of_listed. exists name, (Dir sub). done.
Qed.

(** A handle is read from a metadata file, and from its text alone. *)
Lemma handle_of_returns t name h :
  handle_of m t name = Returns h ->
  exists text, lookup_path (metadata_path m name) t = Some (File text)
               /\ exists meta, JSON_parse text = Returns meta.
Proof.
  unfold handle_of, WorkspaceManager.read_handle. run_fs. simpl. fold (metadata_path m name).
  destruct (lookup_path (metadata_path m name) t) as [[text|]|]; simpl; try done.
  destruct (JSON_parse text) as [meta|] eqn:Hparse; simpl; [|done]. eauto.
Qed.

Lemma handle_of_same_file t t' name text :
  lookup_path (metadata_path m name) t = Some (File text) ->
  lookup_path (metadata_path m name) t' = Some (File text) ->
  handle_of m t name = handle_of m t' name.
Proof. intros Ht Ht'. apply handle_of_ext. fold (metadata_path m name). by rewrite Ht, Ht'. Qed.

Lemma metadata_path_inj name name' : metadata_path m name = metadata_path m name' -> name = name'.
Proof.
  unfold metadata_path, path_join. intros [Heq _]%app_inj_tail.
  by apply app_inj_tail in Heq as [_ ?].
Qed.

Lemma listed_paths_NoDup t (l : list (string * Node)) :
  NoDup l.*1 ->
  NoDup (WorkspaceHandle.path
           <$> listed m t (map (fun entry => {| Fs.name := fst entry;
                                                Fs.isDirectory := Fs.is_dir (snd entry) |}) l)).
Proof.
  induction l as [|[name node] l IH]; intros Hnd; [constructor|].
  apply NoDup_cons in Hnd as [Hname Hnd]. specialize (IH Hnd).
  change (listed m t (map _ ((name, node) :: l)))
    with ((if Fs.is_dir node
           then match handle_of m t name with Returns h => [h] | Throws _ => [] end
           else [])
          ++ listed m t (map (fun entry => {| Fs.name := fst entry;
                                              Fs.isDirectory := Fs.is_dir (snd entry) |}) l)).
  destruct (Fs.is_dir node); [|done].
  destruct (handle_of m t name) as [h|] eqn:Hh; [|done].
  simpl. apply NoDup_cons. split; [|done].
  intros (h2 & Hp & Hin)%list_elem_of_fmap.
  apply listed_names in Hin as (name2 & Hin & Hp2).
  apply handle_of_path in Hh. rewrite Hh, Hp2 in Hp.
  apply path_join_inj in Hp as ->. done.
Qed.

(** X1. [list] gives each directory of the root at most once: the paths
    of the handles are pairwise distinct, and each is a directory of the
    root whose metadata file holds text that [JSON.parse] accepts. *)
Theorem list_gives_each_directory_once w :
  NoDup (WorkspaceHandle.path <$> listing m w)
  /\ (forall h, h ∈ listing m w ->
        exists name text meta,
          WorkspaceHandle.path h = path_join (WorkspaceManager.root m) name
          /\ is_dir_at (WorkspaceHandle.path h) (tree w)
          /\ lookup_path (path_join (WorkspaceHandle.path h) WorkspaceManager.META_FILE)
               (tree w) = Some (File text)
          /\ JSON_parse text = Returns meta).
Proof.
  destruct w as [t lg]. split.
  - rewrite listing_eq.
    destruct (lookup_path (WorkspaceManager.root m) t) as [[|children]|]; try constructor.
    apply listed_paths_NoDup, NoDup_fst_map_to_list.
  - intros h (name & Hdir & Hh)%elem_of_listing.
    destruct (handle_of_returns _ _ _ Hh) as (text & Hfile & meta & Hparse).
    apply handle_of_path in Hh. exists name, text, meta. rewrite Hh. done.
Qed.

(** X2. [cleanup] removes the directory of the handle, and can be called
    again: the second call returns as well and changes nothing. *)
Theorem cleanup_twice h w w1 :
  WorkspaceManager.cleanup m h w = (Returns tt, w1) ->
  lookup_path (WorkspaceHandle.path h) (tree w1) = None
  /\ exists w2, WorkspaceManager.cleanup m h w1 = (Returns tt, w2) /\ tree w2 = tree w1.
Proof.
  unfold WorkspaceManager.cleanup. rewrite !rm_run.
  destruct (rm_rf _ (tree w)) as [t1|] eqn:Hrm; [|done]. intros [= <-]. simpl.
  split; [by eapply rm_rf_gone|].
  rewrite (rm_rf_again _ _ _ Hrm). eauto.
Qed.

(** X3. [cleanup] of a listed handle takes that handle, and no other, out
    of the listing. *)
Theorem cleanup_removes_one_workspace h w :
  h ∈ listing m w ->
  exists w1,
    WorkspaceManager.cleanup m h w = (Returns tt, w1)
    /\ (forall h', h' ∈ listing m w1 <-> h' ∈ listing m w /\ h' <> h).
Proof.
  destruct w as [t lg]. intros Hin.
  pose proof Hin as (name & Hdir & Hh)%elem_of_listing.
  apply is_dir_at_child in Hdir as (children & sub & Hroot & Hsub).
  pose proof (handle_of_path _ _ _ _ Hh) as Hpath.
  destruct (rm_rf_child (WorkspaceManager.root m) name t children Hroot) as (t1 & Hrm & Hroot1).
  unfold WorkspaceManager.cleanup. rewrite rm_run, Hpath. simpl.
  unfold path_join at 1. rewrite Hrm. eexists. split; [done|].
  intros h'. rewrite !elem_of_listing. split.
  - intros (name' & (children1 & sub' & Hr1 & Hsub')%is_dir_at_child & Hh').
    rewrite Hroot1 in Hr1. simplify_eq.
    destruct (decide (name' = name)) as [->|Hne]; [by rewrite lookup_delete_eq in Hsub'|].
    rewrite lookup_delete_ne in Hsub' by done.
    assert (handle_of m t name' = Returns h') as Hh0.
    { rewrite <- Hh'. apply handle_of_ext.
      rewrite (meta_lookup m t children name' Hroot),
        (meta_lookup m t1 _ name' Hroot1), lookup_delete_ne; done. }
    split.
    + exists name'. split; [|done]. apply is_dir_at_child. eauto.
    + intros ->. apply handle_of_path in Hh0. rewrite Hpath in Hh0.
      by apply path_join_inj in Hh0.
  - intros [(name' & (children0 & sub' & Hr0 & Hsub')%is_dir_at_child & Hh') Hne].
    rewrite Hroot in Hr0. simplify_eq.
    assert (name' <> name) as Hnn by (intros ->; congruence).
    exists name'. split.
    + apply is_dir_at_child. exists (delete name children0), sub'.
      by rewrite lookup_delete_ne.
    + rewrite <- Hh'. apply handle_of_ext.
      rewrite (meta_lookup m t children0 name' Hroot),
        (meta_lookup m t1 _ name' Hroot1), lookup_delete_ne; done.
Qed.

(** X4. When [create] returns, the workspace is the directory of the root
    named by its id; that directory is there, and so is one directory for
    each section, the four defaults and the
    additional ones: [dir] resolves each of them to a directory, and the
    four accessors name directories.  The metadata file holds the record
    written, and the files that were there before are untouched. *)
Theorem create_makes_every_section env taskType options w h w' :
  WorkspaceManager.create m env taskType options w = (Returns h, w') ->
  WorkspaceHandle.path h = path_join (WorkspaceManager.root m) (workspace_id env taskType)
  /\ is_dir_at (WorkspaceHandle.path h) (tree w')
  /\ (forall section,
        section ∈ WorkspaceManager.DEFAULT_DIRS ++ default [] (additionalDirs options) ->
        exists d, WorkspaceHandle.dir h section = Returns d /\ is_dir_at d (tree w'))
  /\ (is_dir_at (WorkspaceHandle.inputDir h) (tree w')
      /\ is_dir_at (WorkspaceHandle.outputDir h) (tree w')
      /\ is_dir_at (WorkspaceHandle.resourcesDir h) (tree w')
      /\ is_dir_at (WorkspaceHandle.scratchDir h) (tree w'))
  /\ lookup_path (path_join (WorkspaceHandle.path h) WorkspaceManager.META_FILE) (tree w')
     = Some (File (JSON_stringify (meta_object (workspace_meta env taskType options))))
  /\ (forall p content,
        p <> path_join (WorkspaceHandle.path h) WorkspaceManager.META_FILE ->
        lookup_path p (tree w) = Some (File content) ->
        lookup_path p (tree w') = Some (File content)).
Proof.
  intros (-> & t1 & t2 & Hm1 & [Hdirs Hfiles] & Hmade & Hw)%create_returns.
  assert (forall section,
             section ∈ WorkspaceManager.DEFAULT_DIRS ++ default [] (additionalDirs options) ->
             is_dir_at (path_join (path_join (WorkspaceManager.root m)
                                     (workspace_id env taskType)) section) (tree w'))
    as Hsections.
  { intros section Hs. eapply write_file_keeps_dirs; [done|]. by apply Hmade. }
  split; [done|]. split; [|split; [|split; [|split]]].
  - eapply write_file_keeps_dirs; [done|]. apply Hdirs. by eapply mkdir_p_is_dir.
  - intros section Hs. eexists. split; [|by apply Hsections].
    assert (Array_includes (JStr <$> meta_dirs (workspace_meta env taskType options)) section
            = true) as Hinc by (by apply Array_includes_strings).
    unfold WorkspaceHandle.dir, WorkspaceHandle.dirs. by rewrite Hinc.
  - unfold WorkspaceHandle.inputDir, WorkspaceHandle.outputDir,
      WorkspaceHandle.resourcesDir, WorkspaceHandle.scratchDir. simpl.
    repeat split; apply Hsections; apply elem_of_app; left;
      unfold WorkspaceManager.DEFAULT_DIRS; repeat constructor.
  - by eapply write_file_lookup.
  - intros p content Hp Hl. eapply write_file_keeps_other_files; [done|done|].
    apply Hfiles. by eapply mkdir_p_keeps_files.
Qed.

(** X5. A [create] that throws has written no file: the files are the
    ones there were, every directory is still there, and the listing has
    the same handles.  (Directories made before the failure stay.) *)
Theorem failed_create_writes_no_file env taskType options w err w' :
  WorkspaceManager.create m env taskType options w = (Throws err, w') ->
  (forall p content,
     lookup_path p (tree w') = Some (File content) <-> lookup_path p (tree w) = Some (File content))
  /\ (forall p, is_dir_at p (tree w) -> is_dir_at p (tree w'))
  /\ (forall h, h ∈ listing m w' <-> h ∈ listing m w).
Proof.
  intros [Hdirs Hfiles]%create_throws. split; [done|]. split; [done|].
  destruct w as [t lg], w' as [t' lg']. simpl in *.
  intros h. rewrite !elem_of_listing. split.
  - intros (name & Hdir & Hh). exists name.
    destruct (handle_of_returns _ _ _ Hh) as (text & Hfile & _).
    pose proof (proj1 (Hfiles _ _) Hfile) as Hfile0. split.
    + by eapply file_in_directory.
    + rewrite <- Hh. by eapply handle_of_same_file.
  - intros (name & Hdir & Hh). exists name. split; [by apply Hdirs|].
    destruct (handle_of_returns _ _ _ Hh) as (text & Hfile & _).
    rewrite <- Hh. eapply handle_of_same_file; [|done]. by apply Hfiles.
Qed.

(** X6. After [create] has returned a handle, [list] has it, and has
    every handle it had for another directory, when the id is one name
    (the task type has no path separator); asked of the runtime is that
    [JSON.parse] gives back the metadata object [JSON.stringify] was
    given. *)
Theorem create_adds_to_listing env taskType options w h w' :
  WorkspaceManager.create m env taskType options w = (Returns h, w') ->
  single_name (workspace_id env taskType) = true ->
  JSON_parse (JSON_stringify (meta_object (workspace_meta env taskType options)))
  = Returns (meta_object (workspace_meta env taskType options)) ->
  h ∈ listing m w'
  /\ (forall h', h' ∈ listing m w ->
        WorkspaceHandle.path h' <> WorkspaceHandle.path h -> h' ∈ listing m w').
Proof.
  intros (-> & t1 & t2 & Hm1 & [Hdirs Hfiles] & Hmade & Hw)%create_returns _ Hjson.
  destruct w as [t lg], w' as [t' lg']. simpl in *. split.
  - apply elem_of_listing. exists (workspace_id env taskType). split.
    + eapply write_file_keeps_dirs; [done|]. apply Hdirs. by eapply mkdir_p_is_dir.
    + apply write_file_lookup in Hw.
      unfold handle_of, WorkspaceManager.read_handle. run_fs. simpl.
      rewrite Hw. simpl. rewrite Hjson. reflexivity.
  - intros h' (name & Hdir & Hh)%elem_of_listing Hne.
    apply elem_of_listing. exists name. split.
    + eapply write_file_keeps_dirs; [done|]. apply Hdirs. by eapply mkdir_p_keeps_dirs.
    + destruct (handle_of_returns _ _ _ Hh) as (text & Hfile & _).
      rewrite <- Hh. symmetry. eapply handle_of_same_file; [done|].
      eapply write_file_keeps_other_files; [done| |].
      * intros Heq. apply Hne. apply handle_of_path in Hh. rewrite Hh.
        change (metadata_path m name = metadata_path m (workspace_id env taskType)) in Heq.
        by apply metadata_path_inj in Heq as ->.
      * apply Hfiles. by eapply mkdir_p_keeps_files.
Qed.
End ListingFacts.

(** ** More about strings *)

Lemma append_assoc (a b c : string) : (a +:+ b) +:+ c = a +:+ b +:+ c.
Proof. induction a as [|x a IH]; [done|]. by rewrite !append_cons, IH. Qed.

Lemma length_append (a b : string) :
  String.length (a +:+ b) = (String.length a + String.length b)%nat.
Proof. induction a as [|x a IH]; [done|]. rewrite append_cons. simpl. by rewrite IH. Qed.

Lemma substring_append_r (a b : string) i k :
  String.substring (String.length a + i) k (a +:+ b) = String.substring i k b.
Proof. induction a as [|x a IH]; [done|]. rewrite append_cons. simpl. apply IH. Qed.

Lemma String_endsWith_append (a b suffix : string) :
  (String.length suffix <= String.length b)%nat ->
  String_endsWith (a +:+ b) suffix = String_endsWith b suffix.
Proof.
  intros Hle. unfold String_endsWith. rewrite length_append.
  replace (String.length a + String.length b - String.length suffix)%nat
    with (String.length a + (String.length b - String.length suffix))%nat by lia.
  rewrite substring_append_r.
  destruct (Nat.leb_spec (String.length suffix) (String.length b)); [|lia].
  destruct (Nat.leb_spec (String.length suffix) (String.length a + String.length b)); [done|lia].
Qed.

Lemma String_endsWith_newline (a : string) :
  String_endsWith (a +:+ newline_string) newline_string = true.
Proof. by rewrite String_endsWith_append. Qed.

(** A line has no newline when splitting it gives the line itself. *)
Lemma split_newline_line (line rest : string) :
  split_newline line = [line] ->
  split_newline (line +:+ String newline rest) = line :: split_newline rest.
Proof.
  induction line as [|c line IH]; [done|].
  rewrite append_cons. simpl.
  destruct (Ascii.eqb c newline) eqn:Hc; [done|].
  destruct (split_newline line) as [|first lines] eqn:Hsplit.
  - intros [= <-]. by simpl in Hsplit.
  - intros [= -> ->]. by rewrite IH.
Qed.

Lemma nonempty_lines_concat (lines : list string) :
  Forall (fun line => line <> EmptyString /\ split_newline line = [line]) lines ->
  nonempty_lines (String.concat newline_string lines) = lines.
Proof.
  unfold nonempty_lines.
  induction 1 as [|line lines [Hne Hline] Hlines IH]; [done|].
  assert ((0 < String.length line)%nat) as Hlen by (destruct line; [done|simpl; lia]).
  destruct lines as [|next lines].
  - simpl. rewrite Hline. by rewrite filter_cons_True.
  - change (String.concat newline_string (line :: next :: lines))
      with (line +:+ String newline (String.concat newline_string (next :: lines))).
    rewrite split_newline_line by done.
    by rewrite filter_cons_True, IH.
Qed.

Lemma after_prefix_none_append pre : forall a b,
  (String.length pre <= String.length a)%nat ->
  after_prefix pre a = None -> after_prefix pre (a +:+ b) = None.
Proof.
  induction pre as [|x pre IH]; intros a b Hlen Hnone; [done|].
  destruct a as [|y a]; [simpl in Hlen; lia|].
  rewrite append_cons. simpl in *. destruct (Ascii.eqb x y); [|done].
  apply IH; [lia|done].
Qed.

Lemma split_at_fence_here (text rest : string) :
  after_prefix fence_close text = Some rest -> split_at_fence text = Some (EmptyString, rest).
Proof. destruct text; [done|]. intros Hhere. unfold split_at_fence. by rewrite Hhere. Qed.

Lemma String_includes_cons c (haystack needle : string) :
  String_includes (String c haystack) needle
  = match after_prefix needle (String c haystack) with
    | Some _ => true
    | None => String_includes haystack needle
    end.
Proof. reflexivity. Qed.

Lemma split_at_fence_cons c (text : string) :
  split_at_fence (String c text)
  = match after_prefix fence_close (String c text) with
    | Some rest => Some (EmptyString, rest)
    | None =>
        match split_at_fence text with
        | Some (front, rest) => Some (String c front, rest)
        | None => None
        end
    end.
Proof. reflexivity. Qed.

(** The closing fence is found where the writer put it, when there is
    none before. *)
Lemma split_at_fence_first (front rest : string) :
  String_includes (front +:+ String newline "---") fence_close = false ->
  split_at_fence (front +:+ fence_close +:+ rest) = Some (front, rest).
Proof.
  induction front as [|c front IH]; intros Hnone.
  - change (EmptyString +:+ fence_close +:+ rest) with (fence_close +:+ rest).
    apply split_at_fence_here, after_prefix_app.
  - rewrite append_cons, String_includes_cons in Hnone.
    destruct (after_prefix fence_close (String c (front +:+ String newline "---")))
      eqn:Hfirst; [done|].
    assert (after_prefix fence_close (String c (front +:+ fence_close +:+ rest)) = None)
      as Hhere.
    { change (fence_close +:+ rest)
        with (String newline "---" +:+ (String newline rest)).
      rewrite <- append_assoc, <- append_cons.
      apply after_prefix_none_append; [|by rewrite ?append_cons].
      rewrite ?append_cons. simpl String.length. rewrite ?length_append. simpl. lia. }
    rewrite append_cons, split_at_fence_cons, Hhere. by rewrite IH.
Qed.

(** ** Readers and writers on the tree *)

Lemma path_dirname_join dir name : path_dirname (path_join dir name) = dir.
Proof. apply removelast_last. Qed.

Lemma readFile_run p w :
  Fs.readFile p w = (file_at (tree w) p, after_call w (FsReadFile p)).
Proof.
  unfold file_at, after_call. run_fs. simpl. by destruct (lookup_path p (tree w)) as [[]|].
Qed.

Lemma dir_returns `{JsRuntime} h section d :
  WorkspaceHandle.dir h section = Returns d -> d = path_join (WorkspaceHandle.path h) section.
Proof.
  unfold WorkspaceHandle.dir. destruct (WorkspaceHandle.dirs h); try done.
  - destruct (String_includes s section); [|done]. by intros [= <-].
  - destruct (Array_includes items section); [by intros [= <-]|].
    by destruct (Array_join _ _).
Qed.

Lemma lift_bind_run {A B} (o : Outcome A) (k : A -> Eff World B) w :
  bind (lift o) k w = match o with Returns a => k a w | Throws err => (Throws err, w) end.
Proof. by destruct o. Qed.

Section ReaderFacts.
Context `{JsRuntime}.

Lemma readJson_run dir filePath options w :
  readJson Fs.readFile dir filePath options w
  = (match file_at (tree w) (path_join dir filePath) with
     | Returns text =>
         match JSON_parse text with
         | Returns data => checked_json options data
         | Throws err => Throws err
         end
     | Throws err => Throws err
     end, after_call w (FsReadFile (path_join dir filePath))).
Proof.
  unfold readJson, bind. rewrite readFile_run.
  destruct (file_at _ _) as [text|]; [|done]. unfold lift, checked_json.
  destruct (JSON_parse text) as [data|]; [|done].
  by destruct (options ≫= json_schema).
Qed.

Lemma readJsonl_run dir filePath options w :
  readJsonl Fs.readFile dir filePath options w
  = (match file_at (tree w) (path_join dir filePath) with
     | Returns text =>
         match map_throwing (readJsonl_line options)
                 (imap pair (nonempty_lines (String_trimEnd text))) with
         | Returns items => Returns (JArr items)
         | Throws err => Throws err
         end
     | Throws err => Throws err
     end, after_call w (FsReadFile (path_join dir filePath))).
Proof.
  unfold readJsonl, bind. rewrite readFile_run.
  destruct (file_at _ _) as [text|]; [|done]. unfold lift, nonempty_lines.
  by destruct (map_throwing _ _).
Qed.

Lemma readMarkdown_run dir filePath options w :
  readMarkdown Fs.readFile dir filePath options w
  = (match file_at (tree w) (path_join dir filePath) with
     | Returns text =>
         match match_frontmatter text with
         | Some (front, body) =>
             match yamlParse front with
             | Returns parsed =>
                 match checked_frontmatter options parsed with
                 | Returns frontmatter => Returns (markdown_object frontmatter body)
                 | Throws err => Throws err
                 end
             | Throws err => Throws err
             end
         | None =>
             match checked_frontmatter options (JObj []) with
             | Returns frontmatter => Returns (markdown_object frontmatter text)
             | Throws err => Throws err
             end
         end
     | Throws err => Throws err
     end, after_call w (FsReadFile (path_join dir filePath))).
Proof.
  unfold readMarkdown, bind. rewrite readFile_run.
  destruct (file_at _ _) as [text|]; [|done]. unfold checked_frontmatter, lift, ret.
  destruct (match_frontmatter text) as [[front body]|].
  - destruct (yamlParse front) as [parsed|]; [|done].
    destruct (options ≫= frontmatterSchema) as [sch|]; [|done]. by destruct (parse sch parsed).
  - destruct (options ≫= frontmatterSchema) as [sch|]; [|done]. by destruct (parse sch _).
Qed.

Lemma readRaw_run dir filePath w :
  readRaw Fs.readFile dir filePath w
  = (match file_at (tree w) (path_join dir filePath) with
     | Returns text => Returns (JStr text)
     | Throws err => Throws err
     end, after_call w (FsReadFile (path_join dir filePath))).
Proof.
  unfold readRaw, bind. rewrite readFile_run. by destruct (file_at _ _).
Qed.

Lemma json_at_eq t dir name options lg :
  readJson Fs.readFile dir name options {| tree := t; log := lg |}
  = (json_at t dir name options,
     {| tree := t; log := lg ++ [FsReadFile (path_join dir name)] |}).
Proof. unfold json_at. by rewrite !readJson_run. Qed.

(** ** The lines of a JSONL file *)

Lemma lines_all_read options (g : nat -> string -> nat * string) lines values :
  (forall i line, snd (g i line) = line) ->
  Forall2 (line_value options) lines values ->
  map_throwing (readJsonl_line options) (imap g lines) = Returns values.
Proof.
  intros Hg Hall. revert g Hg.
  induction Hall as [|line v lines values (data & Hparse & Hv) _ IH]; intros g Hg; [done|].
  rewrite imap_cons. simpl. rewrite (IH (g ∘ S)) by (intros; apply Hg).
  specialize (Hg 0%nat line). destruct (g 0%nat line) as [index line']. simpl in Hg. subst line'.
  unfold readJsonl_line. rewrite Hparse.
  destruct (options ≫= json_schema) as [sch|]; [by rewrite Hv|by subst].
Qed.

Lemma lines_first_failure options (g : nat -> string -> nat * string) k
    before line after values err :
  (forall i l, g i l = ((k + i)%nat, l)) ->
  Forall2 (line_value options) before values ->
  readJsonl_line options ((k + length before)%nat, line) = Throws err ->
  map_throwing (readJsonl_line options) (imap g (before ++ line :: after)) = Throws err.
Proof.
  intros Hg Hall. revert g k Hg.
  induction Hall as [|x v before values (data & Hparse & Hv) _ IH]; intros g k Hg Hline.
  - simpl app. rewrite imap_cons, Hg. simpl. simpl in Hline.
    by rewrite Hline.
  - simpl app. rewrite imap_cons. simpl.
    rewrite (IH (g ∘ S) (S k)).
    + rewrite Hg. unfold readJsonl_line. rewrite Hparse.
      destruct (options ≫= json_schema) as [sch|]; [by rewrite Hv|done].
    + intros i l. simpl. rewrite Hg. f_equal. lia.
    + simpl in Hline. by replace (S k + length before)%nat with (k + S (length before))%nat by lia.
Qed.

(** X7. [readJsonl] gives the values of the lines that are not empty, in
    order, when each is JSON and passes the schema. *)
Theorem readJsonl_reads_every_nonempty_line dir filePath options t text values :
  lookup_path (path_join dir filePath) t = Some (File text) ->
  Forall2 (line_value options) (nonempty_lines (String_trimEnd text)) values ->
  reads (readJsonl Fs.readFile dir filePath options) t (Returns (JArr values))
    [FsReadFile (path_join dir filePath)].
Proof.
  intros Hfile Hall lg. rewrite readJsonl_run. unfold file_at, after_call. simpl.
  rewrite Hfile. by rewrite (lines_all_read options pair _ values).
Qed.

(** X8. The first line [readJsonl] cannot take decides the outcome: text
    that is not JSON throws what [JSON.parse] throws, as it is; a value
    the schema rejects, with an error whose text can be read, throws
    [JSONL validation failed at line N] with that text, where [N] counts
    the lines that are not empty, from one; and when the text of what the
    schema threw cannot be read, what reading it throws is thrown, as it
    is, with no line number. *)
Theorem readJsonl_reports_the_line dir filePath options t text before line after values :
  lookup_path (path_join dir filePath) t = Some (File text) ->
  nonempty_lines (String_trimEnd text) = before ++ line :: after ->
  Forall2 (line_value options) before values ->
  (forall err,
     JSON_parse line = Throws err ->
     reads (readJsonl Fs.readFile dir filePath options) t (Throws err)
       [FsReadFile (path_join dir filePath)])
  /\ (forall data sch err message,
        JSON_parse line = Returns data ->
        options ≫= json_schema = Some sch ->
        parse sch data = Throws err ->
        errorText err = Returns message ->
        reads (readJsonl Fs.readFile dir filePath options) t
          (Throws (ErrorObj ("JSONL validation failed at line "
                             +:+ pretty (Z.of_nat (length before) + 1) +:+ ": "
                             +:+ message)))
          [FsReadFile (path_join dir filePath)])
  /\ (forall data sch err raised,
        JSON_parse line = Returns data ->
        options ≫= json_schema = Some sch ->
        parse sch data = Throws err ->
        errorText err = Throws raised ->
        reads (readJsonl Fs.readFile dir filePath options) t (Throws raised)
          [FsReadFile (path_join dir filePath)]).
Proof.
  intros Hfile Hlines Hall. split; [|split].
  - intros err Hparse lg. rewrite readJsonl_run. unfold file_at, after_call. simpl.
    rewrite Hfile, Hlines.
    rewrite (lines_first_failure options pair 0 before line after values err); try done.
    unfold readJsonl_line. by rewrite Hparse.
  - intros data sch err message Hparse Hsch Hrej Htext lg. rewrite readJsonl_run.
    unfold file_at, after_call. simpl. rewrite Hfile, Hlines.
    erewrite (lines_first_failure options pair 0 before line after values); try done.
    unfold readJsonl_line. by rewrite Hparse, Hsch, Hrej, Htext.
  - intros data sch err raised Hparse Hsch Hrej Htext lg. rewrite readJsonl_run.
    unfold file_at, after_call. simpl. rewrite Hfile, Hlines.
    erewrite (lines_first_failure options pair 0 before line after values); try done.
    unfold readJsonl_line. by rewrite Hparse, Hsch, Hrej, Htext.
Qed.
End ReaderFacts.

(** ** Writers *)

(** What the two calls of a writer do, when they return. *)
Lemma write_returns dir filePath content w w1 :
  (Fs.mkdir (path_dirname (path_join dir filePath)) ;;
   Fs.writeFile (path_join dir filePath) content) w = (Returns tt, w1) ->
  lookup_path (path_join dir filePath) (tree w1) = Some (File content)
  /\ (forall p, is_dir_at p (tree w) -> is_dir_at p (tree w1))
  /\ is_dir_at dir (tree w1)
  /\ (forall p text,
        p <> path_join dir filePath ->
        lookup_path p (tree w) = Some (File text) ->
        lookup_path p (tree w1) = Some (File text))
  /\ log w1 = log w ++ [FsMkdir dir; FsWriteFile (path_join dir filePath) content].
Proof.
  unfold bind. rewrite path_dirname_join, mkdir_run.
  destruct (mkdir_p dir (tree w)) as [t1|] eqn:Hm; [|done].
  rewrite writeFile_run. simpl.
  destruct (write_file _ content t1) as [t2|] eqn:Hw; [|done].
  intros [= <-]. simpl. split; [by eapply write_file_lookup|].
  split; [|split; [|split]].
  - intros p Hp. eapply write_file_keeps_dirs; [done|]. by eapply mkdir_p_keeps_dirs.
  - eapply write_file_keeps_dirs; [done|]. by eapply mkdir_p_is_dir.
  - intros p text Hne Hp. eapply write_file_keeps_other_files; [done|done|].
    by eapply mkdir_p_keeps_files.
  - by rewrite <- app_assoc.
Qed.

Lemma write_succeeds dir filePath content w :
  is_dir_at dir (tree w) ->
  (forall children, lookup_path (path_join dir filePath) (tree w) <> Some (Dir children)) ->
  exists w1,
    (Fs.mkdir (path_dirname (path_join dir filePath)) ;;
     Fs.writeFile (path_join dir filePath) content) w = (Returns tt, w1).
Proof.
  intros Hdir Hfree. unfold bind.
  rewrite path_dirname_join, mkdir_run, (mkdir_p_existing _ _ Hdir), writeFile_run. simpl.
  destruct (write_file_succeeds dir filePath content (tree w) Hdir Hfree) as [t' Hw].
  unfold path_join. rewrite Hw. eauto.
Qed.

Section WriterFacts.
Context `{JsRuntime} `{JsWriterRuntime}.

(** The text each writer writes. *)
Lemma writeRaw_eq dir filePath content :
  writeRaw dir filePath content
  = (Fs.mkdir (path_dirname (path_join dir filePath)) ;;
     Fs.writeFile (path_join dir filePath) content).
Proof. reflexivity. Qed.

Lemma writeJson_eq dir filePath data :
  writeJson dir filePath data
  = (Fs.mkdir (path_dirname (path_join dir filePath)) ;;
     Fs.writeFile (path_join dir filePath) (JSON_stringify data +:+ newline_string)).
Proof. reflexivity. Qed.

Lemma writeJsonl_eq dir filePath items :
  writeJsonl dir filePath items
  = (Fs.mkdir (path_dirname (path_join dir filePath)) ;;
     Fs.writeFile (path_join dir filePath)
       (joined_lines (map JSON_stringify_line items) +:+ newline_string)).
Proof. reflexivity. Qed.

Lemma writeMarkdown_eq dir filePath doc :
  writeMarkdown dir filePath doc
  = (Fs.mkdir (path_dirname (path_join dir filePath)) ;;
     Fs.writeFile (path_join dir filePath) (markdown_text doc)).
Proof. reflexivity. Qed.

(** X9. In a section that is a directory, the four writers return for a
    file name that is one name, unless the target is a directory. *)
Theorem writing_succeeds_in_a_section h section d filePath w :
  WorkspaceHandle.dir h section = Returns d ->
  single_name filePath = true ->
  is_dir_at d (tree w) ->
  (forall children, lookup_path (path_join d filePath) (tree w) <> Some (Dir children)) ->
  (forall content,
     exists w1, WorkspaceHandle.handle_writeRaw h section filePath content w = (Returns tt, w1))
  /\ (forall data,
        exists w1, WorkspaceHandle.handle_writeJson h section filePath data w = (Returns tt, w1))
  /\ (forall items,
        exists w1, handle_writeJsonl h section filePath items w = (Returns tt, w1))
  /\ (forall doc,
        exists w1, handle_writeMarkdown h section filePath doc w = (Returns tt, w1)).
Proof.
  intros Hd _ Hdir Hfree.
  unfold WorkspaceHandle.handle_writeRaw, WorkspaceHandle.handle_writeJson,
    handle_writeJsonl, handle_writeMarkdown.
  split; [|split; [|split]]; intros ?; rewrite lift_bind_run, Hd.
  - rewrite writeRaw_eq. by apply write_succeeds.
  - rewrite writeJson_eq. by apply write_succeeds.
  - rewrite writeJsonl_eq. by apply write_succeeds.
  - rewrite writeMarkdown_eq. by apply write_succeeds.
Qed.

(** X10. A writer that returns, for a file name that is one name, has made
    two calls and written one file: the file holds the text of the
    writer, the section is a directory, every other file is as it was and
    every directory is still there. *)
Theorem writers_write_one_file h section d filePath w :
  WorkspaceHandle.dir h section = Returns d ->
  single_name filePath = true ->
  let written (text : string) (w1 : World) :=
    lookup_path (path_join d filePath) (tree w1) = Some (File text)
    /\ is_dir_at d (tree w1)
    /\ (forall p, is_dir_at p (tree w) -> is_dir_at p (tree w1))
    /\ (forall p other,
          p <> path_join d filePath ->
          lookup_path p (tree w) = Some (File other) ->
          lookup_path p (tree w1) = Some (File other))
    /\ log w1 = log w ++ [FsMkdir d; FsWriteFile (path_join d filePath) text] in
  (forall content w1,
     WorkspaceHandle.handle_writeRaw h section filePath content w = (Returns tt, w1) ->
     written content w1)
  /\ (forall data w1,
        WorkspaceHandle.handle_writeJson h section filePath data w = (Returns tt, w1) ->
        written (JSON_stringify data +:+ newline_string) w1)
  /\ (forall items w1,
        handle_writeJsonl h section filePath items w = (Returns tt, w1) ->
        written (joined_lines (map JSON_stringify_line items) +:+ newline_string) w1)
  /\ (forall doc w1,
        handle_writeMarkdown h section filePath doc w = (Returns tt, w1) ->
        written (markdown_text doc) w1).
Proof.
  intros Hd _. cbv zeta.
  unfold WorkspaceHandle.handle_writeRaw, WorkspaceHandle.handle_writeJson,
    handle_writeJsonl, handle_writeMarkdown.
  split; [|split; [|split]]; intros ? w'; rewrite lift_bind_run, Hd;
    intros (? & ? & ? & ? & ?)%write_returns; done.
Qed.

(** What a handle method that returns has found. *)
Lemma handle_method_returns {A} h section (k : Path -> Eff World A) w a w1 :
  bind (lift (WorkspaceHandle.dir h section)) k w = (Returns a, w1) ->
  WorkspaceHandle.dir h section = Returns (path_join (WorkspaceHandle.path h) section)
  /\ k (path_join (WorkspaceHandle.path h) section) w = (Returns a, w1).
Proof.
  rewrite lift_bind_run. destruct (WorkspaceHandle.dir h section) as [d|] eqn:Hd; [|done].
  by rewrite (dir_returns _ _ _ Hd).
Qed.

(** X11. What [writeRaw] wrote, [readRaw] reads. *)
Theorem write_then_read_raw h section filePath content w w1 :
  WorkspaceHandle.handle_writeRaw h section filePath content w = (Returns tt, w1) ->
  WorkspaceHandle.handle_readRaw h section filePath w1
  = (Returns (JStr content),
     after_call w1 (FsReadFile (path_join (path_join (WorkspaceHandle.path h) section)
                                  filePath))).
Proof.
  intros [Hd (Hfile & _)%write_returns]%handle_method_returns.
  unfold WorkspaceHandle.handle_readRaw. rewrite lift_bind_run, Hd, readRaw_run.
  unfold file_at. by rewrite Hfile.
Qed.

(** X12. What [writeJson] wrote, [readJson] reads: the value [JSON.parse]
    makes of the text written, passed through the schema when there is
    one. *)
Theorem write_then_read_json h section filePath data options w w1 :
  WorkspaceHandle.handle_writeJson h section filePath data w = (Returns tt, w1) ->
  fst (WorkspaceHandle.handle_readJson h section filePath options w1)
  = match JSON_parse (JSON_stringify data +:+ newline_string) with
    | Returns parsed => checked_json options parsed
    | Throws err => Throws err
    end.
Proof.
  intros [Hd (Hfile & _)%write_returns]%handle_method_returns.
  unfold WorkspaceHandle.handle_readJson. rewrite lift_bind_run, Hd, readJson_run.
  unfold file_at. by rewrite Hfile.
Qed.

Lemma join_of_lines (items : list JsValue) (lines : list string) :
  Forall2 (fun item line => JSON_stringify_line item = Some line) items lines ->
  joined_lines (map JSON_stringify_line items) = String.concat newline_string lines.
Proof.
  unfold joined_lines. intros Hall. f_equal.
  induction Hall as [|item line items lines Hline _ IH]; [done|].
  simpl. by rewrite Hline, IH.
Qed.

(** X13. What [writeJsonl] wrote, [readJsonl] reads, one value for each
    item: asked is that [JSON.stringify] gives each item one line of
    text, not empty, and that [trimEnd] takes the final newline off and
    no more. *)
Theorem write_then_read_jsonl h section filePath items lines values options w w1 :
  handle_writeJsonl h section filePath items w = (Returns tt, w1) ->
  Forall2 (fun item line => JSON_stringify_line item = Some line) items lines ->
  Forall (fun line => line <> EmptyString /\ split_newline line = [line]) lines ->
  String_trimEnd (String.concat newline_string lines +:+ newline_string)
  = String.concat newline_string lines ->
  Forall2 (line_value options) lines values ->
  fst (WorkspaceHandle.handle_readJsonl h section filePath options w1)
  = Returns (JArr values)
  /\ length values = length items.
Proof.
  intros [Hd (Hfile & _)%write_returns]%handle_method_returns Hlines Hplain Htrim Hvalues.
  split.
  - unfold WorkspaceHandle.handle_readJsonl. rewrite lift_bind_run, Hd, readJsonl_run.
    unfold file_at. rewrite Hfile. simpl.
    rewrite (join_of_lines items lines Hlines), Htrim, (nonempty_lines_concat lines Hplain).
    by rewrite (lines_all_read options pair lines values).
  - apply Forall2_length in Hlines, Hvalues. congruence.
Qed.

Lemma markdown_text_with_frontmatter doc :
  truthy (MarkdownDocument.frontmatter doc)
  && (0 <? Object_keys_length (MarkdownDocument.frontmatter doc))%nat = true ->
  markdown_text doc
  = fence_open +:+ String_trimEnd (yamlStringify (MarkdownDocument.frontmatter doc))
    +:+ fence_close +:+ newline_string
    +:+ match MarkdownDocument.body doc with
        | EmptyString => EmptyString
        | body => with_final_newline body
        end.
Proof.
  intros Hfm. unfold markdown_text. rewrite Hfm.
  set (yaml := String_trimEnd _).
  destruct (MarkdownDocument.body doc) as [|c body] eqn:Hbody.
  - rewrite append_nil_r.
    replace (fence_open +:+ yaml +:+ fence_close +:+ newline_string)
      with ((fence_open +:+ yaml +:+ fence_close) +:+ newline_string)
      by (by rewrite !append_assoc).
    rewrite String_endsWith_newline. by rewrite !append_assoc, ?append_nil_r.
  - unfold with_final_newline. rewrite String_endsWith_append by (simpl; lia).
    destruct (String_endsWith (String c body) newline_string); by rewrite ?append_assoc.
Qed.

(** X14. A document with frontmatter, written by [writeMarkdown], is read
    back by [readMarkdown] with the frontmatter [yaml] makes of the text
    written and with the body, which has got a final newline unless it
    is empty.  Asked is that the YAML text has no line [---] of its
    own. *)
Theorem write_then_read_markdown h section filePath doc options w w1 :
  handle_writeMarkdown h section filePath doc w = (Returns tt, w1) ->
  truthy (MarkdownDocument.frontmatter doc)
  && (0 <? Object_keys_length (MarkdownDocument.frontmatter doc))%nat = true ->
  let yaml := String_trimEnd (yamlStringify (MarkdownDocument.frontmatter doc)) in
  String_includes (yaml +:+ String newline "---") fence_close = false ->
  fst (WorkspaceHandle.handle_readMarkdown h section filePath options w1)
  = match yamlParse yaml with
    | Returns parsed =>
        match checked_frontmatter options parsed with
        | Returns frontmatter =>
            Returns (markdown_object frontmatter
                       match MarkdownDocument.body doc with
                       | EmptyString => EmptyString
                       | body => with_final_newline body
                       end)
        | Throws err => Throws err
        end
    | Throws err => Throws err
    end.
Proof.
  intros [Hd (Hfile & _)%write_returns]%handle_method_returns Hfm yaml Hfence.
  unfold WorkspaceHandle.handle_readMarkdown. rewrite lift_bind_run, Hd, readMarkdown_run.
  unfold file_at. rewrite Hfile. simpl. rewrite (markdown_text_with_frontmatter doc Hfm).
  fold yaml. set (body := match MarkdownDocument.body doc with
                          | EmptyString => EmptyString
                          | body => with_final_newline body
                          end).
  assert (match_frontmatter (fence_open +:+ yaml +:+ fence_close +:+ newline_string +:+ body)
          = Some (yaml, body)) as ->; [|done].
  unfold match_frontmatter. rewrite after_prefix_app.
  rewrite (split_at_fence_first yaml (newline_string +:+ body) Hfence).
  reflexivity.
Qed.

(** X15. A document without frontmatter ([null], [undefined], or
    with no key) is written as its body alone, with a final newline; read
    back, the frontmatter is the empty object and the body is the text
    written, unless the body itself opens with a frontmatter block. *)
Theorem write_then_read_plain_markdown h section filePath doc options w w1 :
  handle_writeMarkdown h section filePath doc w = (Returns tt, w1) ->
  truthy (MarkdownDocument.frontmatter doc)
  && (0 <? Object_keys_length (MarkdownDocument.frontmatter doc))%nat = false ->
  match_frontmatter (with_final_newline (MarkdownDocument.body doc)) = None ->
  lookup_path (path_join (path_join (WorkspaceHandle.path h) section) filePath) (tree w1)
  = Some (File (with_final_newline (MarkdownDocument.body doc)))
  /\ fst (WorkspaceHandle.handle_readMarkdown h section filePath options w1)
     = match checked_frontmatter options (JObj []) with
       | Returns frontmatter =>
           Returns (markdown_object frontmatter
                      (with_final_newline (MarkdownDocument.body doc)))
       | Throws err => Throws err
       end.
Proof.
  intros [Hd (Hfile & _)%write_returns]%handle_method_returns Hfm Hplain.
  assert (markdown_text doc = with_final_newline (MarkdownDocument.body doc)) as Htext.
  { unfold markdown_text. by rewrite Hfm. }
  rewrite Htext in Hfile. split; [done|].
  unfold WorkspaceHandle.handle_readMarkdown. rewrite lift_bind_run, Hd, readMarkdown_run.
  unfold file_at. rewrite Hfile. simpl. by rewrite Hplain.
Qed.
End WriterFacts.

(** ** More about validation *)

Section MoreValidationFacts.
Context `{JsRuntime}.
Variable disk : DirState.

Lemma result_of_clean r es :
  result_of r es = Returns {| valid := true; errors := [] |} <-> r = Returns tt /\ es = [].
Proof.
  destruct r as [[]|err]; simpl; split.
  - by intros [= _ ->].
  - by intros [_ ->].
  - done.
  - by intros [? _].
Qed.

Lemma result_of_errors r es result :
  result_of r es = Returns result ->
  errors result = es /\ valid result = (length es =? 0)%nat.
Proof. destruct r as [[]|err]; simpl; [|done]. by intros [= <-]. Qed.

Lemma handled_not_clean f label err es :
  result_of (handled err) (es ++ pushed_for f label err)
  <> Returns {| valid := true; errors := [] |}.
Proof.
  rewrite result_of_clean.
  destruct (pushed_for_cases f label err) as [(text & _ & -> & ->)|(raised & _ & -> & ->)].
  - intros [_ Hnil]. by apply app_eq_nil in Hnil as [_ ?].
  - by intros [? _].
Qed.

(** X16. A file that is there but cannot be decoded (it cannot be read, or
    its text is not of its format) gets the one error [Failed to read
    file], with the text of what was thrown; its schema and its callback
    are not called.  This is so for the file spec on its own and anywhere
    in an [OutputSpec]: in the steps, when the run gets to it, and in the
    errors, when the run returns.  When the text of what was thrown cannot
    be read, the run throws what reading it throws, after the same two
    steps. *)
Theorem unreadable_file_is_one_read_error outputDir f err before after :
  present disk outputDir f ->
  decoded disk outputDir f = Throws err ->
  let whole := validateOutput disk outputDir {| files := before ++ f :: after |} in
  let pre := validateOutput disk outputDir {| files := before |} in
  let post := validateOutput disk outputDir {| files := after |} in
  let touched :=
    [FsAccess (path_join outputDir (path f)); FsReadFile (path_join outputDir (path f))] in
  (forall text,
     errorText err = Returns text ->
     let failure := ValidationError.mk (path f) ("Failed to read file: " +:+ text) in
     alone disk outputDir f = (Returns {| valid := false; errors := [failure] |}, touched)
     /\ (returns (fst whole) <-> returns (fst pre) /\ returns (fst post))
     /\ (returns (fst whole) -> reported whole = reported pre ++ [failure] ++ reported post)
     /\ (returns (fst pre) -> steps whole = steps pre ++ touched ++ steps post))
  /\ (forall raised,
        errorText err = Throws raised ->
        alone disk outputDir f = (Throws raised, touched)
        /\ (returns (fst pre) -> whole = (Throws raised, steps pre ++ touched))).
Proof.
  intros Hpresent Hdecoded. cbv zeta.
  pose proof (alone_eq disk outputDir f _ _ _
                (check_file_unreadable disk outputDir f err Hpresent Hdecoded)) as Halone.
  unfold handled, pushed_for in Halone. split.
  - intros text Htext. rewrite Htext in Halone. simpl in Halone.
    split; [done|]. exact (around_returned disk outputDir before f after _ _ Halone).
  - intros raised Hraised. rewrite Hraised in Halone. simpl in Halone.
    split; [done|]. intros [result Hpre]. rewrite validateOutput_around.
    rewrite (and_then_thrown (alone disk outputDir f) _ raised) by (by rewrite Halone).
    unfold and_then. rewrite Hpre, Halone. simpl. by unfold steps.
Qed.

(** One file spec is validated to no error exactly when nothing is wrong
    with its file. *)
Lemma accepted_iff_acceptable outputDir f :
  fst (alone disk outputDir f) = Returns {| valid := true; errors := [] |}
  <-> acceptable disk outputDir f.
Proof.
  destruct (present_or_absent disk outputDir f) as [Hpresent|Habsent].
  2:{ pose proof Habsent as [err Herr].
      rewrite (alone_eq disk outputDir f _ _ _ (check_file_absent disk outputDir f err Herr)).
      simpl. split.
      - destruct (required f) eqn:Hreq; [done|]. intros _. by left.
      - intros [[_ ->]|[Hpresent _]]; [done|].
        by destruct (present_not_absent disk outputDir f). }
  destruct (decoded disk outputDir f) as [content|err] eqn:Hdecoded.
  2:{ rewrite (alone_eq disk outputDir f _ _ _
                 (check_file_unreadable disk outputDir f err Hpresent Hdecoded)). simpl.
      split.
      - intros Hclean. by destruct (handled_not_clean f "Failed to read file: " err []).
      - intros [[Habsent _]|[_ (content & Hc & _)]]; [|congruence].
        by destruct (present_not_absent disk outputDir f). }
  assert (acceptable disk outputDir f
          <-> (forall sch, schema f = Some sch -> schema_accepts (format f) sch content)
              /\ (forall predicate, validate f = Some predicate ->
                    callback_accepts predicate content)) as ->.
  { split.
    - intros [[Habsent _]|[_ (content' & Hc & Hsch & Hpred)]].
      + by destruct (present_not_absent disk outputDir f).
      + assert (content' = content) as -> by congruence. done.
    - intros [Hsch Hpred]. right. split; [done|]. by exists content. }
  (* the schema block *)
  assert ((exists parsed,
             appends (check_schema f content) (Returns tt) []
               (CallSchemaParse (path f) <$> parsed)
             /\ forall sch, schema f = Some sch -> schema_accepts (format f) sch content)
          \/ (exists sch err, schema f = Some sch
                              /\ schema_rejects (format f) sch content err)) as [Hok|Hbad].
  { destruct (schema f) as [sch|] eqn:Hsch.
    - destruct (schema_accepts_or_rejects (format f) sch content) as [Hacc|[err Hrej]].
      + left. destruct (check_schema_accepts f sch content Hsch Hacc) as [parsed Hp].
        exists parsed. split; [done|]. by intros ? [= <-].
      + right. eauto.
    - left. exists []. split; [by apply check_schema_none|done]. }
  2:{ destruct Hbad as (sch & err & Hsch & Hrej). split.
      - intros Hclean. exfalso.
        destruct (check_schema_rejects f sch content err Hsch Hrej) as [parsed H1].
        destruct (pushed_for_cases f "Schema validation failed: " err)
          as [(text & _ & Hh & Hp)|(raised & _ & Hh & Hp)]; rewrite Hh, Hp in H1.
        + destruct (check_custom_appends f content) as (r2 & es2 & H2 & _).
          rewrite (alone_eq disk outputDir f _ _ _
                     (check_file_decoded disk outputDir f content _ _ _ _ _
                        Hpresent Hdecoded H1 H2)) in Hclean.
          simpl in Hclean. apply result_of_errors in Hclean as [Herrors _].
          simpl in Herrors. done.
        + rewrite (alone_eq disk outputDir f _ _ _
                     (check_file_schema_throws disk outputDir f content _ _ _
                        Hpresent Hdecoded H1)) in Hclean.
          by destruct (handled_not_clean f "Failed to read file: " raised []).
      - intros [Hacc _]. by destruct (schema_accepts_not_rejects f sch content err (Hacc sch Hsch)). }
  destruct Hok as (parsed & H1 & Hacc).
  destruct (validate f) as [predicate|] eqn:Hv.
  2:{ pose proof (check_custom_none f content Hv) as H2.
      rewrite (alone_eq disk outputDir f _ _ _
                 (check_file_decoded disk outputDir f content _ _ _ _ _
                    Hpresent Hdecoded H1 H2)). simpl. done. }
  destruct (await (predicate content)) as [v|err] eqn:Hawait.
  - pose proof (check_custom_returned f predicate content v Hv Hawait) as H2.
    rewrite (alone_eq disk outputDir f _ _ _
               (check_file_decoded disk outputDir f content _ _ _ _ _
                  Hpresent Hdecoded H1 H2)). simpl. rewrite app_nil_r.
    split.
    + intros Hclean. split; [done|]. intros p [= <-]. exists v. split; [done|].
      intros ->. simpl in Hclean. done.
    + intros [_ Hpred]. destruct (Hpred predicate eq_refl) as (v' & Hv' & Hne).
      assert (v' = v) as -> by congruence.
      destruct (strictly_false v) eqn:Hsf; [by apply strictly_false_iff in Hsf|done].
  - pose proof (check_custom_threw f predicate content err Hv Hawait) as H2.
    split.
    + intros Hclean. exfalso.
      destruct (pushed_for_cases f "Custom validation threw: " err)
        as [(text & _ & Hh & Hp)|(raised & _ & Hh & Hp)]; rewrite Hh, Hp in H2.
      * rewrite (alone_eq disk outputDir f _ _ _
                   (check_file_decoded disk outputDir f content _ _ _ _ _
                      Hpresent Hdecoded H1 H2)) in Hclean.
        simpl in Hclean. done.
      * rewrite (alone_eq disk outputDir f _ _ _
                   (check_file_decoded disk outputDir f content _ _ _ _ _
                      Hpresent Hdecoded H1 H2)) in Hclean.
        by destruct (handled_not_clean f "Failed to read file: " raised []).
    + intros [_ Hpred]. destruct (Hpred predicate eq_refl) as (v' & Hv' & _). congruence.
Qed.

Lemma run_clean outputDir fs :
  fst (validateOutput disk outputDir {| files := fs |})
  = Returns {| valid := true; errors := [] |}
  <-> Forall (acceptable disk outputDir) fs.
Proof.
  induction fs as [|f fs IH]; [by split; [constructor|]|].
  rewrite Forall_cons, <- IH, <- accepted_iff_acceptable, validateOutput_cons.
  destruct (check_file_appends disk outputDir f) as (r & es & ts & Hf & _).
  destruct (loop_appends disk outputDir fs) as (r' & es' & ts' & Hl).
  rewrite (alone_eq disk _ _ _ _ _ Hf), (run_eq disk _ _ _ _ _ Hl).
  unfold and_then. simpl. destruct r as [[]|err]; simpl; [|by split; [|intros [? _]]].
  destruct r' as [[]|err]; simpl; [|by split; [|intros [_ ?]]].
  split.
  - intros [= _ [-> ->]%app_eq_nil]. done.
  - by intros [[= _ ->] [= _ ->]].
Qed.

Lemma run_result outputDir fs result :
  fst (validateOutput disk outputDir {| files := fs |}) = Returns result ->
  valid result = (length (errors result) =? 0)%nat.
Proof.
  destruct (loop_appends disk outputDir fs) as (r & es & ts & Hl).
  rewrite (run_eq disk _ _ _ _ _ Hl). simpl.
  intros [-> ->]%result_of_errors. done.
Qed.

(** X17. A result is valid exactly when nothing is wrong with any of the
    declared files, and exactly when it has no error; and when nothing is
    wrong with any of the declared files, the run returns the valid
    result. *)
Theorem valid_iff_every_file_acceptable outputDir spec :
  (forall result,
     fst (validateOutput disk outputDir spec) = Returns result ->
     (valid result = true <-> Forall (acceptable disk outputDir) (files spec))
     /\ (valid result = true <-> errors result = []))
  /\ (Forall (acceptable disk outputDir) (files spec) ->
      fst (validateOutput disk outputDir spec) = Returns {| valid := true; errors := [] |}).
Proof.
  destruct spec as [fs]. simpl. split; [|apply run_clean].
  intros result Hrun. pose proof (run_result outputDir fs result Hrun) as Hvalid.
  assert (valid result = true <-> errors result = []) as Hnone
    by (by rewrite Hvalid, Nat.eqb_eq, length_zero_iff_nil).
  split; [|done]. rewrite <- run_clean, Hrun. split.
  - intros Htrue. f_equal. destruct result as [b es]. simpl in *.
    apply Hnone in Htrue as Hes. by subst.
  - by intros [= ->].
Qed.

(** X18. On a JSONL file the schema is asked about the items in order, and
    not at all about the items after the first one it rejects.  When the
    text of what the item was rejected with can be read, the error is the
    one of that item, and the callback is still called, once, with the
    whole array.  When it cannot be read, the callback is not called, and
    the file spec gets the error [Failed to read file] with the text of
    what reading it threw, or the run throws. *)
Theorem jsonl_schema_stops_at_first_rejection outputDir f sch accepted item rest err :
  present disk outputDir f ->
  format f = jsonl ->
  schema f = Some sch ->
  decoded disk outputDir f = Returns (JArr (accepted ++ item :: rest)) ->
  Forall (fun x => exists v, parse sch x = Returns v) accepted ->
  parse sch item = Throws err ->
  let asked :=
    [FsAccess (path_join outputDir (path f)); FsReadFile (path_join outputDir (path f))]
    ++ (CallSchemaParse (path f) <$> accepted ++ [item]) in
  (forall text,
     errorText err = Returns text ->
     let failure := ValidationError.mk (path f) ("Schema validation failed: " +:+ text) in
     steps (alone disk outputDir f) = asked ++ validate_call f (JArr (accepted ++ item :: rest))
     /\ (forall result,
           fst (alone disk outputDir f) = Returns result ->
           exists more, errors result = failure :: more)
     /\ (validate f = None ->
         fst (alone disk outputDir f) = Returns {| valid := false; errors := [failure] |}))
  /\ (forall raised,
        errorText err = Throws raised ->
        steps (alone disk outputDir f) = asked
        /\ (forall text,
              errorText raised = Returns text ->
              fst (alone disk outputDir f)
              = Returns {| valid := false;
                           errors := [ValidationError.mk (path f)
                                        ("Failed to read file: " +:+ text)] |})
        /\ (forall raised',
              errorText raised = Throws raised' ->
              fst (alone disk outputDir f) = Throws raised')).
Proof.
  intros Hpresent Hfmt Hsch Hdecoded Hacc Hitem. cbv zeta.
  pose proof (check_schema_stops f sch accepted item rest err Hsch Hfmt Hacc Hitem) as Hschema.
  unfold handled, pushed_for in Hschema. split.
  - intros text Htext. rewrite Htext in Hschema. simpl in Hschema.
    destruct (check_custom_appends f (JArr (accepted ++ item :: rest)))
      as (r2 & es2 & Hcustom & Hnone & _).
    rewrite (alone_eq disk outputDir f _ _ _
               (check_file_decoded disk outputDir f _ _ _ _ _ _
                  Hpresent Hdecoded Hschema Hcustom)).
    split; [done|]. split.
    + simpl. intros result [Herrors _]%result_of_errors. rewrite Herrors. eauto.
    + intros Hv. destruct (Hnone Hv) as [-> ->]. done.
  - intros raised Hraised. rewrite Hraised in Hschema. simpl in Hschema.
    rewrite (alone_eq disk outputDir f _ _ _
               (check_file_schema_throws disk outputDir f _ _ _ _
                  Hpresent Hdecoded Hschema)).
    split; [done|]. unfold handled, pushed_for. simpl. split.
    + by intros text ->.
    + by intros raised' ->.
Qed.

(** What one file spec does, case by case. *)
Lemma alone_steps outputDir f :
  (absent disk outputDir f
   /\ steps (alone disk outputDir f) = [FsAccess (path_join outputDir (path f))])
  \/ (present disk outputDir f
      /\ (exists err, decoded disk outputDir f = Throws err)
      /\ steps (alone disk outputDir f)
         = [FsAccess (path_join outputDir (path f));
            FsReadFile (path_join outputDir (path f))])
  \/ (present disk outputDir f
      /\ exists content parsed called,
           decoded disk outputDir f = Returns content
           /\ (schema f = None -> parsed = [])
           /\ steps (alone disk outputDir f)
              = [FsAccess (path_join outputDir (path f));
                 FsReadFile (path_join outputDir (path f))]
                ++ (CallSchemaParse (path f) <$> parsed)
                ++ called
           /\ (schema_block_completes f content -> called = validate_call f content)
           /\ (~ schema_block_completes f content -> called = [])).
Proof.
  destruct (present_or_absent disk outputDir f) as [Hpresent|Habsent].
  2:{ left. split; [done|]. destruct Habsent as [err Herr].
      by rewrite (alone_eq disk outputDir f _ _ _ (check_file_absent disk outputDir f err Herr)). }
  right. destruct (decoded disk outputDir f) as [content|err] eqn:Hdecoded.
  2:{ left. split; [done|]. split; [by eauto|].
      by rewrite (alone_eq disk outputDir f _ _ _
                    (check_file_unreadable disk outputDir f err Hpresent Hdecoded)). }
  right. split; [done|].
  destruct (check_schema_appends f content)
    as (r1 & es1 & parsed & H1 & Hnone & _ & _ & _ & Hcompletes).
  assert (schema f = None -> parsed = []) as Hparsed.
  { intros Hs. by destruct (Hnone Hs) as (_ & _ & ?). }
  destruct r1 as [[]|raised].
  - destruct (check_custom_appends f content) as (r2 & es2 & H2 & _).
    exists content, parsed, (validate_call f content).
    split; [done|]. split; [done|]. split; [|split; [done|]].
    + by rewrite (alone_eq disk outputDir f _ _ _
                    (check_file_decoded disk outputDir f _ _ _ _ _ _
                       Hpresent Hdecoded H1 H2)).
    + intros Hnot. destruct Hnot. by apply Hcompletes.
  - exists content, parsed, []. split; [done|]. split; [done|]. split; [|split; [|done]].
    + rewrite (alone_eq disk outputDir f _ _ _
                 (check_file_schema_throws disk outputDir f _ _ _ _
                    Hpresent Hdecoded H1)).
      unfold steps. simpl. by rewrite app_nil_r.
    + intros Hc. by apply Hcompletes in Hc.
Qed.

(** X19. [validateOutput] touches the declared files only, and only to
    look.  Its steps are those of the file specs it gets to, one file spec
    after the other in declared order: all of them when it returns, and
    those up to the one whose validation throws otherwise.  Each file spec
    gives one [fs.access] of its file; then, when the file is there, one
    [fs.readFile] of it; then, when it decodes, the calls of its schema
    and, when the schema block has ended without a throw, the call of its
    callback, on what was decoded. *)
Theorem validation_touches_only_declared_files outputDir spec :
  steps (validateOutput disk outputDir spec)
  = flat_map (fun f => steps (alone disk outputDir f)) (reached disk outputDir (files spec))
  /\ (forall f, f ∈ reached disk outputDir (files spec) -> f ∈ files spec)
  /\ (returns (fst (validateOutput disk outputDir spec)) ->
      reached disk outputDir (files spec) = files spec)
  /\ (forall f,
        (absent disk outputDir f
         /\ steps (alone disk outputDir f) = [FsAccess (path_join outputDir (path f))])
        \/ (present disk outputDir f
            /\ (exists err, decoded disk outputDir f = Throws err)
            /\ steps (alone disk outputDir f)
               = [FsAccess (path_join outputDir (path f));
                  FsReadFile (path_join outputDir (path f))])
        \/ (present disk outputDir f
            /\ exists content parsed called,
                 decoded disk outputDir f = Returns content
                 /\ (schema f = None -> parsed = [])
                 /\ steps (alone disk outputDir f)
                    = [FsAccess (path_join outputDir (path f));
                       FsReadFile (path_join outputDir (path f))]
                      ++ (CallSchemaParse (path f) <$> parsed)
                      ++ called
                 /\ (schema_block_completes f content ->
                     called = validate_call f content)
                 /\ (~ schema_block_completes f content -> called = []))).
Proof.
  destruct spec as [fs]. simpl. split; [apply run_reached|]. split.
  - intros f. apply reached_sublist.
  - split; [|apply alone_steps]. intros Hret. by apply run_returned.
Qed.

Lemma schema_fails_accepts fmt sch content :
  schema_accepts fmt sch content -> schema_fails fmt sch content = false.
Proof.
  unfold schema_accepts, schema_fails. cbv zeta.
  assert ((exists v, parse sch content = Returns v) ->
          match parse sch content with Returns _ => false | Throws _ => true end = false)
    as Hone by (by intros [v ->]).
  destruct fmt; try done. destruct content; try done.
  clear Hone. induction 1 as [|x items [v Hv] _ IH]; [done|]. simpl in *. by rewrite Hv.
Qed.

Lemma schema_fails_rejects fmt sch content err :
  schema_rejects fmt sch content err -> schema_fails fmt sch content = true.
Proof.
  unfold schema_rejects, schema_fails. cbv zeta.
  assert (parse sch content = Throws err ->
          match parse sch content with Returns _ => false | Throws _ => true end = true)
    as Hone by (by intros ->).
  destruct fmt; try done. destruct content; try done.
  intros (accepted & item & rest & -> & _ & Hitem).
  rewrite existsb_app. simpl. rewrite Hitem. simpl. apply orb_true_r.
Qed.

Lemma failure_count_bounds outputDir f :
  (failure_count disk outputDir f <= 2)%nat
  /\ (failure_count disk outputDir f = 2%nat -> is_Some (schema f) /\ is_Some (validate f)).
Proof.
  unfold failure_count.
  destruct (access_result disk _); [|destruct (required f); (split; [lia|done])].
  destruct (decoded disk outputDir f) as [content|]; [|split; [lia|done]].
  destruct (schema f) as [sch|], (validate f) as [predicate|];
    repeat match goal with |- context [if ?b then _ else _] => destruct b end;
    simpl; (split; [lia|]); intros; try lia; done.
Qed.

(** With errors whose text can be read, one file spec is validated to as
    many errors as there are things wrong with its file. *)
Lemma alone_counts_failures outputDir f :
  errors_readable disk outputDir f ->
  exists result,
    fst (alone disk outputDir f) = Returns result
    /\ length (errors result) = failure_count disk outputDir f.
Proof.
  intros Hreadable. unfold failure_count.
  destruct (present_or_absent disk outputDir f) as [Hpresent|Habsent].
  2:{ destruct Habsent as [err Herr]. rewrite Herr.
      rewrite (alone_eq disk outputDir f _ _ _ (check_file_absent disk outputDir f err Herr)).
      eexists. split; [done|]. simpl. by destruct (required f). }
  destruct (Hreadable Hpresent) as [Hread Hdec]. unfold present in Hpresent.
  rewrite Hpresent. fold (present disk outputDir f) in Hpresent.
  destruct (decoded disk outputDir f) as [content|err] eqn:Hdecoded.
  2:{ destruct (Hread err eq_refl) as [text Htext].
      pose proof (alone_eq disk outputDir f _ _ _
                    (check_file_unreadable disk outputDir f err Hpresent Hdecoded)) as Halone.
      unfold handled, pushed_for in Halone. rewrite Htext in Halone. rewrite Halone.
      by eexists. }
  destruct (Hdec content eq_refl) as [Hcompletes Hthrown].
  assert (exists es1 parsed,
            appends (check_schema f content) (Returns tt) es1
              (CallSchemaParse (path f) <$> parsed)
            /\ length es1
               = match schema f with
                 | Some sch => if schema_fails (format f) sch content then 1%nat else 0%nat
                 | None => 0%nat
                 end) as (es1 & parsed & H1 & Hlen1).
  { destruct (schema f) as [sch|] eqn:Hsch.
    2:{ exists [], []. split; [by apply check_schema_none|done]. }
    destruct (schema_accepts_or_rejects (format f) sch content) as [Hacc|[err Hrej]].
    - destruct (check_schema_accepts f sch content Hsch Hacc) as [parsed Hp].
      exists [], parsed. split; [done|]. by rewrite schema_fails_accepts.
    - destruct (check_schema_rejects f sch content err Hsch Hrej) as [parsed Hp].
      destruct (Hcompletes sch err Hsch Hrej) as [text Htext].
      unfold handled, pushed_for in Hp. rewrite Htext in Hp. simpl in Hp.
      eexists _, parsed. split; [exact Hp|]. by rewrite (schema_fails_rejects _ _ _ err). }
  assert (exists es2,
            appends (check_custom f content) (Returns tt) es2 (validate_call f content)
            /\ length es2
               = match validate f with
                 | Some predicate => if callback_fails predicate content then 1%nat else 0%nat
                 | None => 0%nat
                 end) as (es2 & H2 & Hlen2).
  { unfold validate_call, callback_fails. destruct (validate f) as [predicate|] eqn:Hv.
    2:{ exists []. split; [by apply check_custom_none|done]. }
    destruct (await (predicate content)) as [v|err] eqn:Hawait.
    - eexists. split; [by eapply check_custom_returned|]. by destruct (strictly_false v).
    - destruct (Hthrown predicate err eq_refl Hawait) as [text Htext].
      pose proof (check_custom_threw f predicate content err Hv Hawait) as Hc.
      unfold handled, pushed_for in Hc. rewrite Htext in Hc. simpl in Hc.
      eexists. split; [exact Hc|done]. }
  rewrite (alone_eq disk outputDir f _ _ _
             (check_file_decoded disk outputDir f _ _ _ _ _ _ Hpresent Hdecoded H1 H2)).
  eexists. split; [done|]. simpl. rewrite app_nil_r, length_app. by rewrite Hlen1, Hlen2.
Qed.

Lemma run_counts_failures outputDir fs :
  Forall (errors_readable disk outputDir) fs ->
  exists result,
    fst (validateOutput disk outputDir {| files := fs |}) = Returns result
    /\ length (errors result) = sum_list (failure_count disk outputDir <$> fs).
Proof.
  induction 1 as [|f fs Hf _ (rest & Hrest & Hlen)]; [by eexists|].
  destruct (alone_counts_failures outputDir f Hf) as (result & Hresult & Hcount).
  rewrite validateOutput_cons. unfold and_then. rewrite Hresult, Hrest. simpl.
  eexists. split; [done|]. simpl. rewrite length_app. by rewrite Hcount, Hlen.
Qed.

(** X25. When whatever is thrown while the files are validated has a text
    that can be read, [validateOutput] returns a result, and the number of
    its errors is the sum, over the file specs, of the number of things
    wrong with the file of each: a required file that is missing, a file
    that does not decode, a schema that rejects, a callback that fails.
    That number is at most two for a file spec, and two only when it has
    both a schema and a callback.  [valid] is true exactly when the sum is
    zero, and every file spec is gone through, whatever is wrong with the
    others. *)
Theorem validateOutput_counts_failures outputDir spec :
  Forall (errors_readable disk outputDir) (files spec) ->
  exists result,
    fst (validateOutput disk outputDir spec) = Returns result
    /\ length (errors result) = sum_list (failure_count disk outputDir <$> files spec)
    /\ (valid result = true
        <-> sum_list (failure_count disk outputDir <$> files spec) = 0%nat)
    /\ steps (validateOutput disk outputDir spec)
       = flat_map (fun f => steps (alone disk outputDir f)) (files spec)
    /\ (forall f,
          (failure_count disk outputDir f <= 2)%nat
          /\ (failure_count disk outputDir f = 2%nat
              -> is_Some (schema f) /\ is_Some (validate f))).
Proof.
  destruct spec as [fs]. simpl. intros Hreadable.
  destruct (run_counts_failures outputDir fs Hreadable) as (result & Hrun & Hlen).
  exists result. split; [done|]. split; [done|]. split; [|split].
  - rewrite (run_result outputDir fs result Hrun), Hlen. apply Nat.eqb_eq.
  - rewrite run_reached.
    assert (returns (fst (validateOutput disk outputDir {| files := fs |}))) as Hret
      by (by eexists).
    by destruct (run_returned disk outputDir fs Hret) as [-> _].
  - apply failure_count_bounds.
Qed.

(** X26. A file that is there and decodes, with a custom callback.  The
    callback is called, with the decoded content, exactly when the schema
    block has ended without a throw: with no schema, with a schema that
    accepts, and with a schema that rejects with an error whose text can
    be read.  When the schema rejects the content and the callback throws,
    both with errors whose text can be read, the file spec on its own gets
    exactly two errors for its path: [Schema validation failed] and then
    [Custom validation threw], each with the text of its error. *)
Theorem custom_check_follows_a_completed_schema_block outputDir f content predicate :
  present disk outputDir f ->
  decoded disk outputDir f = Returns content ->
  validate f = Some predicate ->
  (schema_block_completes f content
   <-> CallValidate (path f) content ∈ steps (alone disk outputDir f))
  /\ (forall spec,
        schema_block_completes f content ->
        f ∈ files spec ->
        returns (fst (validateOutput disk outputDir spec)) ->
        CallValidate (path f) content ∈ steps (validateOutput disk outputDir spec))
  /\ (forall sch err1 err2 text1 text2,
        schema f = Some sch ->
        schema_rejects (format f) sch content err1 ->
        await (predicate content) = Throws err2 ->
        errorText err1 = Returns text1 ->
        errorText err2 = Returns text2 ->
        fst (alone disk outputDir f)
        = Returns {| valid := false;
                     errors :=
                       [ValidationError.mk (path f)
                          ("Schema validation failed: " +:+ text1);
                        ValidationError.mk (path f)
                          ("Custom validation threw: " +:+ text2)] |}).
Proof.
  intros Hpresent Hdecoded Hv.
  assert (schema_block_completes f content
          <-> CallValidate (path f) content ∈ steps (alone disk outputDir f)) as Hcalled.
  { destruct (alone_steps outputDir f)
      as [[Habsent _]|[(_ & [err Herr] & _)|(_ & c & parsed & called & Hc & _ & -> & Hyes & Hno)]].
    - by destruct (present_not_absent disk outputDir f).
    - congruence.
    - assert (c = content) as -> by congruence. unfold validate_call in Hyes.
      rewrite Hv in Hyes. split.
      + intros Hcompletes. rewrite (Hyes Hcompletes). set_solver.
      + intros Hin.
        destruct (check_schema_appends f content) as (r1 & _ & _ & _ & _ & _ & _ & _ & Hiff).
        destruct r1 as [[]|raised]; [by apply Hiff|].
        rewrite Hno in Hin by (intros Hcompletes; by apply Hiff in Hcompletes).
        rewrite app_nil_r in Hin.
        apply elem_of_app in Hin as [Hin|Hin].
        * repeat (apply elem_of_cons in Hin as [?|Hin]; [done|]). by apply elem_of_nil in Hin.
        * by apply list_elem_of_fmap in Hin as (? & ? & _). }
  split; [done|]. split.
  - intros [fs] Hcompletes Hin Hret. simpl in Hin. rewrite run_reached.
    destruct (run_returned disk outputDir fs Hret) as [-> _].
    apply list_elem_of_In, in_flat_map. exists f. split; [by apply list_elem_of_In|].
    by apply list_elem_of_In, Hcalled.
  - intros sch err1 err2 text1 text2 Hsch Hrej Hthrow Htext1 Htext2.
    destruct (check_schema_rejects f sch content err1 Hsch Hrej) as [parsed H1].
    pose proof (check_custom_threw f predicate content err2 Hv Hthrow) as H2.
    unfold handled, pushed_for in H1, H2. rewrite Htext1 in H1. rewrite Htext2 in H2.
    simpl in H1, H2.
    by rewrite (alone_eq disk outputDir f _ _ _
                  (check_file_decoded disk outputDir f _ _ _ _ _ _
                     Hpresent Hdecoded H1 H2)).
Qed.
End MoreValidationFacts.

(** ** The frontmatter pattern *)

Lemma after_prefix_sound pre : forall text rest,
  after_prefix pre text = Some rest -> text = pre +:+ rest.
Proof.
  induction pre as [|a pre IH]; intros text rest; simpl; [by intros [= ->]|].
  destruct text as [|b text]; [done|].
  destruct (Ascii.eqb_spec a b) as [->|]; [|done].
  intros Hrest. by rewrite append_cons, (IH _ _ Hrest).
Qed.

Lemma after_prefix_some_append pre : forall a b rest,
  after_prefix pre a = Some rest -> after_prefix pre (a +:+ b) = Some (rest +:+ b).
Proof.
  induction pre as [|x pre IH]; intros a b rest; simpl; [by intros [= ->]|].
  destruct a as [|y a]; [done|]. rewrite append_cons.
  destruct (Ascii.eqb x y); [|done]. apply IH.
Qed.

Lemma split_at_fence_sound text : forall front rest,
  split_at_fence text = Some (front, rest) ->
  text = front +:+ fence_close +:+ rest
  /\ String_includes (front +:+ String newline "---") fence_close = false.
Proof.
  induction text as [|c text IH]; intros front rest.
  - simpl. done.
  - rewrite split_at_fence_cons.
    destruct (after_prefix fence_close (String c text)) as [rest'|] eqn:Hhere.
    + intros [= <- <-]. split; [|done]. by apply after_prefix_sound in Hhere.
    + destruct (split_at_fence text) as [[front' rest']|] eqn:Hsplit; [|done].
      intros [= <- <-]. destruct (IH _ _ eq_refl) as [-> Hnone]. split; [done|].
      rewrite append_cons, String_includes_cons, Hnone.
      destruct (after_prefix fence_close (String c (front' +:+ String newline "---")))
        as [r|] eqn:Hearly; [|done].
      apply (after_prefix_some_append _ _ (String newline rest')) in Hearly.
      rewrite append_cons, append_assoc in Hearly.
      change (String newline "---" +:+ String newline rest') with (fence_close +:+ rest')
        in Hearly.
      congruence.
Qed.

(** X20. When the frontmatter pattern matches, the text is the opening
    fence, the frontmatter, the closing fence, one newline at most, and
    the body; the frontmatter ends at the first closing fence, and the
    newline after the fence is not part of the body. *)
Theorem frontmatter_ends_at_the_first_fence text front body :
  match_frontmatter text = Some (front, body) ->
  String_includes (front +:+ String newline "---") fence_close = false
  /\ (text = fence_open +:+ front +:+ fence_close +:+ newline_string +:+ body
      \/ (text = fence_open +:+ front +:+ fence_close +:+ body
          /\ after_prefix newline_string body = None)).
Proof.
  unfold match_frontmatter.
  destruct (after_prefix fence_open text) as [inner|] eqn:Hopen; [|done].
  apply after_prefix_sound in Hopen as ->.
  destruct (split_at_fence inner) as [[front' rest]|] eqn:Hsplit; [|done].
  apply split_at_fence_sound in Hsplit as [-> Hfirst].
  destruct rest as [|c rest].
  - intros [= <- <-]. split; [done|]. right. done.
  - cbv beta iota. destruct (Ascii.eqb_spec c newline) as [Hc|Hc]; intros [= <- <-];
      (split; [exact Hfirst|]).
    + left. by rewrite Hc.
    + right. split; [done|]. unfold newline_string, after_prefix.
      by destruct (Ascii.eqb_spec newline c) as [Heq|].
Qed.

(** ** The readers of a handle *)

Section HandleReaders.
Context `{JsRuntime}.

(** X21. The four readers of a handle make one call, [fs.readFile] of the
    file in the section, and leave the tree as it is; when the file is
    missing ([ENOENT]) or is a directory ([EISDIR]) they throw what
    [fs.readFile] throws. *)
Theorem readers_only_read h section d filePath joptions moptions w :
  WorkspaceHandle.dir h section = Returns d ->
  let after := after_call w (FsReadFile (path_join d filePath)) in
  (snd (WorkspaceHandle.handle_readRaw h section filePath w) = after
   /\ snd (WorkspaceHandle.handle_readJson h section filePath joptions w) = after
   /\ snd (WorkspaceHandle.handle_readJsonl h section filePath joptions w) = after
   /\ snd (WorkspaceHandle.handle_readMarkdown h section filePath moptions w) = after)
  /\ (forall err,
        file_at (tree w) (path_join d filePath) = Throws err ->
        fst (WorkspaceHandle.handle_readRaw h section filePath w) = Throws err
        /\ fst (WorkspaceHandle.handle_readJson h section filePath joptions w) = Throws err
        /\ fst (WorkspaceHandle.handle_readJsonl h section filePath joptions w) = Throws err
        /\ fst (WorkspaceHandle.handle_readMarkdown h section filePath moptions w) = Throws err)
  /\ (lookup_path (path_join d filePath) (tree w) = None ->
        file_at (tree w) (path_join d filePath) = Throws Fs.ENOENT)
  /\ (forall children,
        lookup_path (path_join d filePath) (tree w) = Some (Dir children) ->
        file_at (tree w) (path_join d filePath) = Throws Fs.EISDIR).
Proof.
  intros Hd. cbv zeta.
  unfold WorkspaceHandle.handle_readRaw, WorkspaceHandle.handle_readJson,
    WorkspaceHandle.handle_readJsonl, WorkspaceHandle.handle_readMarkdown.
  rewrite !lift_bind_run, Hd, readRaw_run, readJson_run, readJsonl_run, readMarkdown_run.
  split; [done|]. split.
  - intros err ->. done.
  - unfold file_at. split; [by intros ->|]. by intros children ->.
Qed.

(** ** [readJsonDir] *)

Lemma Map_set_fresh key v (entries : list (string * JsValue)) :
  key ∉ entries.*1 -> Map_set key v entries = entries ++ [(key, v)].
Proof.
  induction entries as [|[k old] entries IH]; [done|]. simpl.
  intros [Hk Hrest]%not_elem_of_cons.
  destruct (String.eqb_spec k key) as [->|_]; [done|]. by rewrite IH.
Qed.

Lemma readdir_names_run p w :
  readdir_names p w
  = (match lookup_path p (tree w) with
     | Some (Dir children) => Returns (map_to_list children).*1
     | Some (File _) => Throws Fs.ENOTDIR
     | None => Throws Fs.ENOENT
     end, after_call w (FsReaddir p)).
Proof.
  unfold readdir_names, after_call. run_fs. simpl.
  destruct (lookup_path p (tree w)) as [[|children]|]; try done.
  do 2 f_equal. unfold fmap. rewrite map_map.
  change (map (λ x : string * Node, x.1) (map_to_list children))
    with (fst <$> map_to_list children).
  done.
Qed.

Lemma readJsonDir_loop t fullDir options names : forall acc lg,
  NoDup names ->
  (forall name, name ∈ names -> name ∉ acc.*1) ->
  exists r read,
    for_fold names acc
      (fun result entry =>
         if negb (String_endsWith entry ".json") then ret result
         else data <- readJson Fs.readFile fullDir entry options ;;
              ret (Map_set entry data result))
      {| tree := t; log := lg |}
    = (r, {| tree := t;
             log := lg ++ ((fun name => FsReadFile (path_join fullDir name)) <$> read) |})
    /\ match r with
       | Returns result =>
           exists more,
             result = acc ++ more
             /\ read = List.filter (fun name => String_endsWith name ".json") names
             /\ more.*1 = List.filter (fun name => String_endsWith name ".json") names
             /\ (forall name v, (name, v) ∈ more ->
                   json_at t fullDir name options = Returns v)
       | Throws err =>
           exists before name after,
             List.filter (fun name => String_endsWith name ".json") names
             = before ++ name :: after
             /\ read = before ++ [name]
             /\ Forall (fun n => returns (json_at t fullDir n options)) before
             /\ json_at t fullDir name options = Throws err
       end.
Proof.
  induction names as [|name names IH]; intros acc lg Hnd Hfresh.
  - exists (Returns acc), []. simpl. unfold ret. rewrite !app_nil_r. split; [done|].
    exists []. rewrite app_nil_r. split; [done|]. split; [done|]. split; [done|].
    by intros ?? ?%elem_of_nil.
  - apply NoDup_cons in Hnd as [Hname Hnd]. simpl for_fold. unfold bind at 1.
    destruct (String_endsWith name ".json") eqn:Hjson; cbn [negb].
    2:{ destruct (IH acc lg Hnd) as (r & read & Hrun & Hr).
        { intros n Hn. apply Hfresh. by right. }
        exists r, read. unfold ret at 1. split; [done|]. simpl List.filter. by rewrite Hjson. }
    unfold bind at 1. rewrite json_at_eq.
    destruct (json_at t fullDir name options) as [v|err] eqn:Hread.
    2:{ exists (Throws err), [name]. split; [done|].
        exists [], name, (List.filter (fun name => String_endsWith name ".json") names).
        simpl List.filter. rewrite Hjson. done. }
    unfold ret at 1. rewrite Map_set_fresh by (apply Hfresh; by left).
    destruct (IH (acc ++ [(name, v)]) (lg ++ [FsReadFile (path_join fullDir name)]) Hnd)
      as (r & read & Hrun & Hr).
    { intros n Hn. rewrite fmap_app, not_elem_of_app. split; [apply Hfresh; by right|].
      simpl. intros ->%list_elem_of_singleton. done. }
    exists r, (name :: read).
    split; [rewrite Hrun; simpl; by rewrite <- app_assoc|]. simpl List.filter. rewrite Hjson. destruct r as [result|err].
    + destruct Hr as (more & -> & -> & Hkeys & Hvals). exists ((name, v) :: more).
      rewrite <- app_assoc. split; [done|]. split; [done|]. split.
      * rewrite fmap_cons. by f_equal.
      * intros n v' [[= -> ->]|Hin]%elem_of_cons; [done|by apply Hvals].
    + destruct Hr as (before & n & after & -> & -> & Hbefore & Herr).
      exists (name :: before), n, after. split; [done|]. split; [done|].
      split; [|done]. constructor; [by eexists|done].
Qed.

(** X22. [readJsonDir] lists the directory once and then reads the entries
    whose name ends in [.json], in the order of [fs.readdir], one
    [fs.readFile] each, and gives for each what [readJson] gives; no other
    entry is read.  When one of the files cannot be read it throws what
    [readJson] throws for that file, gives nothing for the others, and
    reads none of the entries after it.  A missing directory is [ENOENT],
    a file [ENOTDIR], and then nothing is read.  The tree is left as it
    is. *)
Theorem readJsonDir_all_or_nothing dir subPath options w :
  let fullDir := path_join dir subPath in
  exists r read,
    readJsonDir dir subPath options w
    = (r, {| tree := tree w;
             log := log w
                    ++ FsReaddir fullDir
                       :: ((fun name => FsReadFile (path_join fullDir name)) <$> read) |})
    /\ match lookup_path fullDir (tree w) with
       | None => r = Throws Fs.ENOENT /\ read = []
       | Some (File _) => r = Throws Fs.ENOTDIR /\ read = []
       | Some (Dir children) =>
           let names :=
             List.filter (fun name => String_endsWith name ".json")
               (map_to_list children).*1 in
           match r with
           | Returns result =>
               read = names
               /\ result.*1 = names
               /\ (forall name v,
                     (name, v) ∈ result ->
                     json_at (tree w) fullDir name options = Returns v)
           | Throws err =>
               exists before name after,
                 names = before ++ name :: after
                 /\ read = before ++ [name]
                 /\ Forall (fun n => returns (json_at (tree w) fullDir n options)) before
                 /\ json_at (tree w) fullDir name options = Throws err
                 /\ is_Some (children !! name)
                 /\ String_endsWith name ".json" = true
           end
       end.
Proof.
  cbv zeta. destruct w as [t lg]. unfold readJsonDir, bind. rewrite readdir_names_run. simpl.
  destruct (lookup_path (path_join dir subPath) t) as [[content|children]|] eqn:Hdir.
  - by exists (Throws Fs.ENOTDIR), [].
  - unfold after_call. simpl.
    destruct (readJsonDir_loop t (path_join dir subPath) options (map_to_list children).*1
                [] (lg ++ [FsReaddir (path_join dir subPath)]))
      as (r & read & Hrun & Hr).
    { apply NoDup_fst_map_to_list. }
    { intros name _. apply not_elem_of_nil. }
    exists r, read. rewrite <- app_assoc in Hrun. split; [done|]. destruct r as [result|err].
    + destruct Hr as (more & -> & Hread & Hkeys & Hvals). done.
    + destruct Hr as (before & name & after & Hnames & Hread & Hbefore & Herr).
      exists before, name, after. split; [done|]. split; [done|]. split; [done|].
      split; [done|].
      assert (name ∈ List.filter (fun name => String_endsWith name ".json")
                       (map_to_list children).*1) as Hin
        by (rewrite Hnames; set_solver).
      apply list_elem_of_In, filter_In in Hin as [Hin Hjson]. split; [|done].
      apply list_elem_of_In, list_elem_of_fmap in Hin as ([name' node] & -> & Hin).
      apply elem_of_map_to_list in Hin. by exists node.
  - by exists (Throws Fs.ENOENT), [].
Qed.
End HandleReaders.

(** ** What is decoded, and validating what was written *)

Lemma match_frontmatter_body_is_suffix text front body :
  match_frontmatter text = Some (front, body) -> exists pre, text = pre +:+ body.
Proof.
  unfold match_frontmatter.
  destruct (after_prefix fence_open text) as [inner|] eqn:Hopen; [|done].
  apply after_prefix_sound in Hopen as ->.
  destruct (split_at_fence inner) as [[front' rest]|] eqn:Hsplit; [|done].
  apply split_at_fence_sound in Hsplit as [-> _].
  assert (exists pre, fence_open +:+ front' +:+ fence_close +:+ rest = pre +:+ rest) as Hrest.
  { exists (fence_open +:+ front' +:+ fence_close). by rewrite !append_assoc. }
  destruct rest as [|c rest]; [by intros [= <- <-]|].
  destruct (Ascii.eqb_spec c newline) as [Hc|Hc]; intros [= <- <-]; [|done].
  exists (fence_open +:+ front' +:+ fence_close +:+ String c EmptyString).
  by rewrite !append_assoc.
Qed.

Section DecodedFacts.
Context `{JsRuntime}.
Variable disk : DirState.

Lemma lines_read_inv (g : nat -> string -> nat * string) lines : forall items,
  (forall i line, snd (g i line) = line) ->
  map_throwing (readJsonl_line None) (imap g lines) = Returns items ->
  Forall2 (fun line item => JSON_parse line = Returns item) lines items.
Proof.
  revert g. induction lines as [|line lines IH]; intros g items Hg.
  - simpl. intros [= <-]. constructor.
  - rewrite imap_cons. simpl.
    pose proof (Hg 0%nat line) as Hline. destruct (g 0%nat line) as [index line'].
    simpl in Hline. subst line'. unfold readJsonl_line at 1. simpl.
    destruct (JSON_parse line) as [item|] eqn:Hparse; [|done].
    destruct (map_throwing _ (imap (g ∘ S) lines)) as [rest|] eqn:Hrest; [|done].
    intros [= <-]. constructor; [done|]. apply (IH (g ∘ S)); [|done]. intros; apply Hg.
Qed.

Lemma decoded_eq outputDir f :
  decoded disk outputDir f
  = match readFile_result disk (path_join outputDir (path f)) with
    | Throws err => Throws err
    | Returns text =>
        match format f with
        | json => JSON_parse text
        | jsonl =>
            match map_throwing (readJsonl_line None)
                    (imap pair (nonempty_lines (String_trimEnd text))) with
            | Returns items => Returns (JArr items)
            | Throws err => Throws err
            end
        | markdown =>
            match match_frontmatter text with
            | Some (front, body) =>
                match yamlParse front with
                | Returns parsed => Returns (markdown_object parsed body)
                | Throws err => Throws err
                end
            | None => Returns (markdown_object (JObj []) text)
            end
        | raw => Returns (JStr text)
        end
    end.
Proof.
  unfold decoded, readFileByFormat.
  destruct (format f); unfold readJson, readJsonl, readMarkdown, readRaw, bind;
    rewrite (fs_readFile_appends disk _ fresh_state);
    destruct (readFile_result disk _) as [text|]; try done; unfold lift, ret; simpl.
  - by destruct (JSON_parse text).
  - unfold nonempty_lines. by destruct (map_throwing _ _).
  - destruct (match_frontmatter text) as [[front body]|]; [|done].
    by destruct (yamlParse front).
Qed.

(** X23. What a file decodes to, and so what its schema and its callback
    are given, has the shape of its format: for [json] the value of the
    text; for [jsonl] an array with one value for each line that is not
    empty, in order; for [markdown] an object with [frontmatter] and
    [body], the body being the end of the text; for [raw] the text
    itself. *)
Theorem decoded_content_has_its_format outputDir f content :
  decoded disk outputDir f = Returns content ->
  exists text,
    readFile_result disk (path_join outputDir (path f)) = Returns text
    /\ match format f with
       | json => JSON_parse text = Returns content
       | jsonl =>
           exists items,
             content = JArr items
             /\ Forall2 (fun line item => JSON_parse line = Returns item)
                  (nonempty_lines (String_trimEnd text)) items
       | markdown =>
           exists frontmatter body pre,
             content = markdown_object frontmatter body /\ text = pre +:+ body
       | raw => content = JStr text
       end.
Proof.
  rewrite decoded_eq.
  destruct (readFile_result disk _) as [text|]; [|done]. intros Hcontent.
  exists text. split; [done|]. destruct (format f).
  - done.
  - destruct (map_throwing _ _) as [items|] eqn:Hitems; [|done].
    simplify_eq. exists items. split; [done|]. by eapply (lines_read_inv pair).
  - destruct (match_frontmatter text) as [[front body]|] eqn:Hmatch.
    + destruct (yamlParse front) as [parsed|]; [|done]. simplify_eq.
      destruct (match_frontmatter_body_is_suffix _ _ _ Hmatch) as [pre Hpre]. eauto.
    + simplify_eq. by exists (JObj []), text, EmptyString.
  - by simplify_eq.
Qed.
End DecodedFacts.

Section WriteAndValidate.
Context `{JsRuntime}.

(** X24. A JSON file written to the output section is there for
    [validateOutput], and decodes to what [JSON.parse] makes of the text
    written; a file spec for it with no schema and no callback is valid,
    after one [fs.access] and one [fs.readFile], appended to the log. *)
Theorem written_output_validates h filePath data parsed f w w1 :
  WorkspaceHandle.handle_writeJson h "output" filePath data w = (Returns tt, w1) ->
  JSON_parse (JSON_stringify data +:+ newline_string) = Returns parsed ->
  path f = filePath ->
  format f = json ->
  present (disk_of (tree w1)) (WorkspaceHandle.outputDir h) f
  /\ decoded (disk_of (tree w1)) (WorkspaceHandle.outputDir h) f = Returns parsed
  /\ (schema f = None -> validate f = None ->
      handle_validateOutput h {| files := [f] |} w1
      = (Returns {| valid := true; errors := [] |},
         {| tree := tree w1;
            log := log w1
                   ++ [FsAccess (path_join (WorkspaceHandle.outputDir h) filePath);
                       FsReadFile (path_join (WorkspaceHandle.outputDir h) filePath)] |})).
Proof.
  intros [Hd (Hfile & _)%write_returns]%handle_method_returns Hparse <- Hfmt.
  change (path_join (WorkspaceHandle.path h) "output") with (WorkspaceHandle.outputDir h)
    in Hfile.
  assert (present (disk_of (tree w1)) (WorkspaceHandle.outputDir h) f) as Hpresent.
  { unfold present. simpl. by rewrite Hfile. }
  assert (decoded (disk_of (tree w1)) (WorkspaceHandle.outputDir h) f = Returns parsed)
    as Hdecoded.
  { rewrite decoded_eq, Hfmt. simpl. by rewrite Hfile. }
  split; [done|]. split; [done|]. intros Hschema Hvalidate.
  pose proof (check_schema_none f parsed Hschema) as Hrun.
  pose proof (check_custom_none f parsed Hvalidate) as Hcustom.
  pose proof (alone_eq _ _ _ _ _ _
                (check_file_decoded (disk_of (tree w1)) _ f parsed _ _ _ _ _
                   Hpresent Hdecoded Hrun Hcustom)) as Halone.
  unfold handle_validateOutput. unfold alone in Halone. by rewrite Halone.
Qed.
End WriteAndValidate.

(** ** Runs on sample data *)

Import Samples.
Import SampleRuntime.

(** The readers on small files. *)
Example decode_jsonl :
  decoded (holding "1
[2, 3]

null
") [] (plain_spec jsonl)
  = Returns (JArr [JNum 1; JArr [JNum 2; JNum 3]; JNull]).
Proof. vm_compute. reflexivity. Qed.

Example decode_jsonl_malformed :
  decoded (holding "1
not json
") [] (plain_spec jsonl)
  = Throws (ErrorObj "Unexpected token in JSON").
Proof. vm_compute. reflexivity. Qed.

Example decode_markdown_with_frontmatter :
  decoded (holding "---
[1, 2]
---

# Summary
") [] (plain_spec markdown)
  = Returns (JObj [("frontmatter", JArr [JNum 1; JNum 2]); ("body", JStr "# Summary
")]).
Proof. vm_compute. reflexivity. Qed.

Example decode_markdown_without_frontmatter :
  decoded (holding "# No frontmatter
") [] (plain_spec markdown)
  = Returns (JObj [("frontmatter", JObj []); ("body", JStr "# No frontmatter
")]).
Proof. vm_compute. reflexivity. Qed.

Example malformed_json_is_a_read_error :
  reported (alone (holding "this is not json at all") [] (plain_spec json))
  = [ValidationError.mk "file" "Failed to read file: Unexpected token in JSON"].
Proof. vm_compute. reflexivity. Qed.

(** [create] on the empty file system gives the demo workspace. *)
Example create_demo : fst created = Returns demo_handle.
Proof. vm_compute. reflexivity. Qed.

(** Scenario 1 of the specification: an empty [OutputSpec]. *)
Example validate_nothing :
  fst (validateOutput disk out {| files := [] |}) = Returns {| valid := true; errors := [] |}.
Proof. reflexivity. Qed.

(** Scenario 4: two required files missing, one optional file missing. *)
Example validate_three_missing :
  reported (validateOutput disk out
              {| files := [missing_spec None true; missing_spec (Some "second") true;
                           missing_spec None false] |})
  = [ValidationError.mk "missing.json" "Required file missing";
     ValidationError.mk "missing.json" "Required file missing (second)"].
Proof. vm_compute. reflexivity. Qed.

(** Scenario 5, with the clock one millisecond after the creation. *)
Example prune_after_a_tick :
  fst (WorkspaceManager.pruneStale manager 1001 0 demo_world) = Returns 1
  /\ listing manager (snd (WorkspaceManager.pruneStale manager 1001 0 demo_world)) = [].
Proof. vm_compute. split; reflexivity. Qed.

(** X26 on the sample: a rejected schema and a throwing callback, both
    with errors whose text can be read. *)
Lemma schema_and_callback_both_report :
  present disk out (result_spec (Some throwing_check))
  /\ decoded disk out (result_spec (Some throwing_check)) = Returns content
  /\ CallValidate "result.json" content
       ∈ steps (alone disk out (result_spec (Some throwing_check)))
  /\ fst (alone disk out (result_spec (Some throwing_check)))
     = Returns {| valid := false;
                  errors :=
                    [ValidationError.mk "result.json"
                       "Schema validation failed: value must be a number";
                     ValidationError.mk "result.json"
                       "Custom validation threw: additional check failed"] |}.
Proof.
  assert (present disk out (result_spec (Some throwing_check))) as Hp
    by (vm_compute; reflexivity).
  assert (decoded disk out (result_spec (Some throwing_check)) = Returns content) as Hd
    by (vm_compute; reflexivity).
  destruct (custom_check_follows_a_completed_schema_block disk out
              (result_spec (Some throwing_check)) content throwing_check Hp Hd eq_refl)
    as (Hcalled & _ & Hboth).
  split; [exact Hp|]. split; [exact Hd|]. split.
  - apply Hcalled. intros sch err [= <-] Hrej. vm_compute in Hrej.
    injection Hrej as <-. by eexists.
  - apply (Hboth (number_schema "value") (ErrorObj "value must be a number")
             (ErrorObj "additional check failed")); reflexivity.
Defined.

(** C1 fails on the code.  The file [result.json] is there and decodes;
    the callback throws an [Error] whose [message] cannot be read.  The
    [catch] block of the callback reads the message to build its error, and
    that throws a second error; the outer [catch] block reads the message
    of the second error, and that throws [Error: boom]: [validateOutput]
    throws it, and returns no [ValidationResult]. *)
Theorem validateOutput_throws_what_a_handler_throws :
  present disk out (checked_spec None (Some unreadable_check))
  /\ decoded disk out (checked_spec None (Some unreadable_check)) = Returns content
  /\ await (unreadable_check content) = Throws unreadable_error
  /\ validateOutput disk out {| files := [checked_spec None (Some unreadable_check)] |}
     = (Throws (ErrorObj "boom"),
        [FsAccess (path_join out "result.json");
         FsReadFile (path_join out "result.json");
         CallValidate "result.json" content]).
Proof. vm_compute. repeat split; reflexivity. Qed.

(** C2 fails on the code.  Two file specs: the first is the one above,
    whose callback throws an error with no readable message; the second
    is a required file that is missing, which on its own gets one error.
    The run throws in the first turn of the loop: the second file spec is
    never looked at, no [fs.access] is made for it, and no error is
    counted.  And a file spec whose schema rejects with an object that has
    no text, and whose callback returns [false], has two things wrong but
    gets one error, [Failed to read file], the callback not being
    called. *)
Theorem a_throwing_handler_cuts_the_run_short :
  validateOutput disk out
    {| files := [checked_spec None (Some unreadable_check); missing_spec None true] |}
  = (Throws (ErrorObj "boom"),
     [FsAccess (path_join out "result.json");
      FsReadFile (path_join out "result.json");
      CallValidate "result.json" content])
  /\ alone disk out (missing_spec None true)
     = (Returns {| valid := false;
                   errors := [ValidationError.mk "missing.json" "Required file missing"] |},
        [FsAccess (path_join out "missing.json")])
  /\ failure_count disk out (checked_spec (Some opaque_schema) (Some false_check)) = 2%nat
  /\ alone disk out (checked_spec (Some opaque_schema) (Some false_check))
     = (Returns {| valid := false;
                   errors :=
                     [ValidationError.mk "result.json"
                        "Failed to read file: Cannot convert object to primitive value"] |},
        [FsAccess (path_join out "result.json");
         FsReadFile (path_join out "result.json");
         CallSchemaParse "result.json" content]).
Proof. vm_compute. repeat split; reflexivity. Qed.

(** C3 fails on the code.  The file [result.json] is there and decodes;
    the schema rejects it, throwing an object that has no text, and there
    is a callback, which would throw.  The [catch] block of the schema
    block throws when it converts the object to a string; the outer
    [catch] block takes that for a failure to read the file; the callback
    is never called.  The result has one error, [Failed to read file],
    and neither [Schema validation failed] nor [Custom validation
    threw]. *)
Theorem a_throwing_schema_handler_skips_the_callback :
  present disk out (checked_spec (Some opaque_schema) (Some throwing_check))
  /\ decoded disk out (checked_spec (Some opaque_schema) (Some throwing_check))
     = Returns content
  /\ schema_rejects json opaque_schema content (ThrownValue (JObj [("toString", JNum 1)]))
  /\ await (throwing_check content) = Throws (ErrorObj "additional check failed")
  /\ alone disk out (checked_spec (Some opaque_schema) (Some throwing_check))
     = (Returns {| valid := false;
                   errors :=
                     [ValidationError.mk "result.json"
                        "Failed to read file: Cannot convert object to primitive value"] |},
        [FsAccess (path_join out "result.json");
         FsReadFile (path_join out "result.json");
         CallSchemaParse "result.json" content]).
Proof. vm_compute. repeat split; reflexivity. Qed.

(** C10 on the sample: a callback that returns [0]. *)
Lemma zero_is_not_a_failure :
  present disk out (result_spec (Some zero_check))
  /\ decoded disk out (result_spec (Some zero_check)) = Returns content
  /\ await (zero_check content) = Returns (JNum 0)
  /\ truthy (JNum 0) = false
  /\ reported (alone disk out (result_spec (Some zero_check)))
     = reported (alone disk out (without_validate (result_spec (Some zero_check)))).
Proof.
  assert (present disk out (result_spec (Some zero_check))) as Hp
    by (vm_compute; reflexivity).
  assert (decoded disk out (result_spec (Some zero_check)) = Returns content) as Hd
    by (vm_compute; reflexivity).
  destruct (only_the_boolean_false_fails disk out (result_spec (Some zero_check)) content
              zero_check (JNum 0) Hp Hd eq_refl eq_refl)
    as (_ & _ & _ & _ & Hfalsy).
  split; [exact Hp|]. split; [exact Hd|]. split; [reflexivity|].
  apply Hfalsy. apply list_elem_of_here.
Defined.

(** C8 on the sample: a required file that is missing, with a description. *)
Lemma missing_file_with_description :
  absent disk out (missing_spec (Some "main output") true)
  /\ reported (validateOutput disk out
                 {| files := [result_spec None; missing_spec (Some "main output") true] |})
     = reported (validateOutput disk out {| files := [result_spec None] |})
       ++ [ValidationError.mk "missing.json" "Required file missing (main output)"]
  /\ steps (validateOutput disk out
              {| files := [result_spec None; missing_spec (Some "main output") true] |})
     = steps (validateOutput disk out {| files := [result_spec None] |})
       ++ [FsAccess (path_join out "missing.json")].
Proof.
  assert (absent disk out (missing_spec (Some "main output") true)) as Ha
    by (exists Fs.ENOENT; vm_compute; reflexivity).
  destruct (missing_file_is_one_error_or_none disk out
              (missing_spec (Some "main output") true) [result_spec None] [] Ha)
    as (_ & Hsteps & _ & _ & Hrequired).
  split; [exact Ha|]. split.
  - destruct (Hrequired ltac:(eexists; vm_compute; reflexivity) eq_refl)
      as (suffix & Hreported & Hsome & _).
    rewrite (Hsome "main output" eq_refl) in Hreported by done. exact Hreported.
  - exact (Hsteps ltac:(eexists; vm_compute; reflexivity)).
Defined.

(** C8 as stated fails on an empty description: no parentheses are added. *)
Lemma empty_description_adds_no_parentheses :
  absent disk out (missing_spec (Some EmptyString) true)
  /\ required (missing_spec (Some EmptyString) true) = true
  /\ description (missing_spec (Some EmptyString) true) = Some EmptyString
  /\ reported (alone disk out (missing_spec (Some EmptyString) true))
     = [ValidationError.mk "missing.json" "Required file missing"]
  /\ reported (alone disk out (missing_spec (Some EmptyString) true))
     <> [ValidationError.mk "missing.json" "Required file missing ()"].
Proof.
  split; [exists Fs.ENOENT; vm_compute; reflexivity|].
  split; [reflexivity|]. split; [reflexivity|].
  split; [vm_compute; reflexivity|]. vm_compute. discriminate.
Qed.

(** C6 on the sample. *)
Lemma create_demo_reads_back :
  created = (Returns demo_handle, demo_world)
  /\ JSON_parse (JSON_stringify (meta_object (workspace_meta (env_at 1000) "demo" demo_options)))
     = Returns (meta_object (workspace_meta (env_at 1000) "demo" demo_options))
  /\ WorkspaceHandle.id demo_handle = JStr "demo-1000-1a2b3c4d"
  /\ fst (WorkspaceManager.read_handle manager "demo-1000-1a2b3c4d" demo_world)
     = Returns demo_handle.
Proof.
  assert (created = (Returns demo_handle, demo_world)) as Hc by (vm_compute; reflexivity).
  assert (JSON_parse (JSON_stringify
                        (meta_object (workspace_meta (env_at 1000) "demo" demo_options)))
          = Returns (meta_object (workspace_meta (env_at 1000) "demo" demo_options))) as Hj
    by (vm_compute; reflexivity).
  destruct (create_then_read_back manager (env_at 1000) "demo" demo_options empty_world
              demo_handle demo_world Hc Hj)
    as (Hid & _ & h' & w'' & Hread & _ & _ & Hsame).
  split; [exact Hc|]. split; [exact Hj|]. split; [reflexivity|].
  change (workspace_id (env_at 1000) "demo") with "demo-1000-1a2b3c4d" in Hread.
  rewrite Hread, Hsame. reflexivity.
Defined.

(** C7 on the sample. *)
Lemma demo_sections :
  WorkspaceHandle.dirs demo_handle
  = JArr (JStr <$> ["input"; "output"; "resources"; "scratch"; "skills"])
  /\ WorkspaceHandle.dir demo_handle "skills"
     = Returns ["tmp"; "agent-workspaces"; "demo-1000-1a2b3c4d"; "skills"]
  /\ WorkspaceHandle.dir demo_handle "logs"
     = Throws (ErrorObj ("Unknown section " +:+ double_quote +:+ "logs" +:+ double_quote
                         +:+ ". Available: input, output, resources, scratch, skills"))
  /\ WorkspaceHandle.handle_writeRaw demo_handle "logs" "a.txt" "text" demo_world
     = (Throws (ErrorObj ("Unknown section " +:+ double_quote +:+ "logs" +:+ double_quote
                          +:+ ". Available: input, output, resources, scratch, skills")),
        demo_world).
Proof.
  destruct (dir_gates_sections demo_handle
              ["input"; "output"; "resources"; "scratch"; "skills"] "skills" eq_refl)
    as (Hknown & _ & _).
  destruct (dir_gates_sections demo_handle
              ["input"; "output"; "resources"; "scratch"; "skills"] "logs" eq_refl)
    as (_ & Hunknown & _).
  split; [reflexivity|]. split.
  - apply Hknown. do 4 apply list_elem_of_further. apply list_elem_of_here.
  - assert ("logs" ∉ ["input"; "output"; "resources"; "scratch"; "skills"]) as Hnot
      by (rewrite !elem_of_cons, elem_of_nil; intros Hin; repeat destruct Hin as [Hin|Hin];
          done).
    destruct (Hunknown Hnot) as (Hdir & _ & Hwrite & _).
    split; [exact Hdir | apply Hwrite].
Defined.

(** C4 fails on the code for a workspace exactly as old as the limit:
    created at time 1000 and pruned with limit 0 at time 1000, its age
    [1000 - 1000] is not less than the limit, yet it stays and
    [pruneStale] returns 0, where pruning everything older than 0 ms right
    after [create] is expected to remove it and return 1.  Called again
    one millisecond later, [pruneStale] returns 1: the second of two calls
    in a row does not return 0. *)
Lemma pruneStale_keeps_a_workspace_as_old_as_the_limit :
  listing manager demo_world = [demo_handle]
  /\ WorkspaceHandle.createdAt demo_handle = Some 1000
  /\ 1000 - 1000 >= 0
  /\ fst (WorkspaceManager.pruneStale manager 1000 0 demo_world) = Returns 0
  /\ listing manager (snd (WorkspaceManager.pruneStale manager 1000 0 demo_world))
     = [demo_handle]
  /\ fst (WorkspaceManager.pruneStale manager 1001 0
            (snd (WorkspaceManager.pruneStale manager 1000 0 demo_world)))
     = Returns 1.
Proof.
  split; [vm_compute; reflexivity|]. split; [reflexivity|]. split; [lia|].
  split; [vm_compute; reflexivity|]. split; vm_compute; reflexivity.
Qed.

(** ** More runs on sample data *)

Import SampleWriter.
Import MoreSamples.

(** X2 on the sample. *)
Lemma cleanup_demo_twice :
  WorkspaceManager.cleanup manager demo_handle demo_world = (Returns tt, cleaned_world)
  /\ lookup_path (WorkspaceHandle.path demo_handle) (tree cleaned_world) = None
  /\ exists w2,
       WorkspaceManager.cleanup manager demo_handle cleaned_world = (Returns tt, w2)
       /\ tree w2 = tree cleaned_world.
Proof.
  assert (WorkspaceManager.cleanup manager demo_handle demo_world = (Returns tt, cleaned_world))
    as Hc by (vm_compute; reflexivity).
  split; [exact Hc|]. exact (cleanup_twice manager demo_handle demo_world cleaned_world Hc).
Defined.

(** X3 on the sample. *)
Lemma cleanup_demo_empties_the_listing :
  demo_handle ∈ listing manager demo_world
  /\ exists w1,
       WorkspaceManager.cleanup manager demo_handle demo_world = (Returns tt, w1)
       /\ (forall h, h ∈ listing manager w1 <-> h ∈ listing manager demo_world /\ h <> demo_handle).
Proof.
  assert (demo_handle ∈ listing manager demo_world) as Hin.
  { assert (listing manager demo_world = [demo_handle]) as -> by (vm_compute; reflexivity).
    apply list_elem_of_here. }
  split; [exact Hin|]. exact (cleanup_removes_one_workspace manager demo_handle demo_world Hin).
Defined.

(** X4 on the sample. *)
Lemma create_demo_makes_every_section :
  created = (Returns demo_handle, demo_world)
  /\ is_dir_at ["tmp"; "agent-workspaces"; "demo-1000-1a2b3c4d"] (tree demo_world)
  /\ (exists d, WorkspaceHandle.dir demo_handle "skills" = Returns d
                /\ is_dir_at d (tree demo_world))
  /\ is_dir_at (WorkspaceHandle.outputDir demo_handle) (tree demo_world).
Proof.
  assert (created = (Returns demo_handle, demo_world)) as Hc by (vm_compute; reflexivity).
  destruct (create_makes_every_section manager (env_at 1000) "demo" demo_options empty_world
              demo_handle demo_world Hc)
    as (_ & Hdir & Hsections & (_ & Houtput & _) & _).
  split; [exact Hc|]. split; [exact Hdir|]. split; [|exact Houtput].
  apply Hsections. do 4 apply list_elem_of_further. apply list_elem_of_here.
Defined.

(** X5 on the sample: the directories made before the failure stay, and
    no workspace is listed. *)
Lemma failed_create_leaves_directories :
  (exists err, fst failed_create = Throws err)
  /\ (forall p content,
        lookup_path p (tree (snd failed_create)) = Some (File content)
        <-> lookup_path p (tree empty_world) = Some (File content))
  /\ (forall h, h ∈ listing manager (snd failed_create) <-> h ∈ listing manager empty_world)
  /\ is_dir_at ["tmp"; "agent-workspaces"; "demo-1000-1a2b3c4d"; "output"]
       (tree (snd failed_create))
  /\ listing manager (snd failed_create) = [].
Proof.
  assert (failed_create = (Throws Fs.EISDIR, snd failed_create)) as Hf
    by (vm_compute; reflexivity).
  destruct (failed_create_writes_no_file manager (env_at 1000) "demo" clashing_options
              empty_world Fs.EISDIR (snd failed_create) Hf)
    as (Hfiles & _ & Hlisting).
  split; [by exists Fs.EISDIR; rewrite Hf|]. split; [exact Hfiles|]. split; [exact Hlisting|].
  split; [eexists; vm_compute; reflexivity|]. vm_compute. reflexivity.
Defined.

(** X6 on the sample. *)
Lemma create_demo_is_listed :
  created = (Returns demo_handle, demo_world)
  /\ demo_handle ∈ listing manager demo_world.
Proof.
  assert (created = (Returns demo_handle, demo_world)) as Hc by (vm_compute; reflexivity).
  assert (JSON_parse (JSON_stringify
                        (meta_object (workspace_meta (env_at 1000) "demo" demo_options)))
          = Returns (meta_object (workspace_meta (env_at 1000) "demo" demo_options))) as Hj
    by (vm_compute; reflexivity).
  destruct (create_adds_to_listing manager (env_at 1000) "demo" demo_options empty_world
              demo_handle demo_world Hc eq_refl Hj) as [Hin _].
  split; [exact Hc | exact Hin].
Defined.

(** X7 on the sample: the empty line is skipped. *)
Lemma items_are_read :
  lookup_path (path_join out "items.jsonl") (tree items_world) = Some (File items_text)
  /\ fst (readJsonl Fs.readFile out "items.jsonl" None items_world)
     = Returns (JArr [JNum 1; JBool true; JNum 3]).
Proof.
  assert (lookup_path (path_join out "items.jsonl") (tree items_world)
          = Some (File items_text)) as Hfile by (vm_compute; reflexivity).
  split; [exact Hfile|].
  assert (Forall2 (line_value None) (nonempty_lines (String_trimEnd items_text))
            [JNum 1; JBool true; JNum 3]) as Hlines.
  { assert (nonempty_lines (String_trimEnd items_text) = ["1"; "true"; "3"]) as ->
      by (vm_compute; reflexivity).
    repeat constructor; eexists; (split; [vm_compute; reflexivity|reflexivity]). }
  destruct items_world as [t lg] eqn:Hworld.
  by rewrite (readJsonl_reads_every_nonempty_line out "items.jsonl" None t items_text
                _ Hfile Hlines lg).
Defined.

(** X8 on the sample: [true] is on the third line of the file and is
    the second line that is not empty. *)
Lemma items_fail_at_line_two :
  lookup_path (path_join out "items.jsonl") (tree items_world) = Some (File items_text)
  /\ nonempty_lines (String_trimEnd items_text) = ["1"] ++ "true" :: ["3"]
  /\ fst (readJsonl Fs.readFile out "items.jsonl" (Some {| json_schema := Some only_numbers |})
            items_world)
     = Throws (ErrorObj "JSONL validation failed at line 2: not a number").
Proof.
  assert (lookup_path (path_join out "items.jsonl") (tree items_world)
          = Some (File items_text)) as Hfile by (vm_compute; reflexivity).
  assert (nonempty_lines (String_trimEnd items_text) = ["1"] ++ "true" :: ["3"]) as Hlines
    by (vm_compute; reflexivity).
  split; [exact Hfile|]. split; [exact Hlines|].
  assert (Forall2 (line_value (Some {| json_schema := Some only_numbers |})) ["1"] [JNum 1])
    as Hbefore.
  { repeat constructor. exists (JNum 1). split; vm_compute; reflexivity. }
  destruct (readJsonl_reports_the_line out "items.jsonl"
              (Some {| json_schema := Some only_numbers |}) (tree items_world) items_text
              ["1"] "true" ["3"] [JNum 1] Hfile Hlines Hbefore) as (_ & Hrejected & _).
  specialize (Hrejected (JBool true) only_numbers (ErrorObj "not a number") "not a number").
  destruct items_world as [t lg]. simpl in Hrejected.
  rewrite (Hrejected ltac:(vm_compute; reflexivity) eq_refl eq_refl eq_refl lg). reflexivity.
Defined.

(** X9 on the sample. *)
Lemma writing_notes_succeeds :
  WorkspaceHandle.dir demo_handle "output" = Returns out
  /\ is_dir_at out (tree demo_world)
  /\ exists w1,
       WorkspaceHandle.handle_writeRaw demo_handle "output" "notes.txt" "some notes" demo_world
       = (Returns tt, w1).
Proof.
  assert (WorkspaceHandle.dir demo_handle "output" = Returns out) as Hd by reflexivity.
  assert (is_dir_at out (tree demo_world)) as Hdir by (eexists; vm_compute; reflexivity).
  assert (forall children,
             lookup_path (path_join out "notes.txt") (tree demo_world) <> Some (Dir children))
    as Hfree.
  { intros children.
    assert (lookup_path (path_join out "notes.txt") (tree demo_world) = None) as ->
      by (vm_compute; reflexivity).
    discriminate. }
  destruct (writing_succeeds_in_a_section demo_handle "output" out "notes.txt" demo_world
              Hd eq_refl Hdir Hfree) as [Hraw _].
  split; [exact Hd|]. split; [exact Hdir|]. apply Hraw.
Defined.

(** X10 on the sample: the metadata file is as it was. *)
Lemma writing_notes_keeps_the_metadata :
  WorkspaceHandle.dir demo_handle "output" = Returns out
  /\ WorkspaceHandle.handle_writeRaw demo_handle "output" "notes.txt" "some notes" demo_world
     = (Returns tt, raw_world)
  /\ lookup_path notes_path (tree raw_world) = Some (File "some notes")
  /\ lookup_path (metadata_path manager "demo-1000-1a2b3c4d") (tree raw_world)
     = lookup_path (metadata_path manager "demo-1000-1a2b3c4d") (tree demo_world).
Proof.
  assert (WorkspaceHandle.dir demo_handle "output" = Returns out) as Hd by reflexivity.
  assert (WorkspaceHandle.handle_writeRaw demo_handle "output" "notes.txt" "some notes"
            demo_world = (Returns tt, raw_world)) as Hw by (vm_compute; reflexivity).
  destruct (writers_write_one_file demo_handle "output" out "notes.txt" demo_world Hd
              eq_refl) as [Hraw _].
  destruct (Hraw "some notes" raw_world Hw) as (Hfile & _ & _ & Hothers & _).
  split; [exact Hd|]. split; [exact Hw|]. split; [exact Hfile|].
  assert (exists text,
             lookup_path (metadata_path manager "demo-1000-1a2b3c4d") (tree demo_world)
             = Some (File text)) as [text Hmeta] by (eexists; vm_compute; reflexivity).
  rewrite Hmeta. apply Hothers; [|exact Hmeta]. vm_compute. discriminate.
Defined.

(** X11 on the sample. *)
Lemma notes_read_back :
  WorkspaceHandle.handle_writeRaw demo_handle "output" "notes.txt" "some notes" demo_world
  = (Returns tt, raw_world)
  /\ fst (WorkspaceHandle.handle_readRaw demo_handle "output" "notes.txt" raw_world)
     = Returns (JStr "some notes").
Proof.
  assert (WorkspaceHandle.handle_writeRaw demo_handle "output" "notes.txt" "some notes"
            demo_world = (Returns tt, raw_world)) as Hw by (vm_compute; reflexivity).
  split; [exact Hw|].
  by rewrite (write_then_read_raw demo_handle "output" "notes.txt" "some notes" demo_world
                raw_world Hw).
Defined.

(** X12 on the sample. *)
Lemma answer_reads_back :
  WorkspaceHandle.handle_writeJson demo_handle "output" "result.json" answer demo_world
  = (Returns tt, json_world)
  /\ fst (WorkspaceHandle.handle_readJson demo_handle "output" "result.json"
            (Some {| json_schema := Some (number_schema "value") |}) json_world)
     = Returns answer.
Proof.
  assert (WorkspaceHandle.handle_writeJson demo_handle "output" "result.json" answer demo_world
          = (Returns tt, json_world)) as Hw by (vm_compute; reflexivity).
  split; [exact Hw|].
  rewrite (write_then_read_json demo_handle "output" "result.json" answer
             (Some {| json_schema := Some (number_schema "value") |}) demo_world json_world Hw).
  vm_compute. reflexivity.
Defined.

(** X13 on the sample. *)
Lemma items_read_back :
  handle_writeJsonl demo_handle "output" "items.jsonl" [JNum 1; JBool true] demo_world
  = (Returns tt, jsonl_world)
  /\ fst (WorkspaceHandle.handle_readJsonl demo_handle "output" "items.jsonl" None jsonl_world)
     = Returns (JArr [JNum 1; JBool true]).
Proof.
  assert (handle_writeJsonl demo_handle "output" "items.jsonl" [JNum 1; JBool true] demo_world
          = (Returns tt, jsonl_world)) as Hw by (vm_compute; reflexivity).
  split; [exact Hw|].
  destruct (write_then_read_jsonl demo_handle "output" "items.jsonl" [JNum 1; JBool true]
              ["1"; "true"] [JNum 1; JBool true] None demo_world jsonl_world Hw)
    as [Hread _]; [..|exact Hread].
  - repeat constructor.
  - repeat constructor; done.
  - vm_compute. reflexivity.
  - repeat constructor; eexists; (split; [vm_compute; reflexivity|reflexivity]).
Defined.

(** X14 on the sample: the body has got its final newline. *)
Lemma report_reads_back :
  handle_writeMarkdown demo_handle "output" "report.md" report demo_world
  = (Returns tt, report_world)
  /\ fst (WorkspaceHandle.handle_readMarkdown demo_handle "output" "report.md" None
            report_world)
     = Returns (markdown_object (JObj [("pages", JNum 3)]) "# Summary
").
Proof.
  assert (handle_writeMarkdown demo_handle "output" "report.md" report demo_world
          = (Returns tt, report_world)) as Hw by (vm_compute; reflexivity).
  split; [exact Hw|].
  rewrite (write_then_read_markdown demo_handle "output" "report.md" report None demo_world
             report_world Hw); [vm_compute; reflexivity|reflexivity|vm_compute; reflexivity].
Defined.

(** X15 on the sample: [null] frontmatter is read back as the empty
    object. *)
Lemma plain_notes_read_back :
  handle_writeMarkdown demo_handle "output" "notes.md" plain_notes demo_world
  = (Returns tt, plain_world)
  /\ fst (WorkspaceHandle.handle_readMarkdown demo_handle "output" "notes.md" None plain_world)
     = Returns (markdown_object (JObj []) "# Notes
").
Proof.
  assert (handle_writeMarkdown demo_handle "output" "notes.md" plain_notes demo_world
          = (Returns tt, plain_world)) as Hw by (vm_compute; reflexivity).
  split; [exact Hw|].
  destruct (write_then_read_plain_markdown demo_handle "output" "notes.md" plain_notes None
              demo_world plain_world Hw) as [_ Hread];
    [reflexivity|vm_compute; reflexivity|].
  rewrite Hread. vm_compute. reflexivity.
Defined.

(** X16 on the sample: text that is not JSON. *)
Lemma malformed_json_is_one_read_error :
  present (holding "this is not json at all") [] (plain_spec json)
  /\ decoded (holding "this is not json at all") [] (plain_spec json)
     = Throws (ErrorObj "Unexpected token in JSON")
  /\ reported (validateOutput (holding "this is not json at all") []
                 {| files := [plain_spec json] |})
     = [ValidationError.mk "file" "Failed to read file: Unexpected token in JSON"]
  /\ steps (validateOutput (holding "this is not json at all") []
              {| files := [plain_spec json] |})
     = [FsAccess ["file"]; FsReadFile ["file"]].
Proof.
  assert (present (holding "this is not json at all") [] (plain_spec json)) as Hp
    by reflexivity.
  assert (decoded (holding "this is not json at all") [] (plain_spec json)
          = Throws (ErrorObj "Unexpected token in JSON")) as Hd by (vm_compute; reflexivity).
  destruct (unreadable_file_is_one_read_error (holding "this is not json at all") []
              (plain_spec json) (ErrorObj "Unexpected token in JSON") [] [] Hp Hd)
    as [Hreadable _].
  destruct (Hreadable "Unexpected token in JSON" eq_refl) as (_ & _ & Hreported & Hsteps).
  split; [exact Hp|]. split; [exact Hd|]. split.
  - exact (Hreported ltac:(eexists; vm_compute; reflexivity)).
  - exact (Hsteps ltac:(eexists; reflexivity)).
Defined.

(** X18 on the sample: the third item is not parsed. *)
Lemma numbers_stop_at_true :
  decoded (holding items_text) [] numbers_spec = Returns (JArr [JNum 1; JBool true; JNum 3])
  /\ steps (alone (holding items_text) [] numbers_spec)
     = [FsAccess ["file"]; FsReadFile ["file"];
        CallSchemaParse "file" (JNum 1); CallSchemaParse "file" (JBool true)]
  /\ reported (alone (holding items_text) [] numbers_spec)
     = [ValidationError.mk "file" "Schema validation failed: not a number"].
Proof.
  assert (decoded (holding items_text) [] numbers_spec
          = Returns (JArr ([JNum 1] ++ JBool true :: [JNum 3]))) as Hd
    by (vm_compute; reflexivity).
  destruct (jsonl_schema_stops_at_first_rejection (holding items_text) [] numbers_spec
              only_numbers [JNum 1] (JBool true) [JNum 3] (ErrorObj "not a number")
              eq_refl eq_refl eq_refl Hd)
    as [Hreadable _].
  { repeat constructor. by exists (JNum 1). }
  { reflexivity. }
  destruct (Hreadable "not a number" eq_refl) as (Hsteps & _ & Hnone).
  split; [exact Hd|]. split; [exact Hsteps|].
  unfold reported. rewrite (Hnone eq_refl). reflexivity.
Defined.

(** X20 on the sample. *)
Lemma a_fence_inside_the_body_is_body :
  match_frontmatter "---
[1]
---

body
---
more
" = Some ("[1]", "body
---
more
")
  /\ String_includes ("[1]" +:+ String newline "---") fence_close = false.
Proof.
  assert (match_frontmatter "---
[1]
---

body
---
more
" = Some ("[1]", "body
---
more
")) as Hm by (vm_compute; reflexivity).
  split; [exact Hm|]. by destruct (frontmatter_ends_at_the_first_fence _ _ _ Hm).
Defined.

(** X21 on the sample: a file that is not there. *)
Lemma reading_a_missing_file :
  WorkspaceHandle.dir demo_handle "output" = Returns out
  /\ fst (WorkspaceHandle.handle_readJson demo_handle "output" "missing.json" None demo_world)
     = Throws Fs.ENOENT
  /\ snd (WorkspaceHandle.handle_readJson demo_handle "output" "missing.json" None demo_world)
     = after_call demo_world (FsReadFile (path_join out "missing.json")).
Proof.
  assert (WorkspaceHandle.dir demo_handle "output" = Returns out) as Hd by reflexivity.
  destruct (readers_only_read demo_handle "output" out "missing.json" None None demo_world Hd)
    as ((_ & Hafter & _) & Hthrows & Hmissing & _).
  split; [exact Hd|]. split; [|exact Hafter].
  apply Hthrows, Hmissing. vm_compute. reflexivity.
Defined.

(** X22 on the sample: the text file is not read, and the file that is
    not JSON makes the whole call fail. *)
Example read_the_json_files :
  fst (handle_readJsonDir demo_handle "output" "data" None data_world)
  = Returns [("a.json", JNum 1); ("b.json", JBool true)]
  /\ fst (handle_readJsonDir demo_handle "output" "data" None
            (snd (writeRaw data_path "c.json" "not json" data_world)))
     = Throws (ErrorObj "Unexpected token in JSON")
  /\ fst (handle_readJsonDir demo_handle "output" "nowhere" None data_world)
     = Throws Fs.ENOENT.
Proof. vm_compute. repeat split; reflexivity. Qed.

(** X23 on the sample. *)
Lemma decoded_items_are_the_lines :
  decoded (holding items_text) [] (plain_spec jsonl)
  = Returns (JArr [JNum 1; JBool true; JNum 3])
  /\ exists text,
       readFile_result (holding items_text) ["file"] = Returns text
       /\ exists items,
            JArr [JNum 1; JBool true; JNum 3] = JArr items
            /\ Forall2 (fun line item => JSON_parse line = Returns item)
                 (nonempty_lines (String_trimEnd text)) items.
Proof.
  assert (decoded (holding items_text) [] (plain_spec jsonl)
          = Returns (JArr [JNum 1; JBool true; JNum 3])) as Hd by (vm_compute; reflexivity).
  split; [exact Hd|].
  exact (decoded_content_has_its_format (holding items_text) [] (plain_spec jsonl) _ Hd).
Defined.

(** X24 on the sample. *)
Lemma written_answer_validates :
  WorkspaceHandle.handle_writeJson demo_handle "output" "result.json" answer demo_world
  = (Returns tt, json_world)
  /\ decoded (disk_of (tree json_world)) out answer_spec = Returns answer
  /\ fst (handle_validateOutput demo_handle {| files := [answer_spec] |} json_world)
     = Returns {| valid := true; errors := [] |}.
Proof.
  assert (WorkspaceHandle.handle_writeJson demo_handle "output" "result.json" answer demo_world
          = (Returns tt, json_world)) as Hw by (vm_compute; reflexivity).
  assert (JSON_parse (JSON_stringify answer +:+ newline_string) = Returns answer) as Hj
    by (vm_compute; reflexivity).
  destruct (written_output_validates demo_handle "result.json" answer answer answer_spec
              demo_world json_world Hw Hj eq_refl eq_refl)
    as (_ & Hdecoded & Hvalid).
  split; [exact Hw|]. split; [exact Hdecoded|]. by rewrite (Hvalid eq_refl eq_refl).
Defined.

(** X25 on the sample: a file with a rejected schema and a throwing
    callback, a required file that is missing and an optional file that is
    missing make three errors. *)
Lemma three_failures_are_counted :
  Forall (errors_readable disk out)
    [result_spec (Some throwing_check); missing_spec None true; missing_spec None false]
  /\ exists result,
       fst (validateOutput disk out
              {| files := [result_spec (Some throwing_check); missing_spec None true;
                           missing_spec None false] |})
       = Returns result
       /\ length (errors result) = 3%nat
       /\ valid result = false.
Proof.
  assert (Forall (errors_readable disk out)
            [result_spec (Some throwing_check); missing_spec None true;
             missing_spec None false]) as Hreadable.
  { constructor; [|constructor; [|constructor; [|constructor]]].
    - intros _. split.
      + intros err Hd. vm_compute in Hd. discriminate Hd.
      + intros c Hd. split.
        * intros sch err [= <-] Hrej. vm_compute in Hd. injection Hd as <-.
          vm_compute in Hrej. injection Hrej as <-. by eexists.
        * intros predicate err [= <-] Hthrow. vm_compute in Hthrow.
          injection Hthrow as <-. by eexists.
    - intros Hp. vm_compute in Hp. discriminate Hp.
    - intros Hp. vm_compute in Hp. discriminate Hp. }
  split; [exact Hreadable|].
  destruct (validateOutput_counts_failures disk out
              {| files := [result_spec (Some throwing_check); missing_spec None true;
                           missing_spec None false] |} Hreadable)
    as (result & Hrun & Hlen & Hvalid & _).
  exists result. split; [exact Hrun|]. split.
  - rewrite Hlen. vm_compute. reflexivity.
  - destruct (valid result) eqn:Hv; [|reflexivity].
    destruct Hvalid as [Hzero _]. specialize (Hzero eq_refl). vm_compute in Hzero.
    discriminate Hzero.
Defined.
